(** * Zentra backend: the analytics core, embedded in Rocq

    Shallow embedding of the pure analysis functions of
    [src/services/analysis.service.js] and of [calculateRiskMetrics]
    of the dashboard service, followed by the theorems that settle the
    specification's claims about them.

    The store queries of the analysis service ([getCurrentState],
    [getSessionForecast], [getStateHistory]) and the summary, session,
    trend and alert functions of the dashboard service with
    [getDashboardSummary] are embedded as well; the properties X1,
    X2, ... are read off the code.

    Conventions of the embedding.
    - A JavaScript number is an exact rational ([Q]); the data model of
      the specification calls the trade fields real numbers.  Decimal
      literals of the source ([0.9], [0.6], [1.5] ...) are the same
      decimal literals here.
      The code computes in double precision, where every sum, product
      and quotient is rounded; here they are exact.  A value of the
      model can therefore differ from the code's in its last binary
      place, and in the second decimal where [Math.round(x * 100)]
      meets a tie (0.145, 1.005).  Statements about rounded figures
      and about averages are put so as not to depend on it: bounds that
      rounding keeps, whole numbers of hundredths, hypotheses on each
      trade rather than on the average.
    - [Math.round] is [floor (x + 1/2)] (round half up), its results
      are integers ([Z]).
    - A [const]/[let] of the source is a [let] here; a block of mutable
      locals updated by a cascade of [if]s is a record threaded through
      one function per [if].
    - An object literal used as a counter table is an association list
      kept in insertion order, which is the order [Object.keys] returns
      for the non-numeric keys used by the source.
    - A call that may throw returns a [Result]; [bind] sequences the
      code that follows it.
    - The trade collection is the list of its documents; a query
      filters it, sorts it and cuts it at its limit. *)

From Stdlib Require Import ZArith QArith Qround Qabs List String Ascii Bool Lia Lqa.
From Stdlib Require Import Permutation Sorted.
From Stdlib Require Reals Qreals Lra.
Import ListNotations.

Open Scope Q_scope.

(* ================================================================== *)
(** * JavaScript primitives used by the services *)
(* ================================================================== *)

Module JS.

(** [x <= y], [x < y], [x >= y], [x > y] on numbers. *)
Definition le (x y : Q) : bool := Qle_bool x y.
Definition lt (x y : Q) : bool := negb (Qle_bool y x).
Definition ge (x y : Q) : bool := Qle_bool y x.
Definition gt (x y : Q) : bool := negb (Qle_bool x y).

Definition Math_min (x y : Q) : Q := if le x y then x else y.
Definition Math_max (x y : Q) : Q := if le x y then y else x.

(** [Math.round]: nearest integer, halves go up. *)
Definition Math_round (x : Q) : Z := Qfloor (x + (1 # 2)).

(** [Math.round(x * 100) / 100], the source's two-decimal rounding. *)
Definition round2 (x : Q) : Q := inject_Z (Math_round (x * 100)) / 100.

(** [Math.round(Math.sqrt(v))] for a rational [v >= 0]: the integer
    [k] with [k - 1/2 <= sqrt v < k + 1/2].  Since [sqrt v] is not
    rational in general it is computed on integers:
    [floor (sqrt (4 v)) = Z.sqrt (floor (4 v))] and
    [k = (floor (2 sqrt v) + 1) / 2].  [round_sqrt_spec] below states
    the bracketing on the squares and [SqrtAdequacy.round_sqrt_real]
    with the square root of the real numbers. *)
Definition round_sqrt (v : Q) : Z := (Z.sqrt (Qfloor (4 * v)) + 1) / 2.

(** [xs.length] as a number. *)
Definition len {A} (xs : list A) : Q := inject_Z (Z.of_nat (List.length xs)).

(** [xs.reduce((sum, x) => sum + f(x), 0)]. *)
Definition sum_by {A} (f : A -> Q) (xs : list A) : Q :=
  fold_left (fun sum x => sum + f x) xs 0.

(** [xs.slice(start, end)] for [0 <= start]. *)
Definition slice {A} (start stop : nat) (xs : list A) : list A :=
  firstn (stop - start) (skipn start xs).

(** Errors a call can throw. *)
Inductive Error : Type :=
| TypeError (message : string).

Inductive Result (A : Type) : Type :=
| Ok (value : A)
| Throw (error : Error).
Arguments Ok {A} value.
Arguments Throw {A} error.

Definition bind {A B} (r : Result A) (k : A -> Result B) : Result B :=
  match r with
  | Ok a => k a
  | Throw e => Throw e
  end.

(** [xs.reduce(f)] without an initial value: the first element seeds
    the accumulator, an empty array throws. *)
Definition reduce1 {A} (f : A -> A -> A) (xs : list A) : Result A :=
  match xs with
  | [] => Throw (TypeError "Reduce of empty array with no initial value")
  | x :: rest => Ok (fold_left f rest x)
  end.

(** ASCII part of [String.prototype.toUpperCase]: the letters a to z
    are mapped, every other character is kept.  It is the code's
    function on ASCII strings only; what is stated of session names
    is stated of those. *)
Definition upper_ascii (c : ascii) : ascii :=
  let n := nat_of_ascii c in
  if ((97 <=? n) && (n <=? 122))%nat then ascii_of_nat (n - 32) else c.

Fixpoint toUpperCase (s : string) : string :=
  match s with
  | EmptyString => EmptyString
  | String c rest => String (upper_ascii c) (toUpperCase rest)
  end.

(** ** Objects used as counter tables

    [counts[k] = (counts[k] || 0) + 1] keeps an existing key at its
    place and appends a new key at the end. *)
Section Counter.
Context {K : Type} (eqb : K -> K -> bool).

Definition Object := list (K * Z).

Fixpoint get (o : Object) (k : K) : option Z :=
  match o with
  | [] => None
  | (k', n) :: rest => if eqb k k' then Some n else get rest k
  end.

Fixpoint set (o : Object) (k : K) (v : Z) : Object :=
  match o with
  | [] => [(k, v)]
  | (k', n) :: rest =>
      if eqb k k' then (k', v) :: rest else (k', n) :: set rest k v
  end.

(** [x || 0] on a table cell. *)
Definition or0 (x : option Z) : Z :=
  match x with
  | Some n => if (n =? 0)%Z then 0%Z else n
  | None => 0%Z
  end.

Definition keys (o : Object) : list K := map fst o.

(** [xs.forEach(x => { counts[x] = (counts[x] || 0) + 1 })]. *)
Definition count_all (xs : list K) : Object :=
  fold_left (fun o k => set o k (or0 (get o k) + 1)%Z) xs [].

(** [counts[a] > counts[b]]; a missing cell compares false. *)
Definition cell_gt (o : Object) (a b : K) : bool :=
  match get o a, get o b with
  | Some x, Some y => (y <? x)%Z
  | _, _ => false
  end.

(** [Object.keys(counts).reduce((a, b) => counts[a] > counts[b] ? a : b)]. *)
Definition max_key (o : Object) : Result K :=
  reduce1 (fun a b => if cell_gt o a b then a else b) (keys o).
End Counter.

End JS.

Import JS.

(* ================================================================== *)
(** * Data model *)
(* ================================================================== *)

(** [TradingSessions] of [models/enums.js]. *)
Inductive Session : Type := LONDON | NY | ASIA.

Definition Session_eqb (a b : Session) : bool :=
  match a, b with
  | LONDON, LONDON | NY, NY | ASIA, ASIA => true
  | _, _ => false
  end.

Definition Session_name (s : Session) : string :=
  match s with
  | LONDON => "LONDON"
  | NY => "NY"
  | ASIA => "ASIA"
  end.

(** Dates are milliseconds since the epoch. *)
Definition Timestamp := Z.
Bind Scope Z_scope with Timestamp.

(** The trade schema of [models/trade.model.js]. *)
Record Trade : Type := mkTrade {
  _id : Z;
  userId : Z;
  entryTime : Timestamp;
  exitTime : Timestamp;
  riskPercentUsed : Q;
  profitLoss : Q;
  riskRewardAchieved : Q;
  session : Session;
  stopLossHit : bool;
  exitedEarly : bool;
  targetPercentAchieved : Q;
  notes : option string
}.

(** A trade with the given identifier, entry time, profit or loss, risk
    used and session, the other fields at fixed values; used to write
    concrete inputs. *)
Definition trade (id : Z) (time : Timestamp) (pnl risk : Q) (s : Session) : Trade :=
  {| _id := id; userId := 1; entryTime := time; exitTime := (time + 1)%Z;
     riskPercentUsed := risk; profitLoss := pnl; riskRewardAchieved := 1;
     session := s; stopLossHit := false; exitedEarly := false;
     targetPercentAchieved := 100; notes := None |}.

(** The labels [analyzePsychologicalState] assigns. *)
Inductive PsyState : Type := NEUTRAL | CONFIDENT | FRUSTRATED | GREEDY | FEARFUL.

Definition PsyState_eqb (a b : PsyState) : bool :=
  match a, b with
  | NEUTRAL, NEUTRAL | CONFIDENT, CONFIDENT | FRUSTRATED, FRUSTRATED
  | GREEDY, GREEDY | FEARFUL, FEARFUL => true
  | _, _ => false
  end.

Record PsychologicalStateResult : Type := mkPsy {
  state : PsyState;
  confidence : Z;
  riskTolerance : Z;
  emotionalBalance : Z;
  lastUpdated : Timestamp;
  recommendations : list string
}.

(* ================================================================== *)
(** * Metrics shared by the analyses *)
(* ================================================================== *)

(** [trades.filter((t) => t.profitLoss > 0).length] *)
Definition winningTrades (trades : list Trade) : Q :=
  len (filter (fun t => gt (profitLoss t) 0) trades).

(** [totalTrades > 0 ? (winningTrades / totalTrades) * 100 : 0] *)
Definition winRate (trades : list Trade) : Q :=
  if gt (len trades) 0 then (winningTrades trades / len trades) * 100 else 0.

(** [trades.reduce((sum, t) => sum + t.field, 0) / totalTrades] *)
Definition avg (field : Trade -> Q) (trades : list Trade) : Q :=
  sum_by field trades / len trades.

(** [trades.filter((t) => t.flag).length / totalTrades] *)
Definition fraction (flag : Trade -> bool) (trades : list Trade) : Q :=
  len (filter flag trades) / len trades.

(* ================================================================== *)
(** * State classifier: [analyzePsychologicalState] *)
(* ================================================================== *)

(** The mutable locals [state], [confidence], [riskTolerance],
    [emotionalBalance] and [recommendations]. *)
Record Verdict : Type := mkVerdict {
  v_state : PsyState;
  v_confidence : Q;
  v_riskTolerance : Q;
  v_emotionalBalance : Q;
  v_recommendations : list string
}.

Definition baseline : Verdict :=
  {| v_state := NEUTRAL; v_confidence := 50; v_riskTolerance := 50;
     v_emotionalBalance := 50; v_recommendations := [] |}.

Definition push (r : string) (v : Verdict) : Verdict :=
  {| v_state := v_state v; v_confidence := v_confidence v;
     v_riskTolerance := v_riskTolerance v;
     v_emotionalBalance := v_emotionalBalance v;
     v_recommendations := v_recommendations v ++ [r] |}.

(** Lines 38-46: win rate impact. *)
Definition winRateRule (winRate : Q) (v : Verdict) : Verdict :=
  if ge winRate 70 then
    {| v_state := CONFIDENT;
       v_confidence := Math_min 95 (50 + (winRate - 50) * 0.9);
       v_riskTolerance := Math_min 80 (50 + (winRate - 50) * 0.6);
       v_emotionalBalance := v_emotionalBalance v;
       v_recommendations := v_recommendations v |}
  else if le winRate 30 then
    {| v_state := FRUSTRATED;
       v_confidence := Math_max 20 (50 - (50 - winRate) * 0.6);
       v_riskTolerance := Math_max 20 (50 - (50 - winRate) * 0.6);
       v_emotionalBalance := v_emotionalBalance v;
       v_recommendations := v_recommendations v |}
  else v.

(** Lines 49-57: risk management. *)
Definition riskRule (avgRiskUsed : Q) (v : Verdict) : Verdict :=
  if gt avgRiskUsed 3 then
    push "Reduce risk per trade"
      {| v_state := GREEDY;
         v_confidence := v_confidence v;
         v_riskTolerance := Math_min 90 (v_riskTolerance v + 20);
         v_emotionalBalance := v_emotionalBalance v;
         v_recommendations := v_recommendations v |}
  else if lt avgRiskUsed 1 then
    push "Consider increasing position size gradually"
      {| v_state := FEARFUL;
         v_confidence := v_confidence v;
         v_riskTolerance := Math_max 10 (v_riskTolerance v - 20);
         v_emotionalBalance := v_emotionalBalance v;
         v_recommendations := v_recommendations v |}
  else v.

Definition lowerBalance (by_ : Q) (v : Verdict) : Verdict :=
  {| v_state := v_state v; v_confidence := v_confidence v;
     v_riskTolerance := v_riskTolerance v;
     v_emotionalBalance := Math_max 30 (v_emotionalBalance v - by_);
     v_recommendations := v_recommendations v |}.

(** Lines 63-66. *)
Definition earlyExitRule (trades : list Trade) (v : Verdict) : Verdict :=
  if gt (fraction exitedEarly trades) 0.3 then
    push "Work on holding profitable trades longer" (lowerBalance 20 v)
  else v.

(** Lines 68-71. *)
Definition stopLossRule (trades : list Trade) (v : Verdict) : Verdict :=
  if gt (fraction stopLossHit trades) 0.4 then
    push "Review entry strategies and market analysis" (lowerBalance 15 v)
  else v.

(** Lines 74-76. *)
Definition targetRule (avgTargetAchieved : Q) (v : Verdict) : Verdict :=
  if lt avgTargetAchieved 50 then
    push "Improve trade management and target setting" v
  else v.

(** Lines 79-81. *)
Definition defaultRule (v : Verdict) : Verdict :=
  if (List.length (v_recommendations v) =? 0)%nat then
    push "Continue current trading approach" v
  else v.

(** The locals after the whole cascade, before the rounding of the
    [return]. *)
Definition verdict (trades : list Trade) : Verdict :=
  let winRate := winRate trades in
  let avgRiskUsed := avg riskPercentUsed trades in
  let avgTargetAchieved := avg targetPercentAchieved trades in
  defaultRule
    (targetRule avgTargetAchieved
       (stopLossRule trades
          (earlyExitRule trades
             (riskRule avgRiskUsed
                (winRateRule winRate baseline))))).

(** [now] is the value [new Date()] yields during the call. *)
Definition analyzePsychologicalState (now : Timestamp) (trades : list Trade)
  : PsychologicalStateResult :=
  if (List.length trades =? 0)%nat then
    {| state := NEUTRAL; confidence := 50; riskTolerance := 50;
       emotionalBalance := 50; lastUpdated := now;
       recommendations := ["Start trading to build psychological profile"%string] |}
  else
    let v := verdict trades in
    {| state := v_state v;
       confidence := Math_round (v_confidence v);
       riskTolerance := Math_round (v_riskTolerance v);
       emotionalBalance := Math_round (v_emotionalBalance v);
       lastUpdated := now;
       recommendations := v_recommendations v |}.

(* ================================================================== *)
(** * Session forecaster: [analyzeSessionForecast] *)
(* ================================================================== *)

(** The strings ['POSITIVE'], ['NEGATIVE'], ['NEUTRAL'] of a forecast
    and of a factor's impact. *)
Module Dir.
Inductive t : Type := POSITIVE | NEGATIVE | NEUTRAL.
End Dir.

Module Forecast.
Record Factor : Type := mkFactor {
  factor : string;
  impact : Dir.t;
  weight : Q
}.

Record t : Type := mk {
  session : string;
  forecast : Dir.t;
  probability : Z;
  factors : list Factor;
  recommendations : list string
}.
End Forecast.

(** [(winningTrades / totalTrades) * 100], without the guard of
    [winRate]. *)
Definition winRatePct (trades : list Trade) : Q :=
  (winningTrades trades / len trades) * 100.

(** The mutable locals [probability] and [factors]. *)
Record Tally : Type := mkTally {
  t_probability : Z;
  t_factors : list Forecast.Factor
}.

Definition addFactor (name : string) (i : Dir.t) (w : Q) (delta : Z) (t : Tally)
  : Tally :=
  {| t_probability := (t_probability t + delta)%Z;
     t_factors := t_factors t ++ [Forecast.mkFactor name i w] |}.

(** Lines 129-143. *)
Definition winRateFactor (winRate : Q) (t : Tally) : Tally :=
  if ge winRate 60 then addFactor "Historical win rate" Dir.POSITIVE 0.4 20 t
  else if le winRate 40 then addFactor "Historical win rate" Dir.NEGATIVE 0.4 (-20) t
  else t.

(** Lines 146-160. *)
Definition profitFactor (avgProfit : Q) (t : Tally) : Tally :=
  if gt avgProfit 0 then addFactor "Average profitability" Dir.POSITIVE 0.3 15 t
  else addFactor "Average profitability" Dir.NEGATIVE 0.3 (-15) t.

(** Lines 163-178. *)
Definition riskFactor (avgRisk : Q) (t : Tally) : Tally :=
  if le avgRisk 2 then addFactor "Risk management" Dir.POSITIVE 0.3 10 t
  else addFactor "Risk management" Dir.NEGATIVE 0.3 (-10) t.

(** [probability] and [factors] when the three factors have been
    weighed, before the [return] clamps. *)
Definition tally (trades : list Trade) : Tally :=
  let winRate := winRatePct trades in
  let avgProfit := avg profitLoss trades in
  let avgRisk := avg riskPercentUsed trades in
  riskFactor avgRisk
    (profitFactor avgProfit
       (winRateFactor winRate {| t_probability := 50; t_factors := [] |})).

(** Lines 181-185. *)
Definition forecastOf (probability : Z) : Dir.t :=
  if (65 <=? probability)%Z then Dir.POSITIVE
  else if (probability <=? 35)%Z then Dir.NEGATIVE
  else Dir.NEUTRAL.

(** Lines 188-197. *)
Definition forecastRecommendations (forecast : Dir.t) : list string :=
  match forecast with
  | Dir.POSITIVE =>
      ["Consider increasing position size"; "Focus on high-probability setups"]%string
  | Dir.NEGATIVE =>
      ["Reduce position sizes"; "Be more selective with entries"]%string
  | Dir.NEUTRAL =>
      ["Trade with normal position sizes"; "Monitor market conditions closely"]%string
  end.

(** [Math.max(0, Math.min(100, probability))] *)
Definition clamp (probability : Z) : Z := Z.max 0 (Z.min 100 probability).

Definition analyzeSessionForecast (trades : list Trade) (session : string)
  : Forecast.t :=
  if (List.length trades =? 0)%nat then
    {| Forecast.session := toUpperCase session;
       Forecast.forecast := Dir.NEUTRAL;
       Forecast.probability := 50;
       Forecast.factors := [Forecast.mkFactor "No historical data" Dir.NEUTRAL 1.0];
       Forecast.recommendations :=
         ["Start trading this session to build forecast data"%string] |}
  else
    let t := tally trades in
    let forecast := forecastOf (t_probability t) in
    {| Forecast.session := toUpperCase session;
       Forecast.forecast := forecast;
       Forecast.probability := clamp (t_probability t);
       Forecast.factors := t_factors t;
       Forecast.recommendations := forecastRecommendations forecast |}.

(* ================================================================== *)
(** * Performance insights: [analyzePerformanceInsights] *)
(* ================================================================== *)

Module Insight.
Inductive Kind : Type := STRENGTH | WEAKNESS | OPPORTUNITY | THREAT.
Inductive Level : Type := HIGH | MEDIUM | LOW.

Record t : Type := mk {
  type : Kind;
  description : string;
  confidence : Z;
  impact : Level
}.

Record Pattern : Type := mkPattern {
  pattern : string;
  frequency : Z;
  correlation : Q
}.

Record Report : Type := mkReport {
  period : string;
  insights : list t;
  patterns : list Pattern;
  recommendations : list string
}.
End Insight.

(** The mutable arrays [insights], [patterns] and [recommendations]. *)
Record Findings : Type := mkFindings {
  f_insights : list Insight.t;
  f_patterns : list Insight.Pattern;
  f_recommendations : list string
}.

Definition pushInsight (i : Insight.t) (f : Findings) : Findings :=
  {| f_insights := f_insights f ++ [i]; f_patterns := f_patterns f;
     f_recommendations := f_recommendations f |}.

Definition pushPattern (p : Insight.Pattern) (f : Findings) : Findings :=
  {| f_insights := f_insights f; f_patterns := f_patterns f ++ [p];
     f_recommendations := f_recommendations f |}.

Definition pushRecommendation (r : string) (f : Findings) : Findings :=
  {| f_insights := f_insights f; f_patterns := f_patterns f;
     f_recommendations := f_recommendations f ++ [r] |}.

(** Lines 272-287. *)
Definition winRateInsight (winRate : Q) (f : Findings) : Findings :=
  if ge winRate 70 then
    pushInsight
      (Insight.mk Insight.STRENGTH
         "Excellent win rate indicates strong market analysis skills"
         (Math_round winRate) Insight.HIGH) f
  else if le winRate 30 then
    pushRecommendation "Review entry criteria and market analysis"
      (pushInsight
         (Insight.mk Insight.WEAKNESS
            "Low win rate suggests need for better entry strategies"
            (Math_round (100 - winRate)) Insight.HIGH) f)
  else f.

(** Lines 290-305. *)
Definition riskInsight (avgRisk : Q) (f : Findings) : Findings :=
  if le avgRisk 2 then
    pushInsight
      (Insight.mk Insight.STRENGTH
         "Consistent risk management shows good discipline" 85 Insight.HIGH) f
  else if gt avgRisk 3 then
    pushRecommendation "Reduce risk per trade to protect capital"
      (pushInsight
         (Insight.mk Insight.WEAKNESS
            "High risk per trade may lead to account blowouts" 80 Insight.HIGH) f)
  else f.

(** Lines 308-323. *)
Definition riskRewardInsight (avgRiskReward : Q) (f : Findings) : Findings :=
  if ge avgRiskReward 1.5 then
    pushInsight
      (Insight.mk Insight.STRENGTH
         "Good risk-reward ratios maximize profit potential" 75 Insight.MEDIUM) f
  else if lt avgRiskReward 1 then
    pushRecommendation "Focus on trades with better risk-reward ratios"
      (pushInsight
         (Insight.mk Insight.WEAKNESS
            "Poor risk-reward ratios limit profit potential" 70 Insight.MEDIUM) f)
  else f.

(** Lines 329-336. *)
Definition earlyExitPattern (trades : list Trade) (f : Findings) : Findings :=
  if gt (fraction exitedEarly trades) 0.3 then
    pushRecommendation "Practice holding winners longer"
      (pushPattern
         (Insight.mkPattern "Early exit on profitable trades"
            (Math_round (fraction exitedEarly trades * 100)) (-0.3)) f)
  else f.

(** Lines 338-345. *)
Definition stopLossPattern (trades : list Trade) (f : Findings) : Findings :=
  if gt (fraction stopLossHit trades) 0.4 then
    pushRecommendation "Improve entry timing and market analysis"
      (pushPattern
         (Insight.mkPattern "Frequent stop loss hits"
            (Math_round (fraction stopLossHit trades * 100)) (-0.5)) f)
  else f.

(** Lines 348-351: the table [sessionCounts]. *)
Definition sessionCounts (trades : list Trade) : Object :=
  count_all Session_eqb (map session trades).

(** Line 353: the local [bestSession]. *)
Definition bestSession (trades : list Trade) : Result Session :=
  max_key Session_eqb (sessionCounts trades).

(** [sessionCounts[bestSession] / totalTrades > 0.5]; a missing cell
    gives [NaN], which compares false. *)
Definition dominates (trades : list Trade) (best : Session) : bool :=
  match get Session_eqb (sessionCounts trades) best with
  | Some n => gt (inject_Z n / len trades) 0.5
  | None => false
  end.

(** Lines 355-362. *)
Definition sessionInsight (trades : list Trade) (best : Session) (f : Findings)
  : Findings :=
  if dominates trades best then
    pushInsight
      (Insight.mk Insight.OPPORTUNITY
         ("Strong performance in " ++ Session_name best ++ " session")%string
         70 Insight.MEDIUM) f
  else f.

(** Lines 365-368. *)
Definition defaultRecommendations (f : Findings) : Findings :=
  if (List.length (f_recommendations f) =? 0)%nat then
    pushRecommendation "Monitor performance metrics regularly"
      (pushRecommendation "Continue current trading approach" f)
  else f.

Definition analyzePerformanceInsights (trades : list Trade) (period : string)
  : Result Insight.Report :=
  if (List.length trades =? 0)%nat then
    Ok {| Insight.period := period;
          Insight.insights :=
            [Insight.mk Insight.OPPORTUNITY
               "No trading data available for analysis" 100 Insight.LOW];
          Insight.patterns := [];
          Insight.recommendations :=
            ["Start trading to generate performance insights"%string] |}
  else
    let winRate := winRatePct trades in
    let avgRisk := avg riskPercentUsed trades in
    let avgRiskReward := avg riskRewardAchieved trades in
    let f :=
      stopLossPattern trades
        (earlyExitPattern trades
           (riskRewardInsight avgRiskReward
              (riskInsight avgRisk
                 (winRateInsight winRate (mkFindings [] [] []))))) in
    bind (bestSession trades) (fun best =>
    let f := defaultRecommendations (sessionInsight trades best f) in
    Ok {| Insight.period := period;
          Insight.insights := f_insights f;
          Insight.patterns := f_patterns f;
          Insight.recommendations := f_recommendations f |}).

(** ** The service wrapper [getPerformanceInsights]

    The trade store is a list of trades; [Trade.find({userId,
    entryTime: {$gte: start, $lte: end}}).sort({entryTime: -1})]
    selects from it.  The window [dateRange] is what [getDateRange]
    computes from the clock for the period. *)

(** [xs.sort(cmp)], stable; also used for the store's ordering. *)
Fixpoint insertSorted {A} (cmp : A -> A -> Z) (x : A) (sorted : list A) : list A :=
  match sorted with
  | [] => [x]
  | y :: rest =>
      if (cmp x y <=? 0)%Z then x :: y :: rest
      else y :: insertSorted cmp x rest
  end.

Definition sort {A} (cmp : A -> A -> Z) (xs : list A) : list A :=
  fold_right (insertSorted cmp) [] xs.

Record DateRange : Type := mkRange { range_start : Timestamp; range_end : Timestamp }.

Definition findInPeriod (store : list Trade) (user : Z) (dateRange : DateRange)
  : list Trade :=
  sort (fun a b => (entryTime b - entryTime a)%Z)
    (filter (fun t => (userId t =? user)%Z
                      && (range_start dateRange <=? entryTime t)%Z
                      && (entryTime t <=? range_end dateRange)%Z) store).

Definition getPerformanceInsights (store : list Trade) (dateRange : DateRange)
  (user : Z) (period : string) : Result Insight.Report :=
  let periodTrades := findInPeriod store user dateRange in
  bind (analyzePerformanceInsights periodTrades period) (fun insights =>
  Ok insights).

(* ================================================================== *)
(** * State history: [analyzeStateHistory] *)
(* ================================================================== *)

Module History.
Record Context : Type := mkContext {
  tradeId : Z;
  profitLoss : Q;
  riskPercentUsed : Q
}.

Record Entry : Type := mkEntry {
  timestamp : Timestamp;
  state : PsyState;
  confidence : Z;
  trigger : string;
  context : Context
}.

Record Summary : Type := mkSummary {
  totalChanges : Z;
  mostCommonState : PsyState;
  averageConfidence : Z;
  volatility : Q
}.

Record t : Type := mk {
  history : list Entry;
  summary : Summary
}.
End History.

(** Lines 383-397. *)
Definition getStateTrigger (trade : Trade) : string :=
  if gt (profitLoss trade) 0 then "Profitable trade"
  else if lt (profitLoss trade) 0 then "Losing trade"
  else if exitedEarly trade then "Early exit"
  else if stopLossHit trade then "Stop loss hit"
  else "Trade execution".

(** What the [for] loop of lines 430-454 updates. *)
Record Replay : Type := mkReplay {
  r_history : list History.Entry;
  r_states : list PsyState;
  r_confidences : list Z;
  r_lastState : option PsychologicalStateResult;
  r_stateChangeCount : Z
}.

Definition replayStart : Replay :=
  {| r_history := []; r_states := []; r_confidences := [];
     r_lastState := None; r_stateChangeCount := 0 |}.

(** Line 436: [!lastState || lastState.state !== state.state ||
    Math.abs(lastState.confidence - state.confidence) > 15]. *)
Definition significant (lastState : option PsychologicalStateResult)
  (st : PsychologicalStateResult) : bool :=
  match lastState with
  | None => true
  | Some last =>
      negb (PsyState_eqb (state last) (state st))
      || (15 <? Z.abs (confidence last - confidence st))%Z
  end.

(** The body of the loop at index [i]. *)
Definition replayStep (now : Timestamp) (sortedTrades : list Trade) (i : nat)
  (trade : Trade) (r : Replay) : Replay :=
  let recentTrades := slice (Nat.max 0 (i - 4)) (i + 1) sortedTrades in
  let st := analyzePsychologicalState now recentTrades in
  if significant (r_lastState r) st then
    {| r_history :=
         r_history r ++
           [ {| History.timestamp := entryTime trade;
                History.state := state st;
                History.confidence := confidence st;
                History.trigger := getStateTrigger trade;
                History.context :=
                  {| History.tradeId := _id trade;
                     History.profitLoss := profitLoss trade;
                     History.riskPercentUsed := riskPercentUsed trade |} |} ];
       r_states := r_states r ++ [state st];
       r_confidences := r_confidences r ++ [confidence st];
       r_lastState := Some st;
       r_stateChangeCount := (r_stateChangeCount r + 1)%Z |}
  else r.

(** [for (let i = 0; i < sortedTrades.length && history.length < limit;
    i += 1)], run from index [i] for at most [fuel] iterations.
    [replay_fuel] shows that [length sortedTrades - i] iterations are
    all the loop can make. *)
Fixpoint replayFrom (now : Timestamp) (sortedTrades : list Trade) (limit : Z)
  (fuel : nat) (i : nat) (r : Replay) : Replay :=
  match fuel with
  | O => r
  | S fuel' =>
      match nth_error sortedTrades i with
      | Some trade =>
          if (Z.of_nat (List.length (r_history r)) <? limit)%Z then
            replayFrom now sortedTrades limit fuel' (S i)
              (replayStep now sortedTrades i trade r)
          else r
      | None => r
      end
  end.

Definition replay (now : Timestamp) (sortedTrades : list Trade) (limit : Z)
  : Replay :=
  replayFrom now sortedTrades limit (List.length sortedTrades) 0 replayStart.

(** [confidences.reduce((sum, conf) => sum + conf, 0)] and the like. *)
Definition sumZ (f : Z -> Q) (xs : list Z) : Q := sum_by f xs.

(** Lines 464-465. *)
Definition averageConfidenceOf (confidences : list Z) : Z :=
  if (0 <? List.length confidences)%nat then
    Math_round (sumZ inject_Z confidences / len confidences)
  else 50%Z.

(** Lines 468-471; [averageConfidence] is the rounded value above. *)
Definition varianceOf (confidences : list Z) : Q :=
  let averageConfidence := averageConfidenceOf confidences in
  if (0 <? List.length confidences)%nat then
    sumZ (fun conf => inject_Z ((conf - averageConfidence) ^ 2)) confidences
      / len confidences
  else 0.

(** Line 472: [Math.round((Math.sqrt(variance) / 100) * 100) / 100].
    Dividing and multiplying by 100 cancel in exact arithmetic, which
    leaves [Math.round(Math.sqrt(variance)) / 100]. *)
Definition volatilityOf (confidences : list Z) : Q :=
  inject_Z (round_sqrt (varianceOf confidences)) / 100.

(** [history.slice(0, limit)]; a negative [limit] counts from the end. *)
Definition sliceTo {A} (limit : Z) (xs : list A) : list A :=
  if (limit <? 0)%Z then
    firstn (Z.to_nat (Z.max (Z.of_nat (List.length xs) + limit) 0)) xs
  else firstn (Z.to_nat limit) xs.

(** The comparator of line 424.  [trades.sort] sorts the caller's array
    in place and returns it; the analysis only reads the sorted
    array. *)
Definition byEntryTime (a b : Trade) : Z := (entryTime a - entryTime b)%Z.

Definition analyzeStateHistory (now : Timestamp) (trades : list Trade) (limit : Z)
  : Result History.t :=
  if (List.length trades =? 0)%nat then
    Ok {| History.history := [];
          History.summary :=
            {| History.totalChanges := 0;
               History.mostCommonState := NEUTRAL;
               History.averageConfidence := 50;
               History.volatility := 0 |} |}
  else
    let sortedTrades := sort byEntryTime trades in
    let r := replay now sortedTrades limit in
    let stateCounts := count_all PsyState_eqb (r_states r) in
    bind (max_key PsyState_eqb stateCounts) (fun mostCommonState =>
    let averageConfidence := averageConfidenceOf (r_confidences r) in
    let volatility := volatilityOf (r_confidences r) in
    Ok {| History.history := sliceTo limit (r_history r);
          History.summary :=
            {| History.totalChanges := r_stateChangeCount r;
               History.mostCommonState := mostCommonState;
               History.averageConfidence := averageConfidence;
               History.volatility := volatility |} |}).

(* ================================================================== *)
(** * Dashboard: [calculateRiskMetrics] *)
(* ================================================================== *)

Module Risk.
Record Metrics : Type := mk {
  averageRiskPerTrade : Q;
  maxDrawdown : Q;
  sharpeRatio : Q
}.
End Risk.

(** The locals [peak], [maxDrawdown] and [runningPnL] of lines
    148-150. *)
Record Drawdown : Type := mkDrawdown {
  peak : Q;
  maxDrawdown : Q;
  runningPnL : Q
}.

(** The body of [trades.forEach] (lines 153-160). *)
Definition drawdownStep (d : Drawdown) (trade : Trade) : Drawdown :=
  let runningPnL := runningPnL d + profitLoss trade in
  let peak := if gt runningPnL (peak d) then runningPnL else peak d in
  let drawdown := peak - runningPnL in
  let maxDrawdown :=
    if gt drawdown (maxDrawdown d) then drawdown else maxDrawdown d in
  {| peak := peak; maxDrawdown := maxDrawdown; runningPnL := runningPnL |}.

Definition drawdownLoop (trades : list Trade) : Drawdown :=
  fold_left drawdownStep trades {| peak := 0; maxDrawdown := 0; runningPnL := 0 |}.

Section RiskMetrics.

(** [Math.sqrt] enters only the Sharpe ratio; it is left abstract. *)
Variable Math_sqrt : Q -> Q.

(** Lines 164-168. *)
Definition sharpeRatioOf (trades : list Trade) : Q :=
  let returns := map profitLoss trades in
  let avgReturn := sum_by (fun r => r) returns / len returns in
  let variance :=
    sum_by (fun r => (r - avgReturn) ^ 2) returns / len returns in
  let stdDev := Math_sqrt variance in
  if gt stdDev 0 then avgReturn / stdDev else 0.

Definition calculateRiskMetrics (trades : list Trade) : Risk.Metrics :=
  if (List.length trades =? 0)%nat then
    {| Risk.averageRiskPerTrade := 0; Risk.maxDrawdown := 0;
       Risk.sharpeRatio := 0 |}
  else
    let averageRiskPerTrade := sum_by riskPercentUsed trades / len trades in
    let d := drawdownLoop trades in
    {| Risk.averageRiskPerTrade := round2 averageRiskPerTrade;
       Risk.maxDrawdown := round2 (maxDrawdown d);
       Risk.sharpeRatio := round2 (sharpeRatioOf trades) |}.

End RiskMetrics.

(* ================================================================== *)
(** * Vocabulary of the statements *)
(* ================================================================== *)

Section Counting.
Context {K : Type} (eqb : K -> K -> bool).

(** How often [k] occurs in [xs]. *)
Fixpoint occurrences (k : K) (xs : list K) : Z :=
  match xs with
  | [] => 0
  | x :: rest => ((if eqb k x then 1 else 0) + occurrences k rest)%Z
  end.

(** One scan step of [firstSeen]. *)
Definition see (seen : list K) (x : K) : list K :=
  if existsb (eqb x) seen then seen else seen ++ [x].

(** The distinct elements of [xs] in the order each is first met. *)
Definition firstSeen (xs : list K) : list K := fold_left see xs [].

(** [k] is the last key of [keys] whose count is the highest: no key
    counts more, and every key after [k] counts strictly less. *)
Definition lastMax (count : K -> Z) (keys : list K) (k : K) : Prop :=
  exists before after,
    keys = before ++ k :: after /\
    (forall k', In k' before -> (count k' <= count k)%Z) /\
    (forall k', In k' after -> (count k' < count k)%Z).

(** Following the specification's words: the element with the highest
    count, the first one met winning a tie. *)
Definition firstMax (xs : list K) : Result K :=
  reduce1
    (fun a b => if (occurrences a xs <? occurrences b xs)%Z then b else a)
    (firstSeen xs).

End Counting.

(** Following the specification's words: the population variance of
    the values, around their exact arithmetic mean and dividing by the
    number of values. *)
Definition populationVariance (values : list Z) : Q :=
  let mean := sumZ inject_Z values / len values in
  sumZ (fun v => (inject_Z v - mean) ^ 2) values / len values.

(** Following the specification's words:
    [round(stdDev(confidences) / 100, 2)], the two-decimal rounding
    being [Math.round(x * 100) / 100] as everywhere in the source. *)
Definition volatilitySpec (confidences : list Z) : Q :=
  inject_Z (round_sqrt (populationVariance confidences)) / 100.

(** ** Invariants of the cascades and of the replay loop *)

(** The ranges the cascade keeps the three scores in. *)
Definition bounded (v : Verdict) : Prop :=
  (20 <= v_confidence v /\ v_confidence v <= 95) /\
  (10 <= v_riskTolerance v /\ v_riskTolerance v <= 90) /\
  (30 <= v_emotionalBalance v /\ v_emotionalBalance v <= 50).

(** The discipline, target and default rules leave [state] and
    [riskTolerance] alone and only append recommendations. *)
Definition extends (v v' : Verdict) : Prop :=
  v_state v' = v_state v /\
  v_confidence v' = v_confidence v /\
  v_riskTolerance v' = v_riskTolerance v /\
  forall s, In s (v_recommendations v) -> In s (v_recommendations v').

(** [a] enters no later than [b]. *)
Definition chronological (a b : Trade) : Prop := (entryTime a <= entryTime b)%Z.

(** The history entry line 437 builds for [trade] classified as [st]. *)
Definition entryOf (trade : Trade) (st : PsychologicalStateResult) : History.Entry :=
  {| History.timestamp := entryTime trade;
     History.state := state st;
     History.confidence := confidence st;
     History.trigger := getStateTrigger trade;
     History.context :=
       {| History.tradeId := _id trade;
          History.profitLoss := profitLoss trade;
          History.riskPercentUsed := riskPercentUsed trade |} |}.

(** What every state of the loop satisfies: the three arrays grow
    together, the counter counts the entries, and the entries never
    outnumber a positive [limit]. *)
Record consistent (limit : Z) (r : Replay) : Prop := mkConsistent {
  c_states : r_states r = map History.state (r_history r);
  c_confidences : r_confidences r = map History.confidence (r_history r);
  c_count : r_stateChangeCount r = Z.of_nat (List.length (r_history r));
  c_limit : (Z.of_nat (List.length (r_history r)) <= Z.max 0 limit)%Z
}.

(** ** Drawdown, step by step

    Following the specification's words.  [pnl] is the sequence of
    profits and losses in the order given; step 0 is the state before
    the first trade. *)

(** The running total after [k] trades. *)
Definition runningTotal (pnl : list Q) (k : nat) : Q :=
  sum_by (fun x => x) (firstn k pnl).

(** The running peak after [k] trades: the highest running total seen
    so far, the total 0 before the first trade included. *)
Fixpoint peakAt (pnl : list Q) (k : nat) : Q :=
  match k with
  | O => 0
  | S k' => Math_max (runningTotal pnl k) (peakAt pnl k')
  end.

(** The drawdown at step [k]: peak minus running total. *)
Definition drawdownAt (pnl : list Q) (k : nat) : Q :=
  peakAt pnl k - runningTotal pnl k.

(** The highest drawdown observed up to step [k]. *)
Fixpoint maxDrawdownAt (pnl : list Q) (k : nat) : Q :=
  match k with
  | O => 0
  | S k' => Math_max (drawdownAt pnl k) (maxDrawdownAt pnl k')
  end.

(** The lowest running total of the steps 1 to [k]. *)
Fixpoint minRunningTotal (pnl : list Q) (k : nat) : Q :=
  match k with
  | O => 0
  | S O => runningTotal pnl 1
  | S k' => Math_min (runningTotal pnl k) (minRunningTotal pnl k')
  end.

(** ** Concrete inputs *)

(** A win followed by a loss, in two sessions. *)
Definition tiedTrades : list Trade :=
  [trade 1 10 100 2 LONDON; trade 2 20 (-50) 2 NY].

(** The profits and losses 100, -150, 50 in that order; the entry
    times run backwards, as in the order the store hands trades over. *)
Definition dipTrades : list Trade :=
  [trade 1 30 100 2 NY; trade 2 20 (-150) 2 NY; trade 3 10 50 2 NY].

(** Four trades whose given order is not the order of their entry
    times. *)
Definition zigzagTrades : list Trade :=
  [trade 1 30 100 2 NY; trade 2 40 (-50) 2 NY; trade 3 20 (-50) 2 NY;
   trade 4 10 100 2 NY].

(** One trade losing a tenth of a cent. *)
Definition tinyLoss : list Trade := [trade 1 10 (-0.001) 2 NY].

(** Seven trades whose replay records the confidences
    [20, 50, 50, 50, 50, 50, 50]. *)
Definition swingTrades : list Trade :=
  [trade 1 10 (-10) 2 NY; trade 2 20 10 5 NY; trade 3 30 10 0.5 NY;
   trade 4 40 (-10) 5 NY; trade 5 50 10 0.5 NY; trade 6 60 (-10) 5 NY;
   trade 7 70 10 0.5 NY].

(* ================================================================== *)
(** * Store queries of the analysis service *)
(* ================================================================== *)

(** [.sort({ entryTime: -1 })] *)
Definition newestFirst (a b : Trade) : Z := (entryTime b - entryTime a)%Z.

(** [.limit(n)] of a query: 0 asks for no limit, a negative [n] counts
    as [-n]. *)
Definition limitTo {A} (n : Z) (xs : list A) : list A :=
  if (n =? 0)%Z then xs else firstn (Z.abs_nat n) xs.

(** [Trade.find({ userId }).sort({ entryTime: -1 }).limit(10)] and the
    classifier on what it finds. *)
Definition getCurrentState (now : Timestamp) (store : list Trade) (user : Z)
  : PsychologicalStateResult :=
  let recentTrades :=
    limitTo 10 (sort newestFirst (filter (fun t => (userId t =? user)%Z) store)) in
  analyzePsychologicalState now recentTrades.

(** [session = 'LONDON'] is the default of the parameter; the query
    matches the stored session against [session.toUpperCase()]. *)
Definition sessionQuery (user : Z) (name : string) (t : Trade) : bool :=
  (userId t =? user)%Z && String.eqb (Session_name (session t)) name.

Definition getSessionForecast (store : list Trade) (user : Z)
  (session : option string) : Forecast.t :=
  let session := match session with Some s => s | None => "LONDON"%string end in
  let sessionTrades :=
    limitTo 20
      (sort newestFirst (filter (sessionQuery user (toUpperCase session)) store)) in
  analyzeSessionForecast sessionTrades session.

Module HistoryFilter.
Record t : Type := mk {
  startDate : option Timestamp;
  endDate : option Timestamp;
  limit : option Z
}.
End HistoryFilter.

(** The query of lines 573-581: [userId] and, for each bound given,
    [$gte] or [$lte] on [entryTime]. *)
Definition historyQuery (user : Z) (filter : HistoryFilter.t) (t : Trade) : bool :=
  (userId t =? user)%Z
  && match HistoryFilter.startDate filter with
     | Some startDate => (startDate <=? entryTime t)%Z
     | None => true
     end
  && match HistoryFilter.endDate filter with
     | Some endDate => (entryTime t <=? endDate)%Z
     | None => true
     end.

Definition getStateHistory (now : Timestamp) (store : list Trade) (user : Z)
  (filter : HistoryFilter.t) : Result History.t :=
  let limit := match HistoryFilter.limit filter with Some l => l | None => 50%Z end in
  let trades :=
    limitTo (limit * 2)
      (sort newestFirst (List.filter (historyQuery user filter) store)) in
  bind (analyzeStateHistory now trades limit) (fun history =>
  Ok history).

(* ================================================================== *)
(** * Dashboard: summary, sessions, trends and alerts *)
(* ================================================================== *)

(** The functions of the dashboard service next to
    [calculateRiskMetrics].  [calculateDailyPnL] keys its table by the
    calendar day of an ISO date string and is left out, and with it
    [getCompleteDashboard]. *)

Module Summary.
Record t : Type := mk {
  totalTrades : Z;
  winningTrades : Z;
  losingTrades : Z;
  winRate : Q;
  totalProfitLoss : Q;
  averageRiskReward : Q;
  bestTrade : Q;
  worstTrade : Q
}.
End Summary.

(** [xs.length] as an integer. *)
Definition count {A} (xs : list A) : Z := Z.of_nat (List.length xs).

(** [Math.max(...xs)] and [Math.min(...xs)] of an array that starts
    with [x]. *)
Definition Math_max_of (x : Q) (rest : list Q) : Q := fold_left Math_max rest x.
Definition Math_min_of (x : Q) (rest : list Q) : Q := fold_left Math_min rest x.

Definition calculateSummaryStats (trades : list Trade) : Summary.t :=
  match map profitLoss trades with
  | [] =>
      {| Summary.totalTrades := 0; Summary.winningTrades := 0;
         Summary.losingTrades := 0; Summary.winRate := 0;
         Summary.totalProfitLoss := 0; Summary.averageRiskReward := 0;
         Summary.bestTrade := 0; Summary.worstTrade := 0 |}
  | first :: rest =>
      let totalTrades := count trades in
      let winningTrades := count (filter (fun t => gt (profitLoss t) 0) trades) in
      let losingTrades := count (filter (fun t => lt (profitLoss t) 0) trades) in
      let winRate :=
        if gt (inject_Z totalTrades) 0
        then (inject_Z winningTrades / inject_Z totalTrades) * 100 else 0 in
      let totalProfitLoss := sum_by profitLoss trades in
      let averageRiskReward := sum_by riskRewardAchieved trades / inject_Z totalTrades in
      let bestTrade := Math_max_of first rest in
      let worstTrade := Math_min_of first rest in
      {| Summary.totalTrades := totalTrades;
         Summary.winningTrades := winningTrades;
         Summary.losingTrades := losingTrades;
         Summary.winRate := round2 winRate;
         Summary.totalProfitLoss := round2 totalProfitLoss;
         Summary.averageRiskReward := round2 averageRiskReward;
         Summary.bestTrade := round2 bestTrade;
         Summary.worstTrade := round2 worstTrade |}
  end.

(** ** Objects keyed by a name, holding any value *)
Section Table.
Context {K V : Type} (eqb : K -> K -> bool).

Fixpoint lookup (o : list (K * V)) (k : K) : option V :=
  match o with
  | [] => None
  | (k', v) :: rest => if eqb k k' then Some v else lookup rest k
  end.

Fixpoint assign (o : list (K * V)) (k : K) (v : V) : list (K * V) :=
  match o with
  | [] => [(k, v)]
  | (k', v') :: rest =>
      if eqb k k' then (k', v) :: rest else (k', v') :: assign rest k v
  end.

End Table.

Record SessionStats : Type := mkStats {
  st_trades : Z;
  st_profitLoss : Q;
  st_winningTrades : Z
}.

Module SessionRow.
Record t : Type := mk {
  session : Session;
  trades : Z;
  profitLoss : Q;
  winRate : Q
}.
End SessionRow.

(** One pass of the [forEach] of lines 107-121.  Reading a field of a
    missing cell would throw. *)
Definition tallySession (sessionStats : list (Session * SessionStats))
  (trade : Trade) : Result (list (Session * SessionStats)) :=
  let session := session trade in
  let sessionStats :=
    match lookup Session_eqb sessionStats session with
    | None => assign Session_eqb sessionStats session (mkStats 0 0 0)
    | Some _ => sessionStats
    end in
  match lookup Session_eqb sessionStats session with
  | None => Throw (TypeError "Cannot read properties of undefined")
  | Some stats =>
      Ok (assign Session_eqb sessionStats session
            {| st_trades := st_trades stats + 1;
               st_profitLoss := st_profitLoss stats + profitLoss trade;
               st_winningTrades :=
                 if gt (profitLoss trade) 0 then (st_winningTrades stats + 1)%Z
                 else st_winningTrades stats |})
  end.

Definition sessionRowOf (entry : Session * SessionStats) : SessionRow.t :=
  let (session, stats) := entry in
  {| SessionRow.session := session;
     SessionRow.trades := st_trades stats;
     SessionRow.profitLoss := round2 (st_profitLoss stats);
     SessionRow.winRate :=
       round2 (inject_Z (st_winningTrades stats) / inject_Z (st_trades stats)
               * 100) |}.

Definition calculateSessionPerformance (trades : list Trade)
  : Result (list SessionRow.t) :=
  bind (fold_left (fun acc trade => bind acc (fun o => tallySession o trade))
          trades (Ok []))
       (fun sessionStats => Ok (map sessionRowOf sessionStats)).

Module Trend.
Inductive t : Type := UP | DOWN | STABLE.
End Trend.

Record Trends : Type := mkTrends {
  pnlTrend : Trend.t;
  winRateTrend : Trend.t;
  riskTrend : Trend.t
}.

(** The [if / else if] that compares the two halves. *)
Definition trendOf (firstHalf secondHalf : Q) : Trend.t :=
  if gt secondHalf firstHalf then Trend.UP
  else if lt secondHalf firstHalf then Trend.DOWN
  else Trend.STABLE.

Definition calculateTrends (trades : list Trade) : Trends :=
  if (List.length trades <? 2)%nat then
    {| pnlTrend := Trend.STABLE; winRateTrend := Trend.STABLE;
       riskTrend := Trend.STABLE |}
  else
    let midPoint := (List.length trades / 2)%nat in
    let firstHalf := slice 0 midPoint trades in
    let secondHalf := skipn midPoint trades in
    let firstHalfPnL := sum_by profitLoss firstHalf in
    let secondHalfPnL := sum_by profitLoss secondHalf in
    let firstHalfWinRate := winningTrades firstHalf / len firstHalf in
    let secondHalfWinRate := winningTrades secondHalf / len secondHalf in
    let firstHalfRisk := avg riskPercentUsed firstHalf in
    let secondHalfRisk := avg riskPercentUsed secondHalf in
    {| pnlTrend := trendOf firstHalfPnL secondHalfPnL;
       winRateTrend := trendOf firstHalfWinRate secondHalfWinRate;
       riskTrend := trendOf firstHalfRisk secondHalfRisk |}.

Module Alert.
Inductive Kind : Type := SUCCESS | WARNING | INFO.
Inductive Priority : Type := HIGH | MEDIUM | LOW.
Record t : Type := mk {
  type : Kind;
  message : string;
  priority : Priority
}.
End Alert.

(** [xs.slice(-n)]: the last [n] elements, all of them when there are
    fewer. *)
Definition lastN {A} (n : nat) (xs : list A) : list A :=
  skipn (List.length xs - n) xs.

(** Lines 254-266. *)
Definition winRateAlert (winRate : Q) (alerts : list Alert.t) : list Alert.t :=
  if ge winRate 0.7 then
    alerts ++ [Alert.mk Alert.SUCCESS "Excellent win rate achieved" Alert.MEDIUM]
  else if le winRate 0.3 then
    alerts ++ [Alert.mk Alert.WARNING "Low win rate - review trading strategy"
                 Alert.HIGH]
  else alerts.

(** Lines 269-281. *)
Definition riskAlert (avgRisk : Q) (alerts : list Alert.t) : list Alert.t :=
  if gt avgRisk 3 then
    alerts ++ [Alert.mk Alert.WARNING "Risk per trade above recommended level"
                 Alert.HIGH]
  else if lt avgRisk 1 then
    alerts ++ [Alert.mk Alert.INFO "Consider increasing position sizes gradually"
                 Alert.LOW]
  else alerts.

(** Lines 299-311. *)
Definition stateAlert (state : PsyState) (alerts : list Alert.t) : list Alert.t :=
  match state with
  | GREEDY =>
      alerts ++ [Alert.mk Alert.WARNING
                   "High risk tolerance detected - reduce position sizes" Alert.HIGH]
  | FEARFUL =>
      alerts ++ [Alert.mk Alert.INFO
                   "Low confidence detected - consider taking a break" Alert.MEDIUM]
  | _ => alerts
  end.

Module Dashboard.
Record QuickStats : Type := mkQuick {
  totalTrades : Z;
  winRate : Q;
  totalPnL : Q;
  avgRiskReward : Q;
  currentState : PsyState;
  confidence : Z
}.
Record t : Type := mk {
  period : string;
  quickStats : QuickStats;
  trends : Trends;
  alerts : list Alert.t
}.
End Dashboard.

(** The margin of lines 284 and 290 is added and subtracted in double
    precision, where [0.8 - 0.2] is [0.6000000000000001] and the
    comparison with a win rate of [0.6] depends on it: the sum and the
    difference are parameters, [fadd] for [winRate + 0.2] and [fsub]
    for [winRate - 0.2]. *)
Section Alerts.
Variable fadd fsub : Q -> Q -> Q.

(** Lines 284-296. *)
Definition recentAlert (recentWinRate winRate : Q) (alerts : list Alert.t)
  : list Alert.t :=
  if gt recentWinRate (fadd winRate 0.2) then
    alerts ++ [Alert.mk Alert.SUCCESS "Recent performance showing improvement"
                 Alert.MEDIUM]
  else if lt recentWinRate (fsub winRate 0.2) then
    alerts ++ [Alert.mk Alert.WARNING "Recent performance declining" Alert.HIGH]
  else alerts.

Definition generateAlerts (trades : list Trade)
  (psychologicalState : PsychologicalStateResult) : list Alert.t :=
  if (List.length trades =? 0)%nat then []
  else
    let winRate := winningTrades trades / len trades in
    let avgRisk := avg riskPercentUsed trades in
    let recentTrades := lastN 5 trades in
    let recentWinRate := winningTrades recentTrades / len recentTrades in
    stateAlert (state psychologicalState)
      (recentAlert recentWinRate winRate
         (riskAlert avgRisk (winRateAlert winRate []))).

(** [dateRange] is what [getDateRange] computes from the clock for the
    period. *)
Definition getDashboardSummary (now : Timestamp) (store : list Trade)
  (dateRange : DateRange) (user : Z) (period : string) : Dashboard.t :=
  let trades := findInPeriod store user dateRange in
  let psychologicalState := getCurrentState now store user in
  let summaryStats := calculateSummaryStats trades in
  let quickStats :=
    {| Dashboard.totalTrades := Summary.totalTrades summaryStats;
       Dashboard.winRate := Summary.winRate summaryStats;
       Dashboard.totalPnL := Summary.totalProfitLoss summaryStats;
       Dashboard.avgRiskReward := Summary.averageRiskReward summaryStats;
       Dashboard.currentState := state psychologicalState;
       Dashboard.confidence := confidence psychologicalState |} in
  let trends := calculateTrends trades in
  let alerts := generateAlerts trades psychologicalState in
  {| Dashboard.period := period;
     Dashboard.quickStats := quickStats;
     Dashboard.trends := trends;
     Dashboard.alerts := alerts |}.

End Alerts.

(** The trades of session [s], in the order given. *)
Definition ofSession (s : Session) (trades : list Trade) : list Trade :=
  filter (fun t => Session_eqb (session t) s) trades.

(** The cell the loop holds for a session whose trades are [own]. *)
Definition sessionStatsOf (own : list Trade) : SessionStats :=
  {| st_trades := count own;
     st_profitLoss := sum_by profitLoss own;
     st_winningTrades := count (filter (fun t => gt (profitLoss t) 0) own) |}.

(** The trend read in the other direction. *)
Definition flipTrend (t : Trend.t) : Trend.t :=
  match t with
  | Trend.UP => Trend.DOWN
  | Trend.DOWN => Trend.UP
  | Trend.STABLE => Trend.STABLE
  end.

(* ================================================================== *)
(** * Vocabulary of the further properties *)
(* ================================================================== *)

(** Every character of [s] is an ASCII character. *)
Fixpoint isAscii (s : string) : bool :=
  match s with
  | EmptyString => true
  | String c rest => (nat_of_ascii c <? 128)%nat && isAscii rest
  end.

(** [[s]] when [b] holds, nothing otherwise: a [push] under an [if]. *)
Definition opt (b : bool) (s : string) : list string := if b then [s] else [].

(** Sum of the weights of the factors. *)
Definition totalWeight (factors : list Forecast.Factor) : Q :=
  sum_by Forecast.weight factors.

(** An insight of type WEAKNESS. *)
Definition isWeakness (i : Insight.t) : bool :=
  match Insight.type i with Insight.WEAKNESS => true | _ => false end.

(** What the cascade of insight rules keeps true of its three arrays:
    at most [ni] insights and [np] patterns, confidences from 70 to
    100, frequencies from 30 to 100, correlations from -1 to 0, and one
    recommendation for each WEAKNESS insight and each pattern. *)
Record tidy (ni np : nat) (f : Findings) : Prop := mkTidy {
  t_count : (List.length (f_insights f) <= ni)%nat;
  t_patterns : (List.length (f_patterns f) <= np)%nat;
  t_confidence :
    Forall (fun i => (70 <= Insight.confidence i <= 100)%Z) (f_insights f);
  t_frequency :
    Forall (fun p => (30 <= Insight.frequency p <= 100)%Z
                     /\ -1 <= Insight.correlation p /\ Insight.correlation p <= 0)
           (f_patterns f);
  t_paired :
    List.length (f_recommendations f)
    = (List.length (filter isWeakness (f_insights f))
       + List.length (f_patterns f))%nat
}.

(** The insight of line 356 for session [s]. *)
Definition sessionNote (s : Session) : Insight.t :=
  Insight.mk Insight.OPPORTUNITY
    ("Strong performance in " ++ Session_name s ++ " session")%string
    70 Insight.MEDIUM.

(** No insight is an OPPORTUNITY yet: the rules before the session
    rule raise STRENGTH and WEAKNESS only. *)
Definition graded (f : Findings) : Prop :=
  Forall (fun i => Insight.type i <> Insight.OPPORTUNITY) (f_insights f).

(** Every two neighbours of [l] are related by [R]. *)
Fixpoint adjacent {A} (R : A -> A -> Prop) (l : list A) : Prop :=
  match l with
  | a :: (b :: _) as rest => R a b /\ adjacent R rest
  | _ => True
  end.

(** The condition of line 436 between two recorded events. *)
Definition differs (a b : History.Entry) : Prop :=
  History.state a <> History.state b \/
  (15 < Z.abs (History.confidence a - History.confidence b))%Z.

(** [lastState] is the classification behind the last entry. *)
Definition tracked (r : Replay) : Prop :=
  match r_lastState r with
  | None => r_history r = []
  | Some st =>
      exists h e, r_history r = h ++ [e] /\
                  History.state e = state st /\
                  History.confidence e = confidence st
  end.

(** An entry made from a trade of [trades]. *)
Definition fromTrade (trades : list Trade) (e : History.Entry) : Prop :=
  exists t, In t trades /\
    History.timestamp e = entryTime t /\
    History.tradeId (History.context e) = _id t /\
    History.profitLoss (History.context e) = profitLoss t /\
    History.riskPercentUsed (History.context e) = riskPercentUsed t /\
    History.trigger e = getStateTrigger t.

(** [a] is stamped no later than [b]. *)
Definition notAfter (a b : History.Entry) : Prop :=
  (History.timestamp a <= History.timestamp b)%Z.

(** At index [i] of the loop: the entries are in time order, none is
    later than a trade still to come, and each stems from a trade. *)
Record ordered (sorted : list Trade) (i : nat) (r : Replay) : Prop := mkOrdered {
  o_adjacent : adjacent notAfter (r_history r);
  o_before :
    Forall (fun e => forall j t, (i <= j)%nat -> nth_error sorted j = Some t ->
                                 (History.timestamp e <= entryTime t)%Z)
           (r_history r);
  o_from : Forall (fromTrade sorted) (r_history r)
}.

(** The range of a confidence the classifier returns. *)
Definition inRange (c : Z) : Prop := (20 <= c <= 95)%Z.

(* ================================================================== *)
(** * Basic facts about the primitives *)
(* ================================================================== *)

Lemma le_true (x y : Q) : le x y = true <-> x <= y.
Proof. apply Qle_bool_iff. Qed.

Lemma le_false (x y : Q) : le x y = false <-> y < x.
Proof.
  unfold le. split; intro H.
  - apply Qnot_le_lt. intro L. apply Qle_bool_iff in L. congruence.
  - destruct (Qle_bool x y) eqn:E; [|reflexivity].
    apply Qle_bool_iff in E. exfalso. apply (Qlt_not_le _ _ H E).
Qed.

Lemma ge_true (x y : Q) : ge x y = true <-> y <= x.
Proof. apply le_true. Qed.

Lemma ge_false (x y : Q) : ge x y = false <-> x < y.
Proof. apply le_false. Qed.

Lemma gt_true (x y : Q) : gt x y = true <-> y < x.
Proof. unfold gt. rewrite negb_true_iff. apply le_false. Qed.

Lemma gt_false (x y : Q) : gt x y = false <-> x <= y.
Proof. unfold gt. rewrite negb_false_iff. apply le_true. Qed.

Lemma lt_true (x y : Q) : lt x y = true <-> x < y.
Proof. unfold lt. rewrite negb_true_iff. apply le_false. Qed.

Lemma lt_false (x y : Q) : lt x y = false <-> y <= x.
Proof. unfold lt. rewrite negb_false_iff. apply le_true. Qed.

(** Case analysis on every comparison of the goal, each turned into
    the order fact it decides. *)
Ltac cmp_cases :=
  repeat match goal with
  | |- context [le ?x ?y] =>
      let E := fresh "E" in
      destruct (le x y) eqn:E; [apply le_true in E | apply le_false in E]
  | |- context [ge ?x ?y] =>
      let E := fresh "E" in
      destruct (ge x y) eqn:E; [apply ge_true in E | apply ge_false in E]
  | |- context [gt ?x ?y] =>
      let E := fresh "E" in
      destruct (gt x y) eqn:E; [apply gt_true in E | apply gt_false in E]
  | |- context [lt ?x ?y] =>
      let E := fresh "E" in
      destruct (lt x y) eqn:E; [apply lt_true in E | apply lt_false in E]
  end.

Lemma Math_min_cases (x y : Q) :
  (x <= y /\ Math_min x y = x) \/ (y < x /\ Math_min x y = y).
Proof. unfold Math_min. cmp_cases; auto. Qed.

Lemma Math_max_cases (x y : Q) :
  (x <= y /\ Math_max x y = y) \/ (y < x /\ Math_max x y = x).
Proof. unfold Math_max. cmp_cases; auto. Qed.

(** Case analysis on every [Math.min] and [Math.max] of the goal. *)
Ltac minmax_cases :=
  repeat match goal with
  | |- context [Math_min ?a ?b] =>
      let H := fresh "H" in
      let E := fresh "E" in
      destruct (Math_min_cases a b) as [[H E]|[H E]]; rewrite E in *
  | |- context [Math_max ?a ?b] =>
      let H := fresh "H" in
      let E := fresh "E" in
      destruct (Math_max_cases a b) as [[H E]|[H E]]; rewrite E in *
  end.

(** A number between two integers rounds between them. *)
Lemma Math_round_between (a b : Z) (x : Q) :
  inject_Z a <= x -> x <= inject_Z b -> (a <= Math_round x <= b)%Z.
Proof.
  intros Ha Hb. unfold Math_round. split.
  - rewrite <- (Qfloor_Z a). apply Qfloor_resp_le. lra.
  - assert (H : inject_Z (Qfloor (x + (1 # 2))) < inject_Z (b + 1)).
    { apply Qle_lt_trans with (x + (1 # 2)); [apply Qfloor_le|].
      rewrite inject_Z_plus. change (inject_Z 1) with 1. lra. }
    rewrite <- Zlt_Qlt in H. lia.
Qed.

Lemma Math_round_integer (a : Z) (x : Q) : x == inject_Z a -> Math_round x = a.
Proof.
  intro H.
  assert (a <= Math_round x <= a)%Z
    by (apply Math_round_between; rewrite H; apply Qle_refl).
  lia.
Qed.

Lemma len_nonneg {A} (xs : list A) : 0 <= len xs.
Proof.
  unfold len. change 0 with (inject_Z 0). rewrite <- Zle_Qle. lia.
Qed.

Lemma len_pos {A} (xs : list A) : xs <> [] -> 0 < len xs.
Proof.
  intro H. unfold len. change 0 with (inject_Z 0). rewrite <- Zlt_Qlt.
  destruct xs; [congruence | simpl; lia].
Qed.

Lemma len_filter_le {A} (f : A -> bool) (xs : list A) :
  len (filter f xs) <= len xs.
Proof.
  unfold len. rewrite <- Zle_Qle. apply inj_le.
  induction xs as [|x xs IH]; simpl; [lia|].
  destruct (f x); simpl; lia.
Qed.

Lemma length_eqb_nonempty {A} (xs : list A) :
  xs <> [] -> (List.length xs =? 0)%nat = false.
Proof. destruct xs; [congruence | reflexivity]. Qed.

(** ** The win rate is a percentage *)

Lemma winRatePct_range (trades : list Trade) :
  trades <> [] -> 0 <= winRatePct trades <= 100.
Proof.
  intro H. unfold winRatePct, winningTrades.
  pose proof (len_pos trades H) as Hn.
  pose proof (len_filter_le (fun t => gt (profitLoss t) 0) trades) as Hw.
  pose proof (len_nonneg (filter (fun t => gt (profitLoss t) 0) trades)) as Hw0.
  set (w := len (filter _ trades)) in *. set (n := len trades) in *.
  assert (H0 : 0 <= w / n) by (apply Qle_shift_div_l; lra).
  assert (H1 : w / n <= 1) by (apply Qle_shift_div_r; lra).
  set (q := w / n) in *. lra.
Qed.

Lemma winRate_nonempty (trades : list Trade) :
  trades <> [] -> winRate trades = winRatePct trades.
Proof.
  intro H. unfold winRate, winRatePct.
  pose proof (len_pos trades H) as Hn. apply gt_true in Hn. now rewrite Hn.
Qed.

Lemma winRate_range (trades : list Trade) : 0 <= winRate trades <= 100.
Proof.
  destruct trades as [|t ts].
  - unfold winRate. cbn. lra.
  - rewrite winRate_nonempty by congruence. apply winRatePct_range. congruence.
Qed.

(* ================================================================== *)
(** * State classifier: rule cascade *)
(* ================================================================== *)

Ltac rule_cases :=
  unfold bounded, winRateRule, riskRule, earlyExitRule, stopLossRule,
    targetRule, defaultRule, lowerBalance, push, Math_min, Math_max, baseline;
  cmp_cases;
  cbn [v_state v_confidence v_riskTolerance v_emotionalBalance v_recommendations].

Lemma winRateRule_baseline (w : Q) :
  0 <= w -> w <= 100 ->
  let v := winRateRule w baseline in
  (20 <= v_confidence v /\ v_confidence v <= 95) /\
  (20 <= v_riskTolerance v /\ v_riskTolerance v <= 80) /\
  v_emotionalBalance v = 50.
Proof. intros H0 H1. rule_cases; repeat split; lra. Qed.

Lemma riskRule_bounded (r : Q) (v : Verdict) :
  (20 <= v_confidence v /\ v_confidence v <= 95) /\
  (20 <= v_riskTolerance v /\ v_riskTolerance v <= 80) /\
  v_emotionalBalance v = 50 ->
  bounded (riskRule r v).
Proof.
  intros [Hc [Hr He]]. rule_cases; rewrite ?He; repeat split; lra.
Qed.

Lemma earlyExitRule_bounded (trades : list Trade) (v : Verdict) :
  bounded v -> bounded (earlyExitRule trades v).
Proof. intros [Hc [Hr He]]. rule_cases; repeat split; lra. Qed.

Lemma stopLossRule_bounded (trades : list Trade) (v : Verdict) :
  bounded v -> bounded (stopLossRule trades v).
Proof. intros [Hc [Hr He]]. rule_cases; repeat split; lra. Qed.

Lemma targetRule_bounded (a : Q) (v : Verdict) :
  bounded v -> bounded (targetRule a v).
Proof. intros [Hc [Hr He]]. rule_cases; repeat split; lra. Qed.

Lemma defaultRule_bounded (v : Verdict) : bounded v -> bounded (defaultRule v).
Proof.
  intros [Hc [Hr He]]. rule_cases.
  destruct (List.length (v_recommendations v) =? 0)%nat; cbn; repeat split; lra.
Qed.

Lemma verdict_bounded (trades : list Trade) : bounded (verdict trades).
Proof.
  unfold verdict.
  apply defaultRule_bounded, targetRule_bounded, stopLossRule_bounded,
    earlyExitRule_bounded, riskRule_bounded, winRateRule_baseline;
    apply winRate_range.
Qed.

Lemma extends_refl (v : Verdict) : extends v v.
Proof. unfold extends; auto. Qed.

Lemma extends_trans (a b c : Verdict) : extends a b -> extends b c -> extends a c.
Proof.
  unfold extends. intros [S1 [C1 [R1 I1]]] [S2 [C2 [R2 I2]]].
  repeat split; try congruence. auto.
Qed.

Lemma extends_push (s : string) (v v' : Verdict) :
  v_state v' = v_state v -> v_confidence v' = v_confidence v ->
  v_riskTolerance v' = v_riskTolerance v ->
  v_recommendations v' = v_recommendations v ->
  extends v (push s v').
Proof.
  intros S C R I. unfold extends, push. cbn. repeat split; auto.
  intros x Hx. rewrite I. apply in_or_app. now left.
Qed.

Lemma earlyExitRule_extends (trades : list Trade) (v : Verdict) :
  extends v (earlyExitRule trades v).
Proof.
  unfold earlyExitRule. destruct (gt _ _);
    [now apply extends_push | apply extends_refl].
Qed.

Lemma stopLossRule_extends (trades : list Trade) (v : Verdict) :
  extends v (stopLossRule trades v).
Proof.
  unfold stopLossRule. destruct (gt _ _);
    [now apply extends_push | apply extends_refl].
Qed.

Lemma targetRule_extends (a : Q) (v : Verdict) : extends v (targetRule a v).
Proof.
  unfold targetRule. destruct (lt _ _);
    [now apply extends_push | apply extends_refl].
Qed.

Lemma defaultRule_extends (v : Verdict) : extends v (defaultRule v).
Proof.
  unfold defaultRule. destruct (_ =? _)%nat;
    [now apply extends_push | apply extends_refl].
Qed.

Lemma verdict_extends (trades : list Trade) :
  extends (riskRule (avg riskPercentUsed trades) (winRateRule (winRate trades) baseline))
    (verdict trades).
Proof.
  unfold verdict.
  eapply extends_trans; [apply earlyExitRule_extends|].
  eapply extends_trans; [apply stopLossRule_extends|].
  eapply extends_trans; [apply targetRule_extends|].
  apply defaultRule_extends.
Qed.

Lemma analyze_nonempty (now : Timestamp) (trades : list Trade) :
  trades <> [] ->
  analyzePsychologicalState now trades =
    let v := verdict trades in
    {| state := v_state v;
       confidence := Math_round (v_confidence v);
       riskTolerance := Math_round (v_riskTolerance v);
       emotionalBalance := Math_round (v_emotionalBalance v);
       lastUpdated := now;
       recommendations := v_recommendations v |}.
Proof.
  intro H. unfold analyzePsychologicalState.
  now rewrite length_eqb_nonempty.
Qed.

(* ================================================================== *)
(** * Claims about the classifier and the forecaster *)
(* ================================================================== *)

(** C1.  Rule precedence.  The risk-usage rule runs after the win-rate
    rule and overwrites the state it set.  For every trade list whose
    win rate is 100 and whose average risk used is 5, the win-rate rule
    sets CONFIDENT, yet the returned state is GREEDY, the returned
    [riskTolerance] exceeds 50 and the recommendations contain "Reduce
    risk per trade".  For every trade list whose win rate is 0 and whose
    average risk used is 0.5, the win-rate rule sets FRUSTRATED and the
    returned state is FEARFUL. *)
Theorem rule_precedence (now : Timestamp) (trades : list Trade) :
  (winRate trades == 100 -> avg riskPercentUsed trades == 5 ->
   let r := analyzePsychologicalState now trades in
   v_state (winRateRule (winRate trades) baseline) = CONFIDENT /\
   state r = GREEDY /\
   (50 < riskTolerance r)%Z /\
   In "Reduce risk per trade"%string (recommendations r))
  /\
  (winRate trades == 0 -> avg riskPercentUsed trades == 0.5 ->
   let r := analyzePsychologicalState now trades in
   v_state (winRateRule (winRate trades) baseline) = FRUSTRATED /\
   state r = FEARFUL).
Proof.
  split; intros Hw Hr.
  - assert (Hne : trades <> []).
    { intros ->. vm_compute in Hw. discriminate. }
    rewrite (analyze_nonempty now trades Hne). cbn zeta.
    cbn [state riskTolerance recommendations].
    destruct (verdict_extends trades) as [Hs [_ [Ht Hi]]].
    rewrite Hs, Ht.
    assert (W : ge (winRate trades) 70 = true) by (apply ge_true; lra).
    assert (G : gt (avg riskPercentUsed trades) 3 = true) by (apply gt_true; lra).
    repeat split.
    + unfold winRateRule. now rewrite W.
    + unfold riskRule. now rewrite G.
    + unfold riskRule, winRateRule. rewrite G, W.
      cbn [push v_riskTolerance].
      rewrite (Math_round_integer 90); [lia|].
      unfold inject_Z. minmax_cases; lra.
    + apply Hi. unfold riskRule. rewrite G. cbn [push v_recommendations].
      apply in_or_app. right. now left.
  - assert (Hne : trades <> []).
    { intros ->. vm_compute in Hr. discriminate. }
    rewrite (analyze_nonempty now trades Hne). cbn zeta. cbn [state].
    destruct (verdict_extends trades) as [Hs _]. rewrite Hs.
    assert (W : ge (winRate trades) 70 = false) by (apply ge_false; lra).
    assert (W' : le (winRate trades) 30 = true) by (apply le_true; lra).
    assert (G : gt (avg riskPercentUsed trades) 3 = false) by (apply gt_false; lra).
    assert (G' : lt (avg riskPercentUsed trades) 1 = true) by (apply lt_true; lra).
    split.
    + unfold winRateRule. now rewrite W, W'.
    + unfold riskRule. now rewrite G, G'.
Qed.

Lemma rule_precedence_witness :
  let winners := [trade 1 10 100 5 NY; trade 2 20 50 5 LONDON] in
  let losers := [trade 1 10 (-100) 0.5 NY; trade 2 20 (-50) 0.5 ASIA] in
  (winRate winners == 100 /\ avg riskPercentUsed winners == 5 /\
   state (analyzePsychologicalState 0 winners) = GREEDY) /\
  (winRate losers == 0 /\ avg riskPercentUsed losers == 0.5 /\
   state (analyzePsychologicalState 0 losers) = FEARFUL).
Proof.
  intros winners losers.
  assert (W1 : winRate winners == 100) by (vm_compute; reflexivity).
  assert (R1 : avg riskPercentUsed winners == 5) by (vm_compute; reflexivity).
  assert (W2 : winRate losers == 0) by (vm_compute; reflexivity).
  assert (R2 : avg riskPercentUsed losers == 0.5) by (vm_compute; reflexivity).
  split.
  - destruct (proj1 (rule_precedence 0 winners) W1 R1) as (_ & H & _). auto.
  - destruct (proj2 (rule_precedence 0 losers) W2 R2) as (_ & H). auto.
Defined.

(** C4.  Bounds.  For every trade list the classifier's [confidence],
    [riskTolerance] and [emotionalBalance] are integers between 0 and
    100, and for every trade list and session the forecaster's
    [probability] is between 0 and 100. *)
Theorem scores_within_bounds (now : Timestamp) (trades : list Trade)
  (session : string) :
  let r := analyzePsychologicalState now trades in
  (0 <= confidence r <= 100)%Z /\
  (0 <= riskTolerance r <= 100)%Z /\
  (0 <= emotionalBalance r <= 100)%Z /\
  (0 <= Forecast.probability (analyzeSessionForecast trades session) <= 100)%Z.
Proof.
  cbn zeta. split; [|split; [|split]].
  4: { unfold analyzeSessionForecast.
       destruct (List.length trades =? 0)%nat; cbn [Forecast.probability];
         unfold clamp; lia. }
  all: destruct trades as [|t ts]; [cbn; lia|].
  all: rewrite analyze_nonempty by congruence; cbn zeta;
    cbn [confidence riskTolerance emotionalBalance].
  all: destruct (verdict_bounded (t :: ts)) as [[Hc0 Hc1] [[Hr0 Hr1] [He0 He1]]].
  all: apply Math_round_between; unfold inject_Z; lra.
Qed.

(** C8.  For every non-empty trade list and any session, the
    probability before the final clamp is 50 plus a win-rate
    adjustment of +20, 0 or -20, a profit adjustment of +15 or -15 and
    a risk adjustment of +10 or -10; it lies between 5 and 95, and the
    clamp returns it unchanged. *)
Theorem probability_never_clamped (trades : list Trade) (session : string) :
  trades <> [] ->
  let raw := t_probability (tally trades) in
  (exists a b c : Z,
     raw = (50 + a + b + c)%Z /\
     In a [20; 0; -20]%Z /\ In b [15; -15]%Z /\ In c [10; -10]%Z) /\
  (5 <= raw <= 95)%Z /\
  Forecast.probability (analyzeSessionForecast trades session) = raw.
Proof.
  intro Hne. cbn zeta.
  assert (Hex : exists a b c : Z,
     t_probability (tally trades) = (50 + a + b + c)%Z /\
     In a [20; 0; -20]%Z /\ In b [15; -15]%Z /\ In c [10; -10]%Z).
  { unfold tally, riskFactor, profitFactor, winRateFactor, addFactor.
    cmp_cases; cbn [t_probability];
      solve [ ((exists 20%Z) + (exists 0%Z) + (exists (-20)%Z));
              ((exists 15%Z) + (exists (-15)%Z));
              ((exists 10%Z) + (exists (-10)%Z));
              split; [reflexivity | cbn [In]; auto 10] ]. }
  split; [exact Hex|].
  destruct Hex as (a & b & c & Hraw & Ha & Hb & Hc).
  assert (Hrange : (5 <= t_probability (tally trades) <= 95)%Z).
  { rewrite Hraw. cbn in Ha, Hb, Hc. intuition lia. }
  split; [exact Hrange|].
  unfold analyzeSessionForecast. rewrite length_eqb_nonempty by exact Hne.
  cbn [Forecast.probability]. unfold clamp. lia.
Qed.

Lemma probability_never_clamped_witness :
  let trades := [trade 1 10 100 2 NY; trade 2 20 (-50) 2 NY] in
  trades <> [] /\
  Forecast.probability (analyzeSessionForecast trades "ny") =
    t_probability (tally trades).
Proof.
  intro trades.
  assert (H : trades <> []) by (unfold trades; discriminate).
  split; [exact H|].
  exact (proj2 (proj2 (probability_never_clamped trades "ny" H))).
Defined.

(* ================================================================== *)
(** * Counter tables *)
(* ================================================================== *)

Section CounterFacts.
Context {K : Type} (eqb : K -> K -> bool).
Hypothesis eqb_spec : forall a b, eqb a b = true <-> a = b.

Lemma eqb_refl (a : K) : eqb a a = true.
Proof. now apply eqb_spec. Qed.

Lemma eqb_neq (a b : K) : eqb a b = false <-> a <> b.
Proof.
  split.
  - intros H E. apply eqb_spec in E. congruence.
  - intro H. destruct (eqb a b) eqn:E; [|reflexivity].
    apply eqb_spec in E. contradiction.
Qed.

Lemma or0_Some (n : Z) : or0 (Some n) = n.
Proof. unfold or0. destruct (n =? 0)%Z eqn:E; [lia | reflexivity]. Qed.

Lemma get_set (o : Object) (k k' : K) (v : Z) :
  get eqb (set eqb o k v) k' = if eqb k' k then Some v else get eqb o k'.
Proof.
  induction o as [|[k0 n] o IH]; cbn.
  - reflexivity.
  - destruct (eqb k k0) eqn:E0.
    + apply eqb_spec in E0. subst k0. cbn. now destruct (eqb k' k).
    + apply eqb_neq in E0. cbn. rewrite IH.
      destruct (eqb k' k0) eqn:E1; [|reflexivity].
      apply eqb_spec in E1. subst k0.
      destruct (eqb k' k) eqn:E2; [|reflexivity].
      apply eqb_spec in E2. congruence.
Qed.

Lemma get_In (o : Object) (k : K) :
  In k (keys o) <-> exists n, get eqb o k = Some n.
Proof.
  induction o as [|[k0 n] o IH]; cbn.
  - split; [tauto | intros [n H]; discriminate].
  - destruct (eqb k k0) eqn:E.
    + apply eqb_spec in E. subst. split; eauto.
    + apply eqb_neq in E. rewrite <- IH. split; [|tauto].
      intros [H|H]; [congruence | exact H].
Qed.

Lemma existsb_keys (o : Object) (k : K) :
  existsb (eqb k) (keys o) = match get eqb o k with Some _ => true | None => false end.
Proof.
  induction o as [|[k0 n] o IH]; cbn; [reflexivity|].
  destruct (eqb k k0); [reflexivity | exact IH].
Qed.

Lemma keys_set (o : Object) (k : K) (v : Z) :
  keys (set eqb o k v) = see eqb (keys o) k.
Proof.
  unfold see. rewrite existsb_keys. unfold keys.
  induction o as [|[k0 n] o IH]; cbn; [reflexivity|].
  destruct (eqb k k0) eqn:E; cbn; [reflexivity|].
  rewrite IH. now destruct (get eqb o k).
Qed.

(** The table built from [xs] on top of [o]. *)
Lemma keys_fold (xs : list K) (o : Object) :
  keys (fold_left (fun o k => set eqb o k (or0 (get eqb o k) + 1)%Z) xs o)
  = fold_left (see eqb) xs (keys o).
Proof.
  revert o. induction xs as [|x xs IH]; intro o; cbn [fold_left]; [reflexivity|].
  now rewrite IH, keys_set.
Qed.

Lemma count_fold (xs : list K) (o : Object) (k : K) :
  or0 (get eqb (fold_left (fun o k => set eqb o k (or0 (get eqb o k) + 1)%Z) xs o) k)
  = (or0 (get eqb o k) + occurrences eqb k xs)%Z.
Proof.
  revert o. induction xs as [|x xs IH]; intro o; cbn [fold_left occurrences]; [lia|].
  rewrite IH, get_set.
  destruct (eqb k x) eqn:E.
  - apply eqb_spec in E. subst. rewrite or0_Some. lia.
  - lia.
Qed.

(** [Object.keys] of a counter table lists the counted values in the
    order each was first met, and each cell holds the number of
    occurrences. *)
Lemma keys_count_all (xs : list K) : keys (count_all eqb xs) = firstSeen eqb xs.
Proof. unfold count_all, firstSeen. now rewrite keys_fold. Qed.

Lemma get_count_all (xs : list K) (k : K) :
  or0 (get eqb (count_all eqb xs) k) = occurrences eqb k xs.
Proof. unfold count_all. now rewrite count_fold. Qed.

Lemma see_nonempty (xs seen : list K) : seen <> [] -> fold_left (see eqb) xs seen <> [].
Proof.
  revert seen. induction xs as [|x xs IH]; intros seen H; cbn; [exact H|].
  apply IH. unfold see. destruct (existsb _ _); [exact H|].
  destruct seen; discriminate.
Qed.

Lemma firstSeen_nonempty (xs : list K) : xs <> [] -> firstSeen eqb xs <> [].
Proof.
  destruct xs as [|x xs]; [congruence|]. intros _.
  unfold firstSeen. cbn. apply see_nonempty. discriminate.
Qed.

Lemma cell_gt_spec (o : Object) (a b : K) :
  In a (keys o) -> In b (keys o) ->
  cell_gt eqb o a b = (or0 (get eqb o b) <? or0 (get eqb o a))%Z.
Proof.
  intros Ha Hb. apply get_In in Ha. apply get_In in Hb.
  destruct Ha as [x Hx], Hb as [y Hy]. unfold cell_gt.
  now rewrite Hx, Hy, !or0_Some.
Qed.

(** The reduction keeps the last key among those with the highest
    count. *)
Lemma reduce_lastMax (o : Object) (rest pre aft : list K) (acc : K) :
  let count := fun k => or0 (get eqb o k) in
  let f := fun a b => if cell_gt eqb o a b then a else b in
  In acc (keys o) -> (forall k, In k rest -> In k (keys o)) ->
  (forall k', In k' pre -> (count k' <= count acc)%Z) ->
  (forall k', In k' aft -> (count k' < count acc)%Z) ->
  exists before after,
    pre ++ acc :: aft ++ rest = before ++ fold_left f rest acc :: after /\
    (forall k', In k' before -> (count k' <= count (fold_left f rest acc))%Z) /\
    (forall k', In k' after -> (count k' < count (fold_left f rest acc))%Z).
Proof.
  intros count f. revert pre aft acc.
  induction rest as [|b rest IH]; intros pre aft acc Hacc Hrest Hpre Haft.
  - exists pre, aft. cbn. rewrite app_nil_r. auto.
  - cbn [fold_left].
    assert (Hb : In b (keys o)) by (apply Hrest; now left).
    assert (Hrest' : forall k, In k rest -> In k (keys o))
      by (intros k Hk; apply Hrest; now right).
    unfold f at 2 4 6. rewrite (cell_gt_spec o acc b Hacc Hb).
    fold (count b). fold (count acc).
    destruct (count b <? count acc)%Z eqn:E.
    + apply Z.ltb_lt in E.
      destruct (IH pre (aft ++ [b]) acc Hacc Hrest' Hpre) as (be & af & Heq & H1 & H2).
      { intros k' Hk. apply in_app_or in Hk. destruct Hk as [Hk|[Hk|[]]].
        - now apply Haft.
        - now subst. }
      exists be, af. split; [|auto].
      rewrite <- Heq. now rewrite <- app_assoc.
    + apply Z.ltb_ge in E.
      destruct (IH (pre ++ acc :: aft) [] b Hb Hrest') as (be & af & Heq & H1 & H2).
      { intros k' Hk. apply in_app_or in Hk. destruct Hk as [Hk|[Hk|Hk]].
        - specialize (Hpre _ Hk). lia.
        - subst. exact E.
        - specialize (Haft _ Hk). lia. }
      { intros k' []. }
      exists be, af. split; [|auto].
      rewrite <- Heq. cbn. now rewrite <- app_assoc.
Qed.

(** [max_key] of a counter table: it fails on the empty table only, and
    otherwise returns the last of the most frequent values in the
    order of first occurrence. *)
Lemma max_key_count_all (xs : list K) :
  xs <> [] ->
  exists k, max_key eqb (count_all eqb xs) = Ok k /\
            lastMax (fun k => occurrences eqb k xs) (firstSeen eqb xs) k.
Proof.
  intro Hne. unfold max_key, reduce1.
  pose proof (firstSeen_nonempty xs Hne) as Hk.
  rewrite <- keys_count_all in Hk.
  destruct (keys (count_all eqb xs)) as [|x rest] eqn:Ekeys; [congruence|].
  eexists. split; [reflexivity|].
  destruct (reduce_lastMax (count_all eqb xs) rest [] [] x) as (be & af & Heq & H1 & H2).
  - rewrite Ekeys. now left.
  - intros k Hin. rewrite Ekeys. now right.
  - intros k' [].
  - intros k' [].
  - exists be, af. cbn in Heq. rewrite <- keys_count_all, Ekeys.
    split; [exact Heq|]. split; intros k' Hin.
    + specialize (H1 k' Hin). now rewrite !get_count_all in H1.
    + specialize (H2 k' Hin). now rewrite !get_count_all in H2.
Qed.

Lemma max_key_empty : max_key eqb (count_all eqb []) =
  Throw (TypeError "Reduce of empty array with no initial value").
Proof. reflexivity. Qed.

End CounterFacts.

Lemma Session_eqb_spec (a b : Session) : Session_eqb a b = true <-> a = b.
Proof. destruct a, b; cbn; split; congruence. Qed.

Lemma PsyState_eqb_spec (a b : PsyState) : PsyState_eqb a b = true <-> a = b.
Proof. destruct a, b; cbn; split; congruence. Qed.

(* ================================================================== *)
(** * Performance insights never throw *)
(* ================================================================== *)

Lemma bestSession_ok (trades : list Trade) :
  trades <> [] ->
  exists best, bestSession trades = Ok best /\
    lastMax (fun s => occurrences Session_eqb s (map session trades))
            (firstSeen Session_eqb (map session trades)) best.
Proof.
  intro H. unfold bestSession, sessionCounts.
  apply (max_key_count_all Session_eqb Session_eqb_spec).
  destruct trades; [congruence | discriminate].
Qed.

Lemma analyzePerformanceInsights_ok (trades : list Trade) (period : string) :
  exists r, analyzePerformanceInsights trades period = Ok r.
Proof.
  unfold analyzePerformanceInsights.
  destruct trades as [|t ts]; [cbn; eauto|].
  cbn [List.length Nat.eqb].
  destruct (bestSession_ok (t :: ts)) as (best & Hb & _); [congruence|].
  rewrite Hb. cbn [bind]. eauto.
Qed.

(* ================================================================== *)
(** * The replay loop of the state history *)
(* ================================================================== *)

Lemma insertSorted_length {A} (cmp : A -> A -> Z) (x : A) (xs : list A) :
  List.length (insertSorted cmp x xs) = S (List.length xs).
Proof.
  induction xs as [|y ys IH]; cbn; [reflexivity|].
  destruct (cmp x y <=? 0)%Z; cbn; [reflexivity | now rewrite IH].
Qed.

Lemma sort_length {A} (cmp : A -> A -> Z) (xs : list A) :
  List.length (sort cmp xs) = List.length xs.
Proof.
  unfold sort. induction xs as [|x xs IH]; cbn [fold_right]; [reflexivity|].
  rewrite insertSorted_length, IH. reflexivity.
Qed.

Lemma sort_nonempty {A} (cmp : A -> A -> Z) (xs : list A) :
  xs <> [] -> sort cmp xs <> [].
Proof.
  intros H E. apply (f_equal (@List.length A)) in E.
  rewrite sort_length in E. destruct xs; [congruence | discriminate].
Qed.

Lemma insertSorted_perm {A} (cmp : A -> A -> Z) (x : A) (xs : list A) :
  Permutation (x :: xs) (insertSorted cmp x xs).
Proof.
  induction xs as [|y ys IH]; cbn; [reflexivity|].
  destruct (cmp x y <=? 0)%Z; [reflexivity|].
  rewrite perm_swap. now apply perm_skip.
Qed.

(** The sorted array holds the same trades. *)
Lemma sort_perm {A} (cmp : A -> A -> Z) (xs : list A) :
  Permutation xs (sort cmp xs).
Proof.
  unfold sort. induction xs as [|x xs IH]; cbn [fold_right]; [reflexivity|].
  rewrite <- insertSorted_perm. now apply perm_skip.
Qed.

Lemma insertSorted_HdRel (a x : Trade) (xs : list Trade) :
  chronological a x -> HdRel chronological a xs ->
  HdRel chronological a (insertSorted byEntryTime x xs).
Proof.
  intros Hax Hxs. destruct xs as [|y ys]; cbn; [now constructor|].
  destruct (byEntryTime x y <=? 0)%Z; constructor; [exact Hax|].
  now inversion Hxs.
Qed.

Lemma insertSorted_sorted (x : Trade) (xs : list Trade) :
  Sorted chronological xs -> Sorted chronological (insertSorted byEntryTime x xs).
Proof.
  induction xs as [|y ys IH]; intro H; cbn.
  - repeat constructor.
  - destruct (byEntryTime x y <=? 0)%Z eqn:E.
    + apply Z.leb_le in E. constructor; [exact H|].
      constructor. unfold chronological, byEntryTime in *. lia.
    + apply Z.leb_gt in E. inversion H as [|? ? Hs Hh]; subst.
      constructor; [now apply IH|].
      apply insertSorted_HdRel; [|exact Hh].
      unfold chronological, byEntryTime in *. lia.
Qed.

(** The sorted array is in ascending order of entry time. *)
Lemma sort_sorted (trades : list Trade) :
  Sorted chronological (sort byEntryTime trades).
Proof.
  unfold sort. induction trades as [|t ts IH]; cbn [fold_right]; [constructor|].
  now apply insertSorted_sorted.
Qed.

Lemma replayStart_consistent (limit : Z) : consistent limit replayStart.
Proof. split; cbn; try reflexivity; lia. Qed.

Lemma replayStep_consistent (now : Timestamp) (sorted : list Trade) (limit : Z)
  (i : nat) (trade : Trade) (r : Replay) :
  (Z.of_nat (List.length (r_history r)) < limit)%Z ->
  consistent limit r -> consistent limit (replayStep now sorted i trade r).
Proof.
  intros Hlt [Hs Hc Hn Hl]. unfold replayStep.
  destruct (significant _ _); [|now split].
  split; cbn [r_history r_states r_confidences r_stateChangeCount].
  - now rewrite map_app, Hs.
  - now rewrite map_app, Hc.
  - rewrite length_app. cbn. lia.
  - rewrite length_app. cbn. lia.
Qed.

Lemma replayFrom_consistent (now : Timestamp) (sorted : list Trade) (limit : Z)
  (fuel i : nat) (r : Replay) :
  consistent limit r -> consistent limit (replayFrom now sorted limit fuel i r).
Proof.
  revert i r. induction fuel as [|fuel IH]; intros i r H; cbn; [exact H|].
  destruct (nth_error sorted i) as [trade|]; [|exact H].
  destruct (Z.of_nat (List.length (r_history r)) <? limit)%Z eqn:E; [|exact H].
  apply Z.ltb_lt in E. now apply IH, replayStep_consistent.
Qed.

Lemma replay_consistent (now : Timestamp) (sorted : list Trade) (limit : Z) :
  consistent limit (replay now sorted limit).
Proof. apply replayFrom_consistent, replayStart_consistent. Qed.

(** The loop only ever appends. *)
Lemma replayStep_grows (now : Timestamp) (sorted : list Trade) (i : nat)
  (trade : Trade) (r : Replay) :
  (List.length (r_history r) <= List.length (r_history (replayStep now sorted i trade r)))%nat.
Proof.
  unfold replayStep. destruct (significant _ _); cbn; [|lia].
  rewrite length_app. cbn. lia.
Qed.

Lemma replayFrom_grows (now : Timestamp) (sorted : list Trade) (limit : Z)
  (fuel i : nat) (r : Replay) :
  (List.length (r_history r)
   <= List.length (r_history (replayFrom now sorted limit fuel i r)))%nat.
Proof.
  revert i r. induction fuel as [|fuel IH]; intros i r; cbn; [lia|].
  destruct (nth_error sorted i) as [trade|]; [|lia].
  destruct (Z.of_nat (List.length (r_history r)) <? limit)%Z; [|lia].
  etransitivity; [apply replayStep_grows | apply IH].
Qed.

(** Iterations beyond [length sortedTrades - i] do nothing: the loop
    leaves by its own condition, not by lack of fuel. *)
Lemma replay_fuel (now : Timestamp) (sorted : list Trade) (limit : Z)
  (fuel i : nat) (r : Replay) :
  (List.length sorted - i <= fuel)%nat ->
  replayFrom now sorted limit fuel i r
  = replayFrom now sorted limit (List.length sorted - i) i r.
Proof.
  revert i r. induction fuel as [|fuel IH]; intros i r H.
  - now replace (List.length sorted - i)%nat with 0%nat by lia.
  - destruct (nth_error sorted i) as [trade|] eqn:E.
    + assert (Hi : (i < List.length sorted)%nat)
        by (apply nth_error_Some; congruence).
      replace (List.length sorted - i)%nat
        with (S (List.length sorted - S i)) by lia.
      cbn. rewrite E.
      destruct (Z.of_nat (List.length (r_history r)) <? limit)%Z; [|reflexivity].
      apply IH. lia.
    + assert (Hi : (List.length sorted <= i)%nat) by now apply nth_error_None.
      replace (List.length sorted - i)%nat with 0%nat by lia.
      cbn. now rewrite E.
Qed.

(** With a positive limit the first trade is always recorded. *)
Lemma replay_records_first (now : Timestamp) (sorted : list Trade) (limit : Z) :
  sorted <> [] -> (1 <= limit)%Z -> r_history (replay now sorted limit) <> [].
Proof.
  intros Hne Hl. unfold replay.
  destruct sorted as [|t ts]; [congruence|].
  cbn [List.length replayFrom nth_error replayStart r_history].
  assert (E : (0 <? limit)%Z = true) by (apply Z.ltb_lt; lia).
  cbn [Z.of_nat]. rewrite E.
  match goal with
  | |- r_history (replayFrom _ _ _ _ _ ?r) <> [] =>
      pose proof (replayFrom_grows now (t :: ts) limit (List.length ts) 1 r) as G;
      assert (L : (1 <= List.length (r_history r))%nat)
  end.
  { unfold replayStep. cbn [significant r_lastState r_history]. cbn. lia. }
  intro E0. rewrite E0 in G. cbn in G. lia.
Qed.

Lemma replayFrom_appends (now : Timestamp) (sorted : list Trade) (limit : Z)
  (fuel i : nat) (r : Replay) :
  exists more,
    r_history (replayFrom now sorted limit fuel i r) = r_history r ++ more.
Proof.
  revert i r. induction fuel as [|fuel IH]; intros i r; cbn [replayFrom].
  - exists []. now rewrite app_nil_r.
  - destruct (nth_error sorted i) as [trade|]; [|exists []; now rewrite app_nil_r].
    destruct (Z.of_nat (List.length (r_history r)) <? limit)%Z;
      [|exists []; now rewrite app_nil_r].
    destruct (IH (S i) (replayStep now sorted i trade r)) as [more Hm].
    rewrite Hm. unfold replayStep.
    destruct (significant _ _); cbn [r_history]; [|now exists more].
    eexists. now rewrite <- app_assoc.
Qed.

(** The first entry of the history is the one of the earliest trade,
    classified on its own. *)
Lemma replay_first_entry (now : Timestamp) (t : Trade) (ts : list Trade)
  (limit : Z) :
  (1 <= limit)%Z ->
  exists more,
    r_history (replay now (t :: ts) limit)
    = entryOf t (analyzePsychologicalState now [t]) :: more.
Proof.
  intro Hl. unfold replay.
  cbn [List.length replayFrom nth_error replayStart r_history Z.of_nat].
  assert (E : (0 <? limit)%Z = true) by (apply Z.ltb_lt; lia).
  rewrite E.
  match goal with
  | |- exists more, r_history (replayFrom _ _ _ _ _ ?r) = _ =>
      destruct (replayFrom_appends now (t :: ts) limit (List.length ts) 1 r)
        as [more Hm]
  end.
  exists more. rewrite Hm. reflexivity.
Qed.

(** With a limit of zero or less the loop body never runs. *)
Lemma replay_nothing (now : Timestamp) (sorted : list Trade) (limit : Z) :
  (limit <= 0)%Z -> replay now sorted limit = replayStart.
Proof.
  intro Hl. unfold replay.
  destruct (List.length sorted) as [|n]; [reflexivity|].
  cbn [replayFrom]. destruct (nth_error sorted 0); [|reflexivity].
  assert (E : (0 <? limit)%Z = false) by (apply Z.ltb_ge; lia).
  cbn [replayStart r_history List.length Z.of_nat]. now rewrite E.
Qed.

Lemma sliceTo_all {A} (limit : Z) (xs : list A) :
  (Z.of_nat (List.length xs) <= limit)%Z -> sliceTo limit xs = xs.
Proof.
  intro H. unfold sliceTo.
  assert (E : (limit <? 0)%Z = false) by (apply Z.ltb_ge; lia).
  rewrite E. apply firstn_all2. lia.
Qed.

(** The result of [analyzeStateHistory] on a non-empty list with a
    positive limit, in terms of the loop. *)
Lemma analyzeStateHistory_ok (now : Timestamp) (trades : list Trade) (limit : Z) :
  trades <> [] -> (1 <= limit)%Z ->
  let r := replay now (sort byEntryTime trades) limit in
  exists m,
    lastMax (fun s => occurrences PsyState_eqb s (r_states r))
            (firstSeen PsyState_eqb (r_states r)) m /\
    analyzeStateHistory now trades limit =
      Ok {| History.history := r_history r;
            History.summary :=
              {| History.totalChanges := r_stateChangeCount r;
                 History.mostCommonState := m;
                 History.averageConfidence := averageConfidenceOf (r_confidences r);
                 History.volatility := volatilityOf (r_confidences r) |} |}.
Proof.
  intros Hne Hl r.
  pose proof (replay_consistent now (sort byEntryTime trades) limit) as [Hs Hc Hn Hlim].
  fold r in Hs, Hc, Hn, Hlim.
  assert (Hrec : r_history r <> [])
    by (apply replay_records_first; [now apply sort_nonempty | exact Hl]).
  assert (Hst : r_states r <> []).
  { rewrite Hs. destruct (r_history r); [congruence | discriminate]. }
  destruct (max_key_count_all PsyState_eqb PsyState_eqb_spec (r_states r) Hst)
    as (m & Hm & Hlast).
  exists m. split; [exact Hlast|].
  unfold analyzeStateHistory. rewrite length_eqb_nonempty by exact Hne.
  cbn zeta. fold r. rewrite Hm. cbn [bind].
  rewrite sliceTo_all by lia. reflexivity.
Qed.

(** On a non-empty list with a limit of zero or less it throws. *)
Lemma analyzeStateHistory_throws (now : Timestamp) (trades : list Trade) (limit : Z) :
  trades <> [] -> (limit <= 0)%Z ->
  analyzeStateHistory now trades limit =
    Throw (TypeError "Reduce of empty array with no initial value").
Proof.
  intros Hne Hl. unfold analyzeStateHistory.
  rewrite length_eqb_nonempty by exact Hne. cbn zeta.
  now rewrite replay_nothing.
Qed.

(* ================================================================== *)
(** * Claims about the state history and the insights *)
(* ================================================================== *)

(** C2.  The claim fails where the loop records nothing.  With a
    non-empty trade list and a limit of 0 or less the condition
    [history.length < limit] is false from the start: no event is
    recorded, the table of state counts stays empty and the reduction
    that picks [mostCommonState] throws, so no result is returned.  The
    guards [confidences.length > 0 ? ... : 50] and [... : 0] behind it
    would have given 50 and 0 for exactly this case, and for no other:
    with a limit of at least 1 the first trade is always recorded. *)
Theorem history_throws_when_nothing_recorded (now : Timestamp)
  (trades : list Trade) (limit : Z) :
  trades <> [] ->
  let r := replay now (sort byEntryTime trades) limit in
  ((limit <= 0)%Z ->
   r_history r = [] /\ r_confidences r = [] /\
   averageConfidenceOf (r_confidences r) = 50%Z /\
   volatilityOf (r_confidences r) == 0 /\
   analyzeStateHistory now trades limit
   = Throw (TypeError "Reduce of empty array with no initial value") /\
   ~ exists result, analyzeStateHistory now trades limit = Ok result) /\
  ((1 <= limit)%Z ->
   r_confidences r <> [] /\
   exists result, analyzeStateHistory now trades limit = Ok result).
Proof.
  intros Hne r. split.
  - intro Hl.
    assert (Hr : r = replayStart) by (unfold r; now apply replay_nothing).
    assert (Ht : analyzeStateHistory now trades limit
                 = Throw (TypeError "Reduce of empty array with no initial value"))
      by now apply analyzeStateHistory_throws.
    rewrite Hr. cbn [replayStart r_history r_confidences].
    split; [reflexivity|]. split; [reflexivity|].
    split; [reflexivity|]. split; [vm_compute; reflexivity|].
    split; [exact Ht|]. intros [result Hres]. rewrite Ht in Hres. discriminate.
  - intro Hl. split.
    + pose proof (replay_consistent now (sort byEntryTime trades) limit) as [_ Hc _ _].
      fold r in Hc. rewrite Hc.
      pose proof (replay_records_first now (sort byEntryTime trades) limit
                    (sort_nonempty byEntryTime trades Hne) Hl) as Hrec.
      fold r in Hrec. destruct (r_history r); [congruence | discriminate].
    + destruct (analyzeStateHistory_ok now trades limit Hne Hl) as (m & _ & Hm).
      eauto.
Qed.

Lemma history_throws_when_nothing_recorded_witness :
  [trade 1 10 100 2 NY] <> [] /\ (0 <= 0)%Z /\
  analyzeStateHistory 0 [trade 1 10 100 2 NY] 0
  = Throw (TypeError "Reduce of empty array with no initial value").
Proof.
  assert (H1 : [trade 1 10 100 2 NY] <> []) by discriminate.
  assert (H2 : (0 <= 0)%Z) by lia.
  split; [exact H1|]. split; [exact H2|].
  destruct (proj1 (history_throws_when_nothing_recorded 0%Z [trade 1 10 100 2 NY]
                     0%Z H1) H2) as (_ & _ & _ & _ & Ht & _).
  exact Ht.
Defined.

(** C10.  For every non-empty trade list and every limit of at least 1,
    [summary.totalChanges] is the number of entries of [history]; the
    earliest trade always produces the first entry (there is no
    previous state), so the count is at least 1 and includes that
    initial event; and [history] has no more than [limit] entries. *)
Theorem totalChanges_counts_history (now : Timestamp) (trades : list Trade)
  (limit : Z) :
  trades <> [] -> (1 <= limit)%Z ->
  exists r,
    analyzeStateHistory now trades limit = Ok r /\
    History.totalChanges (History.summary r)
      = Z.of_nat (List.length (History.history r)) /\
    (exists first rest more,
       sort byEntryTime trades = first :: rest /\
       History.history r
       = entryOf first (analyzePsychologicalState now [first]) :: more) /\
    (1 <= History.totalChanges (History.summary r))%Z /\
    (Z.of_nat (List.length (History.history r)) <= limit)%Z.
Proof.
  intros Hne Hl.
  destruct (analyzeStateHistory_ok now trades limit Hne Hl) as (m & _ & Hm).
  eexists. split; [exact Hm|].
  cbn [History.summary History.totalChanges History.history].
  destruct (replay_consistent now (sort byEntryTime trades) limit) as [_ _ Hn Hlim].
  pose proof (sort_nonempty byEntryTime trades Hne) as Hs.
  destruct (sort byEntryTime trades) as [|first rest] eqn:Esort; [congruence|].
  destruct (replay_first_entry now first rest limit Hl) as [more Hfirst].
  rewrite Hn. split; [reflexivity|]. split.
  - exists first, rest, more. split; [reflexivity | exact Hfirst].
  - rewrite Hfirst in *. cbn [List.length] in *. lia.
Qed.

Lemma totalChanges_counts_history_witness :
  tiedTrades <> [] /\ (1 <= 50)%Z /\
  exists r,
    analyzeStateHistory 0 tiedTrades 50 = Ok r /\
    History.totalChanges (History.summary r)
      = Z.of_nat (List.length (History.history r)).
Proof.
  assert (H1 : tiedTrades <> []) by discriminate.
  assert (H2 : (1 <= 50)%Z) by lia.
  split; [exact H1|]. split; [exact H2|].
  destruct (totalChanges_counts_history 0 tiedTrades 50 H1 H2) as (r & Hr & Hc & _).
  exists r. auto.
Defined.

(** C5, as the specification states it, fails.  [tiedTrades] records
    CONFIDENT then NEUTRAL, once each: the state met first is
    CONFIDENT, the code answers NEUTRAL.  Its sessions are LONDON then
    NY, once each: the session met first is LONDON, [bestSession] is
    NY. *)
Lemma tie_goes_to_later_key :
  exists r,
    analyzeStateHistory 0 tiedTrades 50 = Ok r /\
    map History.state (History.history r) = [CONFIDENT; NEUTRAL] /\
    firstMax PsyState_eqb (map History.state (History.history r)) = Ok CONFIDENT /\
    History.mostCommonState (History.summary r) = NEUTRAL /\
    firstMax Session_eqb (map session tiedTrades) = Ok LONDON /\
    bestSession tiedTrades = Ok NY /\
    Ok (History.mostCommonState (History.summary r))
      <> firstMax PsyState_eqb (map History.state (History.history r)) /\
    bestSession tiedTrades <> firstMax Session_eqb (map session tiedTrades).
Proof.
  eexists. split; [vm_compute; reflexivity|].
  cbn [History.history History.summary History.mostCommonState].
  repeat split; try (vm_compute; reflexivity); vm_compute; discriminate.
Qed.

(** C5, amended.  Ties go to the key met last.  For every trade list
    and limit on which [analyzeStateHistory] returns,
    [summary.mostCommonState] is a state with the highest number of
    recorded events, and among the states with that number it is the
    one whose first event comes last.  In [analyzePerformanceInsights],
    [bestSession] is a session with the highest trade count, the last
    such session in the order of first occurrence. *)
Theorem ties_go_to_last_key :
  (forall now trades limit r,
     trades <> [] -> analyzeStateHistory now trades limit = Ok r ->
     let states := map History.state (History.history r) in
     lastMax (fun s => occurrences PsyState_eqb s states)
             (firstSeen PsyState_eqb states)
             (History.mostCommonState (History.summary r)))
  /\
  (forall trades,
     trades <> [] ->
     let sessions := map session trades in
     exists best,
       bestSession trades = Ok best /\
       lastMax (fun s => occurrences Session_eqb s sessions)
               (firstSeen Session_eqb sessions) best).
Proof.
  split.
  - intros now trades limit r Hne Hr.
    destruct (Z_le_gt_dec 1 limit) as [Hl|Hl].
    + destruct (analyzeStateHistory_ok now trades limit Hne Hl) as (m & Hlast & Hm).
      rewrite Hm in Hr. injection Hr as <-.
      cbn [History.history History.summary History.mostCommonState].
      destruct (replay_consistent now (sort byEntryTime trades) limit) as [Hs _ _ _].
      cbn zeta. now rewrite <- Hs.
    + rewrite analyzeStateHistory_throws in Hr by (auto; lia). discriminate.
  - intros trades Hne. apply bestSession_ok, Hne.
Qed.

Lemma ties_go_to_last_key_witness :
  tiedTrades <> [] /\
  (exists r,
     analyzeStateHistory 0 tiedTrades 50 = Ok r /\
     lastMax
       (fun s => occurrences PsyState_eqb s (map History.state (History.history r)))
       (firstSeen PsyState_eqb (map History.state (History.history r)))
       (History.mostCommonState (History.summary r))) /\
  (exists best, bestSession tiedTrades = Ok best).
Proof.
  assert (H : tiedTrades <> []) by discriminate.
  split; [exact H|]. split.
  - destruct (analyzeStateHistory 0 tiedTrades 50) as [r|e] eqn:E.
    + exists r. split; [reflexivity|].
      exact (proj1 ties_go_to_last_key 0%Z tiedTrades 50%Z r H E).
    + vm_compute in E. discriminate.
  - destruct (proj2 ties_go_to_last_key tiedTrades H) as (best & Hb & _).
    exists best. exact Hb.
Defined.

(** C6.  On [swingTrades] the recorded confidences are 20 and six times
    50.  Their mean is 320/7, which the code rounds to 46 before it
    takes the deviations; the root of the variance around 46 rounds to
    11 and the reported volatility is 0.11, whereas the population
    standard deviation (around 320/7) rounds to 10, which gives
    0.10. *)
Theorem volatility_uses_rounded_mean :
  exists r,
    analyzeStateHistory 0 swingTrades 50 = Ok r /\
    map History.confidence (History.history r) = [20; 50; 50; 50; 50; 50; 50]%Z /\
    History.averageConfidence (History.summary r) = 46%Z /\
    History.volatility (History.summary r) == 0.11 /\
    volatilitySpec (map History.confidence (History.history r)) == 0.10 /\
    ~ History.volatility (History.summary r)
      == volatilitySpec (map History.confidence (History.history r)).
Proof.
  eexists. split; [vm_compute; reflexivity|].
  cbn [History.history History.summary History.averageConfidence
       History.volatility].
  repeat split; try (vm_compute; reflexivity).
  vm_compute. discriminate.
Qed.

Lemma sum_by_ext {A} (f g : A -> Q) (xs : list A) :
  (forall x, f x == g x) -> sum_by f xs == sum_by g xs.
Proof.
  intro H. unfold sum_by.
  assert (G : forall a b, a == b ->
            fold_left (fun sum x => sum + f x) xs a
            == fold_left (fun sum x => sum + g x) xs b).
  { induction xs as [|x xs IH]; intros a b Hab; cbn; [exact Hab|].
    apply IH. rewrite Hab, (H x). reflexivity. }
  apply G. reflexivity.
Qed.

(** The two volatilities part only through the rounding of the mean:
    when the mean of the recorded confidences is an integer the code
    reports the specification's figure. *)
Lemma volatility_agrees_on_integral_mean (confidences : list Z) (m : Z) :
  confidences <> [] ->
  sumZ inject_Z confidences / len confidences == inject_Z m ->
  volatilityOf confidences = volatilitySpec confidences.
Proof.
  intros Hne Hm. unfold volatilityOf, volatilitySpec, round_sqrt.
  assert (Havg : averageConfidenceOf confidences = m).
  { unfold averageConfidenceOf.
    destruct confidences; [congruence|]. cbn [List.length Nat.ltb Nat.leb].
    now apply Math_round_integer. }
  assert (Hvar : varianceOf confidences == populationVariance confidences).
  { unfold varianceOf, populationVariance. rewrite Havg.
    destruct confidences as [|c cs]; [congruence|]. cbn [List.length Nat.ltb Nat.leb].
    unfold sumZ in *.
    rewrite (sum_by_ext
               (fun conf => inject_Z ((conf - m) ^ 2))
               (fun v => (inject_Z v - sum_by inject_Z (c :: cs) / len (c :: cs)) ^ 2)).
    - reflexivity.
    - intro x. rewrite Hm. rewrite Z.pow_2_r, inject_Z_mult.
      unfold Z.sub. rewrite inject_Z_plus, inject_Z_opp.
      unfold Qpower, Qpower_positive. cbn [pow_pos]. ring. }
  assert (E : 4 * varianceOf confidences == 4 * populationVariance confidences)
    by (rewrite Hvar; reflexivity).
  now rewrite (Qfloor_comp _ _ E).
Qed.

(** C3.  Called directly with no trades, the generator returns one
    OPPORTUNITY insight, no patterns and one recommendation.  The
    wrapper [getPerformanceInsights] passes what it fetched to the
    generator and returns its result as it is: when the store holds no
    trade of the user in the period it returns that same report, whose
    [insights] array is not empty. *)
Theorem empty_period_insights (store : list Trade) (dateRange : DateRange)
  (user : Z) (period : string) :
  findInPeriod store user dateRange = [] ->
  let report :=
    {| Insight.period := period;
       Insight.insights :=
         [Insight.mk Insight.OPPORTUNITY
            "No trading data available for analysis" 100 Insight.LOW];
       Insight.patterns := [];
       Insight.recommendations :=
         ["Start trading to generate performance insights"%string] |} in
  analyzePerformanceInsights [] period = Ok report /\
  getPerformanceInsights store dateRange user period = Ok report /\
  Insight.insights report <> [].
Proof.
  intros H report. unfold getPerformanceInsights. rewrite H.
  repeat split; try reflexivity. discriminate.
Qed.

Lemma empty_period_insights_witness :
  findInPeriod [] 1 (mkRange 0 100) = [] /\
  exists report,
    getPerformanceInsights [] (mkRange 0 100) 1 "30d" = Ok report /\
    Insight.insights report <> [].
Proof.
  assert (H : findInPeriod [] 1 (mkRange 0 100) = []) by reflexivity.
  split; [exact H|].
  destruct (empty_period_insights [] (mkRange 0 100) 1 "30d" H) as (_ & Hw & Hn).
  eexists. split; [exact Hw | exact Hn].
Defined.

(* ================================================================== *)
(** * Drawdown *)
(* ================================================================== *)

Lemma firstn_snoc {A} (xs : list A) (k : nat) (x : A) :
  nth_error xs k = Some x -> firstn (S k) xs = firstn k xs ++ [x].
Proof.
  revert k. induction xs as [|y ys IH]; intros [|k] H; cbn in *; try discriminate.
  - now injection H as ->.
  - now rewrite <- IH.
Qed.

Lemma runningTotal_S (trades : list Trade) (k : nat) (t : Trade) :
  nth_error trades k = Some t ->
  runningTotal (map profitLoss trades) (S k)
  = runningTotal (map profitLoss trades) k + profitLoss t.
Proof.
  intro H. unfold runningTotal, sum_by.
  rewrite (firstn_snoc (map profitLoss trades) k (profitLoss t))
    by now rewrite nth_error_map, H.
  now rewrite fold_left_app.
Qed.

(** One pass of the loop computes, step by step, the running total,
    the running peak and the highest drawdown. *)
Lemma drawdownLoop_prefix (trades : list Trade) (k : nat) :
  (k <= List.length trades)%nat ->
  let pnl := map profitLoss trades in
  drawdownLoop (firstn k trades) =
    {| peak := peakAt pnl k;
       maxDrawdown := maxDrawdownAt pnl k;
       runningPnL := runningTotal pnl k |}.
Proof.
  intros Hk pnl. induction k as [|k IH]; [reflexivity|].
  destruct (nth_error trades k) as [t|] eqn:E.
  2: { apply nth_error_None in E. lia. }
  rewrite (firstn_snoc trades k t E). unfold drawdownLoop in *.
  rewrite fold_left_app, IH by lia. cbn [fold_left].
  unfold drawdownStep. cbn [peak maxDrawdown runningPnL].
  cbn [peakAt maxDrawdownAt]. unfold drawdownAt. cbn [peakAt]. subst pnl.
  rewrite (runningTotal_S trades k t E).
  unfold Math_max, gt, le.
  destruct (Qle_bool _ (peakAt _ _)); cbn [negb];
    destruct (Qle_bool _ (maxDrawdownAt _ _)); reflexivity.
Qed.

Lemma drawdownLoop_spec (trades : list Trade) :
  let pnl := map profitLoss trades in
  let n := List.length trades in
  drawdownLoop trades =
    {| peak := peakAt pnl n;
       maxDrawdown := maxDrawdownAt pnl n;
       runningPnL := runningTotal pnl n |}.
Proof.
  cbn zeta. rewrite <- (drawdownLoop_prefix trades (List.length trades)) by lia.
  now rewrite firstn_all.
Qed.

(** [maxDrawdownAt] is the maximum of the drawdowns of the steps. *)
Lemma maxDrawdownAt_upper (pnl : list Q) (k j : nat) :
  (j <= k)%nat -> drawdownAt pnl j <= maxDrawdownAt pnl k.
Proof.
  intro H. induction k as [|k IH].
  - replace j with 0%nat by lia. unfold drawdownAt. cbn. lra.
  - cbn [maxDrawdownAt].
    destruct (Nat.eq_dec j (S k)) as [->|Hne].
    + destruct (Math_max_cases (drawdownAt pnl (S k)) (maxDrawdownAt pnl k))
        as [[H1 ->]|[H1 ->]]; lra.
    + assert (Hj : (j <= k)%nat) by lia. specialize (IH Hj).
      destruct (Math_max_cases (drawdownAt pnl (S k)) (maxDrawdownAt pnl k))
        as [[H1 ->]|[H1 ->]]; lra.
Qed.

Lemma maxDrawdownAt_attained (pnl : list Q) (k : nat) :
  exists j, (j <= k)%nat /\ maxDrawdownAt pnl k == drawdownAt pnl j.
Proof.
  induction k as [|k [j [Hj IH]]].
  - exists 0%nat. split; [lia|]. unfold drawdownAt. cbn. lra.
  - cbn [maxDrawdownAt].
    destruct (Math_max_cases (drawdownAt pnl (S k)) (maxDrawdownAt pnl k))
      as [[H1 ->]|[H1 ->]].
    + exists j. split; [lia | exact IH].
    + exists (S k). split; [lia | reflexivity].
Qed.

(** [peakAt] is the maximum of the running totals of the steps. *)
Lemma peakAt_upper (pnl : list Q) (k j : nat) :
  (j <= k)%nat -> runningTotal pnl j <= peakAt pnl k.
Proof.
  intro H. induction k as [|k IH].
  - replace j with 0%nat by lia. cbn. lra.
  - cbn [peakAt].
    destruct (Nat.eq_dec j (S k)) as [->|Hne].
    + destruct (Math_max_cases (runningTotal pnl (S k)) (peakAt pnl k))
        as [[H1 ->]|[H1 ->]]; lra.
    + assert (Hj : (j <= k)%nat) by lia. specialize (IH Hj).
      destruct (Math_max_cases (runningTotal pnl (S k)) (peakAt pnl k))
        as [[H1 ->]|[H1 ->]]; lra.
Qed.

Lemma peakAt_attained (pnl : list Q) (k : nat) :
  exists j, (j <= k)%nat /\ peakAt pnl k == runningTotal pnl j.
Proof.
  induction k as [|k [j [Hj IH]]].
  - exists 0%nat. split; [lia|]. cbn. lra.
  - cbn [peakAt].
    destruct (Math_max_cases (runningTotal pnl (S k)) (peakAt pnl k))
      as [[H1 ->]|[H1 ->]].
    + exists j. split; [lia | exact IH].
    + exists (S k). split; [lia | reflexivity].
Qed.

Lemma calculateRiskMetrics_maxDrawdown (Math_sqrt : Q -> Q) (trades : list Trade) :
  trades <> [] ->
  Risk.maxDrawdown (calculateRiskMetrics Math_sqrt trades)
  = round2 (maxDrawdownAt (map profitLoss trades) (List.length trades)).
Proof.
  intro H. unfold calculateRiskMetrics. rewrite length_eqb_nonempty by exact H.
  cbn zeta. cbn [Risk.maxDrawdown]. now rewrite drawdownLoop_spec.
Qed.

(** C7.  The drawdown loop takes the trades in the order given.  After
    the whole list its [maxDrawdown] is the highest of the drawdowns
    [peak - running total] of the steps, the peak of a step being the
    highest running total up to it; both maxima are reached at a step
    and bound every step.  For the profits and losses 100, -150, 50 in
    that order the result is exactly 150, also as reported by
    [calculateRiskMetrics]; and the trades are not re-sorted: four
    trades given out of chronological order yield 100, where the same
    four sorted by entry time would yield 50. *)
Theorem maxDrawdown_in_given_order :
  (forall trades,
     let pnl := map profitLoss trades in
     let n := List.length trades in
     maxDrawdown (drawdownLoop trades) = maxDrawdownAt pnl n /\
     (forall j, (j <= n)%nat -> drawdownAt pnl j <= maxDrawdownAt pnl n) /\
     (exists j, (j <= n)%nat /\ maxDrawdownAt pnl n == drawdownAt pnl j) /\
     (forall k j, (j <= k)%nat -> runningTotal pnl j <= peakAt pnl k) /\
     (forall k, exists j, (j <= k)%nat /\ peakAt pnl k == runningTotal pnl j))
  /\
  map profitLoss dipTrades = [100; -150; 50] /\
  maxDrawdown (drawdownLoop dipTrades) == 150 /\
  (forall Math_sqrt,
     Risk.maxDrawdown (calculateRiskMetrics Math_sqrt dipTrades) == 150) /\
  maxDrawdown (drawdownLoop zigzagTrades) == 100 /\
  maxDrawdown (drawdownLoop (sort byEntryTime zigzagTrades)) == 50.
Proof.
  split.
  - intros trades pnl n. split; [|split; [|split; [|split]]].
    + unfold pnl, n. now rewrite drawdownLoop_spec.
    + intros j Hj. now apply maxDrawdownAt_upper.
    + apply maxDrawdownAt_attained.
    + intros k j Hj. now apply peakAt_upper.
    + intro k. apply peakAt_attained.
  - split; [reflexivity|]. split; [vm_compute; reflexivity|].
    split; [|split; vm_compute; reflexivity].
    intro Math_sqrt. rewrite calculateRiskMetrics_maxDrawdown by discriminate.
    vm_compute. reflexivity.
Qed.

Lemma maxDrawdown_in_given_order_witness :
  (2 <= List.length dipTrades)%nat /\
  drawdownAt (map profitLoss dipTrades) 2
    <= maxDrawdownAt (map profitLoss dipTrades) (List.length dipTrades).
Proof.
  assert (H : (2 <= List.length dipTrades)%nat) by (cbn; lia).
  split; [exact H|].
  exact (proj1 (proj2 (proj1 maxDrawdown_in_given_order dipTrades)) 2%nat H).
Defined.

Lemma round2_comp (x y : Q) : x == y -> round2 x = round2 y.
Proof.
  intro H. unfold round2, Math_round.
  assert (E : x * 100 + (1 # 2) == y * 100 + (1 # 2)) by (rewrite H; reflexivity).
  now rewrite (Qfloor_comp _ _ E).
Qed.

(** While the running total never rises above 0 the peak stays at its
    initial value. *)
Lemma peakAt_never_positive (pnl : list Q) (k : nat) :
  (forall j, (j <= k)%nat -> runningTotal pnl j <= 0) -> peakAt pnl k = 0.
Proof.
  intro H. induction k as [|k IH]; [reflexivity|].
  cbn [peakAt]. rewrite IH by (intros j Hj; apply H; lia).
  unfold Math_max. assert (E : le (runningTotal pnl (S k)) 0 = true)
    by (apply le_true, H; lia).
  now rewrite E.
Qed.

Lemma maxDrawdownAt_never_positive (pnl : list Q) (k : nat) :
  (forall j, (j <= S k)%nat -> runningTotal pnl j <= 0) ->
  maxDrawdownAt pnl (S k) == - minRunningTotal pnl (S k).
Proof.
  intro H. induction k as [|k IH].
  - cbn [maxDrawdownAt minRunningTotal]. unfold drawdownAt.
    rewrite peakAt_never_positive by exact H.
    pose proof (H 1%nat (Nat.le_refl 1)) as H1.
    destruct (Math_max_cases (0 - runningTotal pnl 1) 0) as [[H2 ->]|[H2 ->]]; lra.
  - assert (IH' : maxDrawdownAt pnl (S k) == - minRunningTotal pnl (S k))
      by (apply IH; intros j Hj; apply H; lia).
    change (maxDrawdownAt pnl (S (S k)))
      with (Math_max (drawdownAt pnl (S (S k))) (maxDrawdownAt pnl (S k))).
    change (minRunningTotal pnl (S (S k)))
      with (Math_min (runningTotal pnl (S (S k))) (minRunningTotal pnl (S k))).
    unfold drawdownAt. rewrite peakAt_never_positive by exact H.
    destruct (Math_max_cases (0 - runningTotal pnl (S (S k))) (maxDrawdownAt pnl (S k)))
      as [[H2 ->]|[H2 ->]];
      destruct (Math_min_cases (runningTotal pnl (S (S k))) (minRunningTotal pnl (S k)))
        as [[H3 ->]|[H3 ->]]; lra.
Qed.

Lemma minRunningTotal_never_positive (pnl : list Q) (k : nat) :
  (forall j, (j <= S k)%nat -> runningTotal pnl j <= 0) ->
  minRunningTotal pnl (S k) <= 0.
Proof.
  intro H. induction k as [|k IH].
  - apply (H 1%nat). lia.
  - change (minRunningTotal pnl (S (S k)))
      with (Math_min (runningTotal pnl (S (S k))) (minRunningTotal pnl (S k))).
    pose proof (H (S (S k)) (Nat.le_refl _)) as H1.
    destruct (Math_min_cases (runningTotal pnl (S (S k))) (minRunningTotal pnl (S k)))
      as [[H3 ->]|[H3 ->]]; lra.
Qed.

(** C9, as stated, fails: the reported figure is rounded to two
    decimals.  A single trade losing 0.001 never has a positive
    cumulative total, the absolute value of its lowest cumulative total
    is 0.001, and the reported [maxDrawdown] is 0. *)
Lemma tiny_loss_reported_as_zero :
  (forall k, (k <= List.length tinyLoss)%nat ->
     runningTotal (map profitLoss tinyLoss) k <= 0) /\
  Qabs (minRunningTotal (map profitLoss tinyLoss) 1) == 0.001 /\
  Risk.maxDrawdown (calculateRiskMetrics (fun x => x) tinyLoss) == 0 /\
  ~ Risk.maxDrawdown (calculateRiskMetrics (fun x => x) tinyLoss)
    == Qabs (minRunningTotal (map profitLoss tinyLoss) 1).
Proof.
  split; [|split; [|split]].
  - intros [|[|k]] Hk; [vm_compute; discriminate | vm_compute; discriminate|].
    cbn in Hk. lia.
  - vm_compute. reflexivity.
  - vm_compute. reflexivity.
  - vm_compute. discriminate.
Qed.

(** The two-decimal rounding moves a number by half a hundredth at
    most, and leaves a whole number of hundredths where it is. *)
Lemma round2_near (x : Q) : round2 x - x <= 0.005 /\ x - round2 x <= 0.005.
Proof.
  unfold round2, Math_round.
  pose proof (Qfloor_le (x * 100 + (1 # 2))) as Hlo.
  pose proof (Qlt_floor (x * 100 + (1 # 2))) as Hhi.
  rewrite inject_Z_plus in Hhi. change (inject_Z 1) with 1 in Hhi.
  set (k := inject_Z (Qfloor (x * 100 + (1 # 2)))) in *.
  split.
  - apply Qle_minus_iff.
    setoid_replace (0.005 + - (k / 100 - x)) with ((x * 100 + (1 # 2) - k) / 100)
      by field.
    apply Qle_shift_div_l; lra.
  - apply Qle_minus_iff.
    setoid_replace (0.005 + - (x - k / 100)) with ((k + 1 - (x * 100 + (1 # 2))) / 100)
      by field.
    apply Qle_shift_div_l; lra.
Qed.

Lemma round2_hundredths (x : Q) (k : Z) : x * 100 == inject_Z k -> round2 x == x.
Proof.
  intro H. unfold round2. rewrite (Math_round_integer k _ H), <- H. field.
Qed.

(** C9, amended.  The running peak starts at 0 and not at the first
    running total.  So for every non-empty trade list whose cumulative
    profit and loss is never positive at any step the peak stays 0 and
    the loop's [maxDrawdown] is the absolute value of the lowest
    cumulative total.  The reported [maxDrawdown] is that value put
    through [Math.round(x * 100) / 100]: it is that value when it is a
    whole number of hundredths, and less than a hundredth away from it
    in any case. *)
Theorem drawdown_of_never_positive_run (Math_sqrt : Q -> Q) (trades : list Trade) :
  trades <> [] ->
  let pnl := map profitLoss trades in
  let n := List.length trades in
  (forall k, (k <= n)%nat -> runningTotal pnl k <= 0) ->
  peak (drawdownLoop trades) = 0 /\
  maxDrawdown (drawdownLoop trades) == Qabs (minRunningTotal pnl n) /\
  Qabs (Risk.maxDrawdown (calculateRiskMetrics Math_sqrt trades)
        - Qabs (minRunningTotal pnl n)) < 0.01 /\
  (forall cents : Z,
     Qabs (minRunningTotal pnl n) * 100 == inject_Z cents ->
     Risk.maxDrawdown (calculateRiskMetrics Math_sqrt trades)
     == Qabs (minRunningTotal pnl n)).
Proof.
  intros Hne pnl n H.
  assert (Hn : exists k, n = S k).
  { unfold n. destruct trades; [congruence | cbn; eauto]. }
  destruct Hn as [k Hk].
  assert (Hmax : maxDrawdownAt pnl n == Qabs (minRunningTotal pnl n)).
  { rewrite Hk in *. rewrite maxDrawdownAt_never_positive by exact H.
    symmetry. apply Qabs_neg, minRunningTotal_never_positive, H. }
  assert (Hrep : Risk.maxDrawdown (calculateRiskMetrics Math_sqrt trades)
                 = round2 (Qabs (minRunningTotal pnl n))).
  { rewrite calculateRiskMetrics_maxDrawdown by exact Hne.
    fold pnl. fold n. now rewrite (round2_comp _ _ Hmax). }
  split; [|split; [|split]].
  - rewrite drawdownLoop_spec. cbn [peak]. now apply peakAt_never_positive.
  - rewrite drawdownLoop_spec. cbn [maxDrawdown]. exact Hmax.
  - rewrite Hrep.
    destruct (round2_near (Qabs (minRunningTotal pnl n))) as [Hup Hdown].
    apply Qabs_case; intro; lra.
  - intros cents Hc. rewrite Hrep. exact (round2_hundredths _ cents Hc).
Qed.

Lemma drawdown_of_never_positive_run_witness :
  let losses := [trade 1 10 (-30) 2 NY; trade 2 20 (-20) 2 NY; trade 3 30 10 2 NY] in
  losses <> [] /\
  (forall k, (k <= List.length losses)%nat ->
     runningTotal (map profitLoss losses) k <= 0) /\
  maxDrawdown (drawdownLoop losses)
    == Qabs (minRunningTotal (map profitLoss losses) (List.length losses)) /\
  Risk.maxDrawdown (calculateRiskMetrics (fun x => x) losses) == 50.
Proof.
  intro losses.
  assert (H1 : losses <> []) by discriminate.
  assert (H2 : forall k, (k <= List.length losses)%nat ->
                 runningTotal (map profitLoss losses) k <= 0).
  { intros [|[|[|[|k]]]] Hk; vm_compute; discriminate. }
  destruct (drawdown_of_never_positive_run (fun x => x) losses H1 H2)
    as (_ & Hloop & _ & Hcents).
  split; [exact H1|]. split; [exact H2|]. split; [exact Hloop|].
  rewrite (Hcents 5000%Z); vm_compute; reflexivity.
Defined.

(* ================================================================== *)
(** * The rounded square root *)
(* ================================================================== *)

(** [round_sqrt v] is the integer [k] with [k - 1/2 <= sqrt v < k + 1/2],
    stated on the squares: [(2k - 1)^2 <= 4 v < (2k + 1)^2], the left
    bound being void when [k = 0]. *)
Lemma round_sqrt_spec (v : Q) :
  0 <= v ->
  let k := round_sqrt v in
  (0 <= k)%Z /\
  (k = 0%Z \/ inject_Z ((2 * k - 1) * (2 * k - 1)) <= 4 * v) /\
  4 * v < inject_Z ((2 * k + 1) * (2 * k + 1)).
Proof.
  intros Hv k. unfold round_sqrt in k.
  set (f := Qfloor (4 * v)) in *.
  assert (Hf0 : (0 <= f)%Z).
  { unfold f. rewrite <- (Qfloor_Z 0). apply Qfloor_resp_le.
    change (inject_Z 0) with 0. lra. }
  pose proof (Z.sqrt_spec f Hf0) as Hs. cbn zeta in Hs.
  pose proof (Z.sqrt_nonneg f) as Hm.
  set (m := Z.sqrt f) in *.
  assert (Hk1 : (2 * k <= m + 1)%Z)
    by (subst k; apply Z.mul_div_le; lia).
  assert (Hk2 : (m + 1 < 2 * k + 2)%Z).
  { subst k. pose proof (Z.mod_pos_bound (m + 1) 2 ltac:(lia)).
    pose proof (Z.div_mod (m + 1) 2 ltac:(lia)). lia. }
  assert (Hlo : inject_Z f <= 4 * v) by apply Qfloor_le.
  assert (Hhi : 4 * v < inject_Z (f + 1)) by apply Qlt_floor.
  split; [|split].
  - subst k. apply Z.div_pos; lia.
  - destruct (Z.eq_dec k 0) as [E|E]; [now left | right].
    apply Qle_trans with (inject_Z f); [|exact Hlo].
    rewrite <- Zle_Qle. nia.
  - apply Qlt_le_trans with (inject_Z (f + 1)); [exact Hhi|].
    rewrite <- Zle_Qle. nia.
Qed.

(* ================================================================== *)
(** * Further properties of the classifier *)
(* ================================================================== *)

Lemma verdict_confidence (trades : list Trade) :
  v_confidence (verdict trades)
  = v_confidence (winRateRule (winRate trades) baseline).
Proof.
  destruct (verdict_extends trades) as (_ & Hc & _). rewrite Hc.
  unfold riskRule. destruct (gt _ _); [reflexivity|].
  destruct (lt _ _); reflexivity.
Qed.

Lemma Math_round_mono (x y : Q) : x <= y -> (Math_round x <= Math_round y)%Z.
Proof. intro H. unfold Math_round. apply Qfloor_resp_le. lra. Qed.

(** ** Averages of bounded fields *)

Lemma sum_at_least {A} (f : A -> Q) (lo : Q) (xs : list A) (a : Q) :
  Forall (fun x => lo <= f x) xs ->
  a + lo * len xs <= fold_left (fun sum x => sum + f x) xs a.
Proof.
  intro H. revert a. induction H as [|x xs Hx _ IH]; intro a.
  - change (len (@nil A)) with 0. cbn [fold_left]. lra.
  - cbn [fold_left]. specialize (IH (a + f x)).
    assert (E : len (x :: xs) == 1 + len xs).
    { unfold len. cbn [List.length]. rewrite Nat2Z.inj_succ, <- Z.add_1_l.
      rewrite inject_Z_plus. reflexivity. }
    rewrite E. lra.
Qed.

Lemma sum_at_most {A} (f : A -> Q) (hi : Q) (xs : list A) (a : Q) :
  Forall (fun x => f x <= hi) xs ->
  fold_left (fun sum x => sum + f x) xs a <= a + hi * len xs.
Proof.
  intro H. revert a. induction H as [|x xs Hx _ IH]; intro a.
  - change (len (@nil A)) with 0. cbn [fold_left]. lra.
  - cbn [fold_left]. specialize (IH (a + f x)).
    assert (E : len (x :: xs) == 1 + len xs).
    { unfold len. cbn [List.length]. rewrite Nat2Z.inj_succ, <- Z.add_1_l.
      rewrite inject_Z_plus. reflexivity. }
    rewrite E. lra.
Qed.

Lemma avg_at_least (field : Trade -> Q) (lo : Q) (trades : list Trade) :
  trades <> [] -> Forall (fun t => lo <= field t) trades -> lo <= avg field trades.
Proof.
  intros Hne H. unfold avg, sum_by.
  pose proof (len_pos trades Hne) as Hn.
  pose proof (sum_at_least field lo trades 0 H) as Hs.
  apply Qle_shift_div_l; lra.
Qed.

Lemma avg_at_most (field : Trade -> Q) (hi : Q) (trades : list Trade) :
  trades <> [] -> Forall (fun t => field t <= hi) trades -> avg field trades <= hi.
Proof.
  intros Hne H. unfold avg, sum_by.
  pose proof (len_pos trades Hne) as Hn.
  pose proof (sum_at_most field hi trades 0 H) as Hs.
  apply Qle_shift_div_r; lra.
Qed.

(** X1.  The decision table of the returned state, read on the trades.
    The risk used decides first: when every trade uses at least 4 the
    state is GREEDY, when every trade uses at most 0.5 it is FEARFUL,
    whatever the win rate; when every trade uses between 1 and 3 the
    win rate decides between CONFIDENT, FRUSTRATED and NEUTRAL.  (The
    bounds on each trade carry over to the average however the sum is
    rounded.) *)
Theorem state_decision_table (now : Timestamp) (trades : list Trade) :
  trades <> [] ->
  let r := analyzePsychologicalState now trades in
  let w := winRate trades in
  (Forall (fun t => 4 <= riskPercentUsed t) trades -> state r = GREEDY) /\
  (Forall (fun t => riskPercentUsed t <= 0.5) trades -> state r = FEARFUL) /\
  (Forall (fun t => 1 <= riskPercentUsed t /\ riskPercentUsed t <= 3) trades ->
   (70 <= w -> state r = CONFIDENT) /\
   (w <= 30 -> state r = FRUSTRATED) /\
   (30 < w -> w < 70 -> state r = NEUTRAL)).
Proof.
  intros Hne r w. subst r.
  rewrite (analyze_nonempty now trades Hne). cbn zeta. cbn [state].
  destruct (verdict_extends trades) as [Hs _]. rewrite Hs.
  fold w. set (risk := avg riskPercentUsed trades).
  split; [|split].
  - intro H. pose proof (avg_at_least riskPercentUsed 4 trades Hne H) as Hr.
    fold risk in Hr. unfold riskRule, winRateRule, push, baseline.
    cmp_cases; cbn [v_state]; try reflexivity; lra.
  - intro H. pose proof (avg_at_most riskPercentUsed 0.5 trades Hne H) as Hr.
    fold risk in Hr. unfold riskRule, winRateRule, push, baseline.
    cmp_cases; cbn [v_state]; try reflexivity; lra.
  - intro H.
    assert (Hlo : 1 <= risk).
    { apply avg_at_least; [exact Hne|].
      eapply Forall_impl; [|exact H]. cbn beta. intros t [Ht _]. exact Ht. }
    assert (Hhi : risk <= 3).
    { apply avg_at_most; [exact Hne|].
      eapply Forall_impl; [|exact H]. cbn beta. intros t [_ Ht]. exact Ht. }
    unfold riskRule, winRateRule, push, baseline.
    repeat split; intros; cmp_cases; cbn [v_state]; try reflexivity; lra.
Qed.

Lemma state_decision_table_witness :
  let trades := [trade 1 10 100 2 NY; trade 2 20 (-50) 3 NY] in
  trades <> [] /\
  Forall (fun t => 1 <= riskPercentUsed t /\ riskPercentUsed t <= 3) trades /\
  30 < winRate trades /\ winRate trades < 70 /\
  state (analyzePsychologicalState 0 trades) = NEUTRAL.
Proof.
  intro trades.
  assert (H0 : trades <> []) by discriminate.
  assert (H1 : Forall (fun t => 1 <= riskPercentUsed t /\ riskPercentUsed t <= 3)
                 trades).
  { repeat constructor; vm_compute; discriminate. }
  assert (H2 : 30 < winRate trades) by (vm_compute; reflexivity).
  assert (H3 : winRate trades < 70) by (vm_compute; reflexivity).
  split; [exact H0|]. split; [exact H1|]. split; [exact H2|]. split; [exact H3|].
  exact (proj2 (proj2 (proj2 (proj2 (state_decision_table 0 trades H0)) H1)) H2 H3).
Defined.

(** X2.  The returned confidence depends on the win rate alone and never
    decreases when the win rate grows. *)
Theorem confidence_monotone_in_winRate (now now' : Timestamp) (a b : list Trade) :
  a <> [] -> b <> [] -> winRate a <= winRate b ->
  (confidence (analyzePsychologicalState now a)
   <= confidence (analyzePsychologicalState now' b))%Z.
Proof.
  intros Ha Hb Hw.
  rewrite (analyze_nonempty now a Ha), (analyze_nonempty now' b Hb).
  cbn zeta. cbn [confidence]. rewrite !verdict_confidence.
  apply Math_round_mono.
  unfold winRateRule, baseline.
  cmp_cases; cbn [v_confidence]; minmax_cases; lra.
Qed.

Lemma confidence_monotone_in_winRate_witness :
  let a := [trade 1 10 (-100) 2 NY] in
  let b := [trade 1 10 100 5 NY] in
  a <> [] /\ b <> [] /\ winRate a <= winRate b /\
  (confidence (analyzePsychologicalState 0 a)
   <= confidence (analyzePsychologicalState 0 b))%Z.
Proof.
  intros a b.
  assert (Ha : a <> []) by discriminate.
  assert (Hb : b <> []) by discriminate.
  assert (Hw : winRate a <= winRate b) by (vm_compute; discriminate).
  split; [exact Ha|]. split; [exact Hb|]. split; [exact Hw|].
  exact (confidence_monotone_in_winRate 0 0 a b Ha Hb Hw).
Defined.

Ltac nodup_strings :=
  repeat (constructor; [cbn [In]; intuition discriminate|]); constructor.

Lemma winRateRule_recommendations (w : Q) (v : Verdict) :
  v_recommendations (winRateRule w v) = v_recommendations v.
Proof. unfold winRateRule. destruct (ge _ _); [|destruct (le _ _)]; reflexivity. Qed.

Lemma riskRule_recommendations (x : Q) (v : Verdict) :
  exists b1 b2,
    v_recommendations (riskRule x v)
    = v_recommendations v ++ opt b1 "Reduce risk per trade"
        ++ opt b2 "Consider increasing position size gradually"
    /\ (b1 && b2 = false).
Proof.
  unfold riskRule. destruct (gt _ _); [|destruct (lt _ _)].
  - exists true, false. cbn. now rewrite ?app_nil_r.
  - exists false, true. now cbn.
  - exists false, false. cbn. now rewrite ?app_nil_r.
Qed.

Lemma earlyExitRule_recommendations (trades : list Trade) (v : Verdict) :
  exists b,
    v_recommendations (earlyExitRule trades v)
    = v_recommendations v ++ opt b "Work on holding profitable trades longer".
Proof.
  unfold earlyExitRule. destruct (gt _ _).
  - now exists true.
  - exists false. cbn. now rewrite ?app_nil_r.
Qed.

Lemma stopLossRule_recommendations (trades : list Trade) (v : Verdict) :
  exists b,
    v_recommendations (stopLossRule trades v)
    = v_recommendations v ++ opt b "Review entry strategies and market analysis".
Proof.
  unfold stopLossRule. destruct (gt _ _).
  - now exists true.
  - exists false. cbn. now rewrite ?app_nil_r.
Qed.

Lemma targetRule_recommendations (a : Q) (v : Verdict) :
  exists b,
    v_recommendations (targetRule a v)
    = v_recommendations v ++ opt b "Improve trade management and target setting".
Proof.
  unfold targetRule. destruct (lt _ _).
  - now exists true.
  - exists false. cbn. now rewrite ?app_nil_r.
Qed.

Lemma defaultRule_recommendations (v : Verdict) :
  v_recommendations (defaultRule v)
  = match v_recommendations v with
    | [] => ["Continue current trading approach"%string]
    | l => l
    end.
Proof.
  unfold defaultRule. destruct (v_recommendations v) eqn:E; cbn.
  - now rewrite E.
  - exact E.
Qed.

(** X3.  The recommendations of a verdict: never empty, at most four, no
    repetition, and "Continue current trading approach" is there only
    as the single entry. *)
Theorem recommendations_shape (now : Timestamp) (trades : list Trade) :
  let recs := recommendations (analyzePsychologicalState now trades) in
  recs <> [] /\ (List.length recs <= 4)%nat /\ NoDup recs /\
  (In "Continue current trading approach"%string recs ->
   recs = ["Continue current trading approach"%string]).
Proof.
  destruct trades as [|t ts].
  - cbn. repeat split; try discriminate; try lia; try nodup_strings.
    intros [H|[]]. discriminate.
  - rewrite analyze_nonempty by discriminate. cbn zeta. cbn [recommendations].
    unfold verdict. rewrite defaultRule_recommendations.
    destruct (targetRule_recommendations
                (avg targetPercentAchieved (t :: ts))
                (stopLossRule (t :: ts)
                   (earlyExitRule (t :: ts)
                      (riskRule (avg riskPercentUsed (t :: ts))
                         (winRateRule (winRate (t :: ts)) baseline)))))
      as [b4 ->].
    destruct (stopLossRule_recommendations (t :: ts)
                (earlyExitRule (t :: ts)
                   (riskRule (avg riskPercentUsed (t :: ts))
                      (winRateRule (winRate (t :: ts)) baseline))))
      as [b3 ->].
    destruct (earlyExitRule_recommendations (t :: ts)
                (riskRule (avg riskPercentUsed (t :: ts))
                   (winRateRule (winRate (t :: ts)) baseline)))
      as [b2 ->].
    destruct (riskRule_recommendations (avg riskPercentUsed (t :: ts))
                (winRateRule (winRate (t :: ts)) baseline))
      as (b1 & b1' & -> & Hb).
    rewrite winRateRule_recommendations. cbn [baseline v_recommendations app].
    destruct b1, b1', b2, b3, b4; try discriminate Hb; cbn [opt app];
      (split; [discriminate|]); (split; [cbn; lia|]); (split; [nodup_strings|]);
      cbn [In]; intuition (try discriminate; try reflexivity).
Qed.

Lemma verdict_emotionalBalance (trades : list Trade) :
  v_emotionalBalance (verdict trades)
  = let e1 := if gt (fraction exitedEarly trades) 0.3
              then Math_max 30 (50 - 20) else 50 in
    if gt (fraction stopLossHit trades) 0.4 then Math_max 30 (e1 - 15) else e1.
Proof.
  assert (E0 : forall w x, v_emotionalBalance (riskRule x (winRateRule w baseline)) = 50).
  { intros w x. unfold riskRule, winRateRule, push, baseline.
    destruct (gt x 3); [|destruct (lt x 1)];
      (destruct (ge w 70); [|destruct (le w 30)]); reflexivity. }
  unfold verdict, defaultRule, targetRule.
  destruct (_ =? 0)%nat; destruct (lt _ 50);
    cbn [push v_emotionalBalance];
    unfold stopLossRule, earlyExitRule;
    destruct (gt (fraction stopLossHit trades) 0.4);
    destruct (gt (fraction exitedEarly trades) 0.3);
    cbn [push lowerBalance v_emotionalBalance]; now rewrite E0.
Qed.

(** X4.  The emotional balance takes three values only: 30 when more than
    30% of the trades were exited early, else 35 when more than 40%
    hit their stop loss, else 50. *)
Theorem emotionalBalance_values (now : Timestamp) (trades : list Trade) :
  trades <> [] ->
  let r := analyzePsychologicalState now trades in
  let early := fraction exitedEarly trades in
  let stops := fraction stopLossHit trades in
  (0.3 < early -> emotionalBalance r = 30%Z) /\
  (early <= 0.3 -> 0.4 < stops -> emotionalBalance r = 35%Z) /\
  (early <= 0.3 -> stops <= 0.4 -> emotionalBalance r = 50%Z).
Proof.
  intros Hne r early stops. subst r.
  rewrite (analyze_nonempty now trades Hne). cbn zeta. cbn [emotionalBalance].
  rewrite verdict_emotionalBalance. cbn zeta. fold early. fold stops.
  split; [|split].
  - intro H. apply gt_true in H. rewrite H.
    destruct (gt stops 0.4); apply Math_round_integer; unfold inject_Z;
      minmax_cases; lra.
  - intros H1 H2. apply gt_false in H1. apply gt_true in H2. rewrite H1, H2.
    apply Math_round_integer; unfold inject_Z; minmax_cases; lra.
  - intros H1 H2. apply gt_false in H1. apply gt_false in H2. rewrite H1, H2.
    apply Math_round_integer; unfold inject_Z; lra.
Qed.

Lemma emotionalBalance_values_witness :
  let trades := [trade 1 10 100 2 NY] in
  trades <> [] /\ fraction exitedEarly trades <= 0.3 /\
  fraction stopLossHit trades <= 0.4 /\
  emotionalBalance (analyzePsychologicalState 0 trades) = 50%Z.
Proof.
  intro trades.
  assert (H0 : trades <> []) by discriminate.
  assert (H1 : fraction exitedEarly trades <= 0.3) by (vm_compute; discriminate).
  assert (H2 : fraction stopLossHit trades <= 0.4) by (vm_compute; discriminate).
  split; [exact H0|]. split; [exact H1|]. split; [exact H2|].
  exact (proj2 (proj2 (emotionalBalance_values 0 trades H0)) H1 H2).
Defined.

(** X5.  A high win rate does not protect from the FEARFUL label: with a
    win rate of 70 or more and no trade using more than 0.5 the state
    is FEARFUL, although the confidence is at least 68 and the risk
    tolerance lies between 42 and 60. *)
Theorem fearful_with_high_winRate (now : Timestamp) (trades : list Trade) :
  trades <> [] -> 70 <= winRate trades ->
  Forall (fun t => riskPercentUsed t <= 0.5) trades ->
  let r := analyzePsychologicalState now trades in
  state r = FEARFUL /\
  (68 <= confidence r)%Z /\
  (42 <= riskTolerance r <= 60)%Z.
Proof.
  intros Hne Hw Hall r. subst r.
  pose proof (avg_at_most riskPercentUsed 0.5 trades Hne Hall) as Hr.
  pose proof (winRate_range trades) as [_ Hw100].
  rewrite (analyze_nonempty now trades Hne). cbn zeta.
  cbn [state confidence riskTolerance].
  rewrite verdict_confidence.
  destruct (verdict_extends trades) as (Hs & _ & Ht & _). rewrite Hs, Ht.
  assert (W : ge (winRate trades) 70 = true) by now apply ge_true.
  assert (G : gt (avg riskPercentUsed trades) 3 = false) by (apply gt_false; lra).
  assert (G' : lt (avg riskPercentUsed trades) 1 = true) by (apply lt_true; lra).
  unfold riskRule, winRateRule. rewrite W, G, G'.
  cbn [push v_state v_confidence v_riskTolerance].
  split; [reflexivity|]. split.
  - apply (Math_round_between 68 95); unfold inject_Z; minmax_cases; lra.
  - apply Math_round_between; unfold inject_Z; minmax_cases; lra.
Qed.

Lemma fearful_with_high_winRate_witness :
  let trades := [trade 1 10 50 0.5 NY; trade 2 20 50 0.25 NY] in
  trades <> [] /\ 70 <= winRate trades /\
  Forall (fun t => riskPercentUsed t <= 0.5) trades /\
  state (analyzePsychologicalState 0 trades) = FEARFUL.
Proof.
  intro trades.
  assert (H0 : trades <> []) by discriminate.
  assert (H1 : 70 <= winRate trades) by (vm_compute; discriminate).
  assert (H2 : Forall (fun t => riskPercentUsed t <= 0.5) trades).
  { repeat constructor; vm_compute; discriminate. }
  split; [exact H0|]. split; [exact H1|]. split; [exact H2|].
  exact (proj1 (fearful_with_high_winRate 0 trades H0 H1 H2)).
Defined.

(* ================================================================== *)
(** * Further properties of the forecaster *)
(* ================================================================== *)

Lemma sum_by_shift {A} (f : A -> Q) (xs : list A) (a : Q) :
  fold_left (fun sum x => sum + f x) xs a == a + sum_by f xs.
Proof.
  unfold sum_by. revert a. induction xs as [|x xs IH]; intro a; cbn.
  - lra.
  - rewrite (IH (a + f x)), (IH (0 + f x)). lra.
Qed.

Lemma sum_by_cons {A} (f : A -> Q) (x : A) (xs : list A) :
  sum_by f (x :: xs) == f x + sum_by f xs.
Proof. unfold sum_by at 1. cbn. rewrite sum_by_shift. lra. Qed.

Lemma sum_by_nonneg {A} (f : A -> Q) (xs : list A) :
  Forall (fun x => 0 <= f x) xs -> 0 <= sum_by f xs.
Proof.
  induction 1 as [|x xs Hx _ IH]; [cbn; lra|]. rewrite sum_by_cons. lra.
Qed.

Lemma sum_by_nonpos {A} (f : A -> Q) (xs : list A) :
  Forall (fun x => f x <= 0) xs -> sum_by f xs <= 0.
Proof.
  induction 1 as [|x xs Hx _ IH]; [cbn; lra|]. rewrite sum_by_cons. lra.
Qed.

Lemma sum_by_pos {A} (f : A -> Q) (xs : list A) :
  xs <> [] -> Forall (fun x => 0 < f x) xs -> 0 < sum_by f xs.
Proof.
  intros Hne H. destruct H as [|x xs Hx Hxs]; [congruence|].
  rewrite sum_by_cons.
  assert (0 <= sum_by f xs).
  { apply sum_by_nonneg. eapply Forall_impl; [|exact Hxs]. cbn. intros. lra. }
  lra.
Qed.

Lemma filter_all {A} (p : A -> bool) (xs : list A) :
  Forall (fun x => p x = true) xs -> filter p xs = xs.
Proof. induction 1 as [|x xs Hx _ IH]; cbn; [reflexivity|]. now rewrite Hx, IH. Qed.

Lemma filter_none {A} (p : A -> bool) (xs : list A) :
  Forall (fun x => p x = false) xs -> filter p xs = [].
Proof. induction 1 as [|x xs Hx _ IH]; cbn; [reflexivity|]. now rewrite Hx, IH. Qed.

Lemma winRatePct_all_winners (trades : list Trade) :
  trades <> [] -> Forall (fun t => 0 < profitLoss t) trades ->
  winRatePct trades == 100.
Proof.
  intros Hne H. unfold winRatePct, winningTrades.
  rewrite filter_all.
  - pose proof (len_pos trades Hne) as Hn. field. intro E. rewrite E in Hn. lra.
  - eapply Forall_impl; [|exact H]. intros t Ht. now apply gt_true.
Qed.

Lemma winRatePct_no_winner (trades : list Trade) :
  Forall (fun t => profitLoss t <= 0) trades -> winRatePct trades == 0.
Proof.
  intro H. unfold winRatePct, winningTrades.
  rewrite filter_none.
  - change (len (@nil Trade)) with 0. unfold Qdiv. ring.
  - eapply Forall_impl; [|exact H]. intros t Ht. now apply gt_false.
Qed.

Lemma avg_pos (field : Trade -> Q) (trades : list Trade) :
  trades <> [] -> Forall (fun t => 0 < field t) trades -> 0 < avg field trades.
Proof.
  intros Hne H. unfold avg. apply Qlt_shift_div_l; [now apply len_pos|].
  pose proof (sum_by_pos field trades Hne H). lra.
Qed.

Lemma avg_nonpos (field : Trade -> Q) (trades : list Trade) :
  trades <> [] -> Forall (fun t => field t <= 0) trades -> avg field trades <= 0.
Proof.
  intros Hne H. unfold avg. apply Qle_shift_div_r; [now apply len_pos|].
  pose proof (sum_by_nonpos field trades H). lra.
Qed.

(** X6.  A session in which every trade made a profit is forecast POSITIVE
    with a probability of at least 75, whatever the risk taken; a
    session in which no trade made a profit is forecast NEGATIVE with a
    probability of at most 25. *)
Theorem unanimous_session_forecast (trades : list Trade) (session : string) :
  trades <> [] ->
  let r := analyzeSessionForecast trades session in
  (Forall (fun t => 0 < profitLoss t) trades ->
   Forecast.forecast r = Dir.POSITIVE /\ (75 <= Forecast.probability r)%Z) /\
  (Forall (fun t => profitLoss t <= 0) trades ->
   Forecast.forecast r = Dir.NEGATIVE /\ (Forecast.probability r <= 25)%Z).
Proof.
  intros Hne r. subst r. unfold analyzeSessionForecast.
  rewrite length_eqb_nonempty by exact Hne.
  cbn [Forecast.forecast Forecast.probability].
  unfold tally, riskFactor, profitFactor, winRateFactor, addFactor, forecastOf, clamp.
  split; intro H.
  - pose proof (winRatePct_all_winners trades Hne H) as Hw.
    pose proof (avg_pos profitLoss trades Hne H) as Hp.
    assert (E1 : ge (winRatePct trades) 60 = true) by (apply ge_true; lra).
    assert (E2 : gt (avg profitLoss trades) 0 = true) by now apply gt_true.
    rewrite E1, E2. destruct (le _ 2); cbn; split; (reflexivity || lia).
  - pose proof (winRatePct_no_winner trades H) as Hw.
    pose proof (avg_nonpos profitLoss trades Hne H) as Hp.
    assert (E1 : ge (winRatePct trades) 60 = false) by (apply ge_false; lra).
    assert (E1' : le (winRatePct trades) 40 = true) by (apply le_true; lra).
    assert (E2 : gt (avg profitLoss trades) 0 = false) by now apply gt_false.
    rewrite E1, E1', E2. destruct (le _ 2); cbn; split; (reflexivity || lia).
Qed.

Lemma unanimous_session_forecast_witness :
  let trades := [trade 1 10 100 5 NY; trade 2 20 30 5 NY] in
  trades <> [] /\ Forall (fun t => 0 < profitLoss t) trades /\
  Forecast.forecast (analyzeSessionForecast trades "NY") = Dir.POSITIVE.
Proof.
  intro trades.
  assert (H0 : trades <> []) by discriminate.
  assert (H1 : Forall (fun t => 0 < profitLoss t) trades)
    by (repeat constructor).
  split; [exact H0|]. split; [exact H1|].
  exact (proj1 (proj1 (unanimous_session_forecast trades "NY" H0) H1)).
Defined.

(** X7.  The parts of a forecast agree with each other.  The label follows
    the returned probability (POSITIVE from 65 up, NEGATIVE up to 35);
    there are exactly two recommendations; the factors are the
    profitability and the risk factor, preceded by the win-rate factor
    exactly when the win rate is at least 60 or at most 40, and their
    weights add up to 1 with it and to 0.6 without. *)
Theorem forecast_is_coherent (trades : list Trade) (session : string) :
  trades <> [] ->
  let r := analyzeSessionForecast trades session in
  let w := winRatePct trades in
  (Forecast.forecast r = Dir.POSITIVE <-> (65 <= Forecast.probability r)%Z) /\
  (Forecast.forecast r = Dir.NEGATIVE <-> (Forecast.probability r <= 35)%Z) /\
  List.length (Forecast.recommendations r) = 2%nat /\
  (60 <= w \/ w <= 40 ->
   map Forecast.factor (Forecast.factors r)
   = ["Historical win rate"; "Average profitability"; "Risk management"]%string
   /\ totalWeight (Forecast.factors r) == 1) /\
  (40 < w -> w < 60 ->
   map Forecast.factor (Forecast.factors r)
   = ["Average profitability"; "Risk management"]%string
   /\ totalWeight (Forecast.factors r) == 0.6).
Proof.
  intros Hne r w. subst r. unfold analyzeSessionForecast.
  rewrite length_eqb_nonempty by exact Hne.
  cbn [Forecast.forecast Forecast.probability Forecast.recommendations
       Forecast.factors].
  unfold tally, riskFactor, profitFactor, winRateFactor, addFactor. fold w.
  cmp_cases; cbn [t_probability t_factors app map Forecast.factor];
    (split; [|split; [|split; [|split]]]);
    first
      [ reflexivity
      | solve [cbn; split; intro Hx;
               first [reflexivity | discriminate Hx | lia | exfalso; lia]]
      | solve [intros [Hx|Hx];
               first [exfalso; lra | split; [reflexivity | vm_compute; reflexivity]]]
      | solve [intros Hx Hy;
               first [exfalso; lra | split; [reflexivity | vm_compute; reflexivity]]] ].
Qed.

Lemma forecast_is_coherent_witness :
  let trades := [trade 1 10 100 2 NY; trade 2 20 (-50) 2 NY] in
  trades <> [] /\ 40 < winRatePct trades /\ winRatePct trades < 60 /\
  map Forecast.factor (Forecast.factors (analyzeSessionForecast trades "NY"))
  = ["Average profitability"; "Risk management"]%string.
Proof.
  intro trades.
  assert (H0 : trades <> []) by discriminate.
  assert (H1 : 40 < winRatePct trades) by (vm_compute; reflexivity).
  assert (H2 : winRatePct trades < 60) by (vm_compute; reflexivity).
  split; [exact H0|]. split; [exact H1|]. split; [exact H2|].
  exact (proj1 (proj2 (proj2 (proj2 (proj2
           (forecast_is_coherent trades "NY" H0)))) H1 H2)).
Defined.

(* ================================================================== *)
(** * Further properties of the performance insights *)
(* ================================================================== *)

Lemma fraction_range (flag : Trade -> bool) (trades : list Trade) :
  trades <> [] -> 0 <= fraction flag trades /\ fraction flag trades <= 1.
Proof.
  intro H. unfold fraction.
  pose proof (len_pos trades H) as Hn.
  pose proof (len_filter_le flag trades) as Hw.
  pose proof (len_nonneg (filter flag trades)) as Hw0.
  split; [apply Qle_shift_div_l | apply Qle_shift_div_r]; lra.
Qed.

Ltac tidy_step :=
  split;
  cbn [pushInsight pushPattern pushRecommendation f_insights f_patterns
       f_recommendations];
  rewrite ?length_app, ?filter_app, ?length_app; cbn [List.length filter isWeakness
       Insight.type];
  try lia;
  try (apply Forall_app; split; [assumption|]; repeat constructor;
       cbn [Insight.confidence Insight.frequency Insight.correlation]);
  try assumption.

Lemma winRateInsight_tidy (w : Q) (ni np : nat) (f : Findings) :
  0 <= w -> w <= 100 -> tidy ni np f -> tidy (S ni) np (winRateInsight w f).
Proof.
  intros H0 H1 [Hi Hp Hc Hf Hr]. unfold winRateInsight.
  destruct (ge w 70) eqn:E; [apply ge_true in E|].
  - tidy_step; apply (Math_round_between 70 100); unfold inject_Z; lra.
  - destruct (le w 30) eqn:E'; [apply le_true in E'|].
    + tidy_step; apply (Math_round_between 70 100); unfold inject_Z; lra.
    + split; auto.
Qed.

Lemma riskInsight_tidy (x : Q) (ni np : nat) (f : Findings) :
  tidy ni np f -> tidy (S ni) np (riskInsight x f).
Proof.
  intros [Hi Hp Hc Hf Hr]. unfold riskInsight.
  destruct (le x 2); [tidy_step; lia|].
  destruct (gt x 3); [tidy_step; lia|]. split; auto.
Qed.

Lemma riskRewardInsight_tidy (x : Q) (ni np : nat) (f : Findings) :
  tidy ni np f -> tidy (S ni) np (riskRewardInsight x f).
Proof.
  intros [Hi Hp Hc Hf Hr]. unfold riskRewardInsight.
  destruct (ge x 1.5); [tidy_step; lia|].
  destruct (lt x 1); [tidy_step; lia|]. split; auto.
Qed.

Lemma earlyExitPattern_tidy (trades : list Trade) (ni np : nat) (f : Findings) :
  trades <> [] -> tidy ni np f -> tidy ni (S np) (earlyExitPattern trades f).
Proof.
  intros Hne [Hi Hp Hc Hf Hr]. unfold earlyExitPattern.
  destruct (fraction_range exitedEarly trades Hne) as [F0 F1].
  destruct (gt _ 0.3) eqn:E; [apply gt_true in E|split; auto].
  assert (Hm : (30 <= Math_round (fraction exitedEarly trades * 100) <= 100)%Z)
    by (apply Math_round_between; unfold inject_Z; lra).
  tidy_step; try lra; lia.
Qed.

Lemma stopLossPattern_tidy (trades : list Trade) (ni np : nat) (f : Findings) :
  trades <> [] -> tidy ni np f -> tidy ni (S np) (stopLossPattern trades f).
Proof.
  intros Hne [Hi Hp Hc Hf Hr]. unfold stopLossPattern.
  destruct (fraction_range stopLossHit trades Hne) as [F0 F1].
  destruct (gt _ 0.4) eqn:E; [apply gt_true in E|split; auto].
  assert (Hm : (30 <= Math_round (fraction stopLossHit trades * 100) <= 100)%Z)
    by (apply Math_round_between; unfold inject_Z; lra).
  tidy_step; try lra; lia.
Qed.

Lemma sessionInsight_tidy (trades : list Trade) (best : Session) (ni np : nat)
  (f : Findings) :
  tidy ni np f -> tidy (S ni) np (sessionInsight trades best f).
Proof.
  intros [Hi Hp Hc Hf Hr]. unfold sessionInsight.
  destruct (dominates _ _); [tidy_step; lia | split; auto].
Qed.

(** The findings of a non-empty trade list before the default
    recommendations. *)
Lemma findings_tidy (trades : list Trade) (best : Session) :
  trades <> [] ->
  tidy 4 2
    (sessionInsight trades best
       (stopLossPattern trades
          (earlyExitPattern trades
             (riskRewardInsight (avg riskRewardAchieved trades)
                (riskInsight (avg riskPercentUsed trades)
                   (winRateInsight (winRatePct trades) (mkFindings [] [] []))))))).
Proof.
  intro Hne. destruct (winRatePct_range trades Hne) as [W0 W1].
  apply sessionInsight_tidy, stopLossPattern_tidy, earlyExitPattern_tidy,
    riskRewardInsight_tidy, riskInsight_tidy, winRateInsight_tidy; auto.
  split; cbn; auto.
Qed.

Lemma analyzePerformanceInsights_nonempty (trades : list Trade) (period : string) :
  trades <> [] ->
  exists best,
    bestSession trades = Ok best /\
    lastMax (fun s => occurrences Session_eqb s (map session trades))
            (firstSeen Session_eqb (map session trades)) best /\
    analyzePerformanceInsights trades period =
      let f :=
        defaultRecommendations
          (sessionInsight trades best
             (stopLossPattern trades
                (earlyExitPattern trades
                   (riskRewardInsight (avg riskRewardAchieved trades)
                      (riskInsight (avg riskPercentUsed trades)
                         (winRateInsight (winRatePct trades)
                            (mkFindings [] [] []))))))) in
      Ok {| Insight.period := period;
            Insight.insights := f_insights f;
            Insight.patterns := f_patterns f;
            Insight.recommendations := f_recommendations f |}.
Proof.
  intro Hne. destruct (bestSession_ok trades Hne) as (best & Hb & Hl).
  exists best. split; [exact Hb|]. split; [exact Hl|].
  unfold analyzePerformanceInsights. rewrite length_eqb_nonempty by exact Hne.
  rewrite Hb. reflexivity.
Qed.

(** X8.  The report keeps the ranges of its data model for every trade
    list: at most four insights, each with a confidence from 70 to 100;
    at most two patterns, each with a frequency from 30 to 100 and a
    correlation from -1 to 0. *)
Theorem report_within_ranges (trades : list Trade) (period : string) :
  exists r,
    analyzePerformanceInsights trades period = Ok r /\
    (List.length (Insight.insights r) <= 4)%nat /\
    (List.length (Insight.patterns r) <= 2)%nat /\
    Forall (fun i => (70 <= Insight.confidence i <= 100)%Z) (Insight.insights r) /\
    Forall (fun p => (30 <= Insight.frequency p <= 100)%Z
                     /\ -1 <= Insight.correlation p /\ Insight.correlation p <= 0)
           (Insight.patterns r).
Proof.
  destruct trades as [|t ts].
  - eexists. split; [reflexivity|].
    cbn [Insight.insights Insight.patterns List.length].
    split; [lia|]. split; [lia|].
    split; [constructor; [cbn; lia | constructor] | constructor].
  - destruct (analyzePerformanceInsights_nonempty (t :: ts) period)
      as (best & _ & _ & ->); [discriminate|].
    eexists. split; [reflexivity|].
    cbn [Insight.insights Insight.patterns].
    destruct (findings_tidy (t :: ts) best) as [Hi Hp Hc Hf Hr]; [discriminate|].
    unfold defaultRecommendations.
    match goal with
    | |- context [(List.length ?l =? 0)%nat] => destruct (List.length l =? 0)%nat
    end; cbn [pushRecommendation f_insights f_patterns]; auto.
Qed.

(** X9.  Every WEAKNESS insight and every pattern comes with one
    recommendation, and the two default recommendations appear exactly
    when there is neither. *)
Theorem recommendations_paired (trades : list Trade) (period : string) :
  trades <> [] ->
  exists r,
    analyzePerformanceInsights trades period = Ok r /\
    let k := (List.length (filter isWeakness (Insight.insights r))
              + List.length (Insight.patterns r))%nat in
    (k = 0%nat ->
     Insight.recommendations r
     = ["Continue current trading approach";
        "Monitor performance metrics regularly"]%string) /\
    ((0 < k)%nat -> List.length (Insight.recommendations r) = k).
Proof.
  intro Hne.
  destruct (analyzePerformanceInsights_nonempty trades period Hne)
    as (best & _ & _ & ->).
  eexists. split; [reflexivity|].
  cbn [Insight.insights Insight.patterns Insight.recommendations].
  destruct (findings_tidy trades best Hne) as [_ _ _ _ Hr].
  match goal with
  | |- context [defaultRecommendations ?F] => set (F0 := F) in *
  end.
  unfold defaultRecommendations.
  destruct (f_recommendations F0) as [|x l'] eqn:El;
    cbn [List.length Nat.eqb pushRecommendation f_insights f_patterns
         f_recommendations].
  - rewrite El. cbn [app]. cbn [List.length] in Hr.
    split; [reflexivity | intro H].
    cbn [pushRecommendation f_insights f_patterns] in H. lia.
  - rewrite El. split; [intro H | intro; exact Hr].
    cbn [pushRecommendation f_insights f_patterns List.length] in *. lia.
Qed.

Lemma recommendations_paired_witness :
  let trades := [trade 1 10 (-100) 5 NY; trade 2 20 (-50) 5 LONDON] in
  trades <> [] /\
  exists r, analyzePerformanceInsights trades "MONTH" = Ok r /\
    List.length (Insight.recommendations r) = 2%nat.
Proof.
  intro trades.
  assert (H0 : trades <> []) by discriminate.
  split; [exact H0|].
  destruct (recommendations_paired trades "MONTH" H0) as (r & Hr & _ & Hk).
  exists r. split; [exact Hr|].
  rewrite Hk; unfold trades in Hr; vm_compute in Hr; injection Hr as <-;
    vm_compute; reflexivity || lia.
Defined.

Section OccurrenceFacts.
Context {K : Type} (eqb : K -> K -> bool).
Hypothesis eqb_spec : forall a b, eqb a b = true <-> a = b.

Lemma occurrences_nonneg (k : K) (xs : list K) : (0 <= occurrences eqb k xs)%Z.
Proof. induction xs as [|x xs IH]; cbn; [lia|]. destruct (eqb k x); lia. Qed.

Lemma occurrences_In (k : K) (xs : list K) :
  (0 < occurrences eqb k xs)%Z <-> In k xs.
Proof.
  induction xs as [|x xs IH]; cbn; [split; [lia | tauto]|].
  pose proof (occurrences_nonneg k xs).
  destruct (eqb k x) eqn:E.
  - apply eqb_spec in E. subst. split; [now left | lia].
  - rewrite (eqb_neq eqb eqb_spec) in E. split.
    + intro H0. right. apply IH. lia.
    + intros [H0|H0]; [congruence|]. apply IH in H0. lia.
Qed.

Lemma occurrences_two (a b : K) (xs : list K) :
  a <> b ->
  (occurrences eqb a xs + occurrences eqb b xs <= Z.of_nat (List.length xs))%Z.
Proof.
  intro Hab. induction xs as [|x xs IH]; cbn [occurrences List.length]; [lia|].
  destruct (eqb a x) eqn:Ea; destruct (eqb b x) eqn:Eb; try lia.
  apply eqb_spec in Ea. apply eqb_spec in Eb. congruence.
Qed.

Lemma In_see (k x : K) (seen : list K) :
  In k (see eqb seen x) <-> In k seen \/ k = x.
Proof.
  unfold see. destruct (existsb (eqb x) seen) eqn:E.
  - apply existsb_exists in E. destruct E as (y & Hy & Exy).
    apply eqb_spec in Exy. subst y. split; [auto|].
    intros [H|H]; [exact H | now subst].
  - rewrite in_app_iff. cbn. split; intros [H|H]; auto.
    destruct H as [H|[]]. auto.
Qed.

Lemma In_fold_see (k : K) (xs seen : list K) :
  In k (fold_left (see eqb) xs seen) <-> In k seen \/ In k xs.
Proof.
  revert seen. induction xs as [|x xs IH]; intro seen; cbn [fold_left In].
  - tauto.
  - rewrite IH, In_see. split; intros H; intuition auto.
Qed.

Lemma In_firstSeen (k : K) (xs : list K) : In k (firstSeen eqb xs) <-> In k xs.
Proof. unfold firstSeen. rewrite In_fold_see. cbn. tauto. Qed.

(** A value that makes up more than half of [xs] is the one [max_key]
    picks. *)
Lemma lastMax_majority (k best : K) (xs : list K) :
  (Z.of_nat (List.length xs) < 2 * occurrences eqb k xs)%Z ->
  lastMax (fun s => occurrences eqb s xs) (firstSeen eqb xs) best ->
  best = k.
Proof.
  intros Hk (before & after & Hkeys & Hb & Ha).
  destruct (eqb best k) eqn:E; [now apply eqb_spec|].
  rewrite (eqb_neq eqb eqb_spec) in E.
  pose proof (occurrences_two best k xs E) as H2.
  assert (Hin : In k (firstSeen eqb xs)).
  { apply In_firstSeen, occurrences_In. pose proof (Zle_0_nat (List.length xs)). lia. }
  rewrite Hkeys in Hin. apply in_app_or in Hin.
  destruct Hin as [Hin|[Hin|Hin]].
  - specialize (Hb _ Hin). lia.
  - congruence.
  - specialize (Ha _ Hin). lia.
Qed.

(** The count of the value [max_key] picks is the highest. *)
Lemma lastMax_highest (k best : K) (xs : list K) :
  lastMax (fun s => occurrences eqb s xs) (firstSeen eqb xs) best ->
  (occurrences eqb k xs <= occurrences eqb best xs)%Z.
Proof.
  intros (before & after & Hkeys & Hb & Ha).
  destruct (Z_le_gt_dec (occurrences eqb k xs) 0) as [H0|H0].
  - pose proof (occurrences_nonneg best xs). lia.
  - assert (Hin : In k (firstSeen eqb xs))
      by (apply In_firstSeen, occurrences_In; lia).
    rewrite Hkeys in Hin. apply in_app_or in Hin.
    destruct Hin as [Hin|[Hin|Hin]].
    + now apply Hb.
    + subst. lia.
    + specialize (Ha _ Hin). lia.
Qed.

End OccurrenceFacts.

Lemma graded_push (i : Insight.t) (f : Findings) :
  Insight.type i <> Insight.OPPORTUNITY -> graded f -> graded (pushInsight i f).
Proof.
  intros Hi Hf. unfold graded, pushInsight. cbn [f_insights].
  apply Forall_app. split; [exact Hf | now repeat constructor].
Qed.

Lemma winRateInsight_graded (w : Q) (f : Findings) :
  graded f -> graded (winRateInsight w f).
Proof.
  intro H. unfold winRateInsight.
  destruct (ge w 70); [apply graded_push; [discriminate | exact H]|].
  destruct (le w 30); [|exact H].
  apply (graded_push _ f); [discriminate | exact H].
Qed.

Lemma riskInsight_graded (x : Q) (f : Findings) :
  graded f -> graded (riskInsight x f).
Proof.
  intro H. unfold riskInsight.
  destruct (le x 2); [apply graded_push; [discriminate | exact H]|].
  destruct (gt x 3); [|exact H].
  apply (graded_push _ f); [discriminate | exact H].
Qed.

Lemma riskRewardInsight_graded (x : Q) (f : Findings) :
  graded f -> graded (riskRewardInsight x f).
Proof.
  intro H. unfold riskRewardInsight.
  destruct (ge x 1.5); [apply graded_push; [discriminate | exact H]|].
  destruct (lt x 1); [|exact H].
  apply (graded_push _ f); [discriminate | exact H].
Qed.

Lemma earlyExitPattern_graded (trades : list Trade) (f : Findings) :
  graded f -> graded (earlyExitPattern trades f).
Proof. intro H. unfold earlyExitPattern. now destruct (gt _ _). Qed.

Lemma stopLossPattern_graded (trades : list Trade) (f : Findings) :
  graded f -> graded (stopLossPattern trades f).
Proof. intro H. unfold stopLossPattern. now destruct (gt _ _). Qed.

Lemma graded_before_sessions (trades : list Trade) :
  graded
    (stopLossPattern trades
       (earlyExitPattern trades
          (riskRewardInsight (avg riskRewardAchieved trades)
             (riskInsight (avg riskPercentUsed trades)
                (winRateInsight (winRatePct trades) (mkFindings [] [] [])))))).
Proof.
  apply stopLossPattern_graded, earlyExitPattern_graded, riskRewardInsight_graded,
    riskInsight_graded, winRateInsight_graded. constructor.
Qed.

Lemma Qlt_div_iff (a b c : Q) : 0 < c -> (a < b / c <-> a * c < b).
Proof.
  intro Hc. split; intro H.
  - apply Qnot_le_lt. intro L.
    assert (b / c <= a) by (apply Qle_shift_div_r; assumption). lra.
  - now apply Qlt_shift_div_l.
Qed.

Lemma sessionCounts_get (trades : list Trade) (s : Session) :
  In s (map session trades) ->
  get Session_eqb (sessionCounts trades) s
  = Some (occurrences Session_eqb s (map session trades)).
Proof.
  intro H. unfold sessionCounts.
  pose proof (get_count_all Session_eqb Session_eqb_spec (map session trades) s) as Hc.
  apply (In_firstSeen Session_eqb Session_eqb_spec) in H.
  rewrite <- keys_count_all in H.
  apply (get_In Session_eqb Session_eqb_spec) in H. destruct H as [n Hn].
  rewrite Hn in *. rewrite or0_Some in Hc. now subst.
Qed.

Lemma dominates_spec (trades : list Trade) (s : Session) :
  trades <> [] -> In s (map session trades) ->
  (dominates trades s = true <->
   (Z.of_nat (List.length trades)
    < 2 * occurrences Session_eqb s (map session trades))%Z).
Proof.
  intros Hne Hin. unfold dominates. rewrite (sessionCounts_get trades s Hin).
  rewrite gt_true, (Qlt_div_iff _ _ _ (len_pos trades Hne)).
  unfold len. rewrite Zlt_Qlt, inject_Z_mult.
  change (inject_Z 2) with 2. split; intro H; lra.
Qed.

Lemma sessionNote_inj (a b : Session) : sessionNote a = sessionNote b -> a = b.
Proof. destruct a, b; cbn; intro H; (reflexivity || discriminate H). Qed.

(** X10.  The OPPORTUNITY insight "Strong performance in S session" is
    reported exactly when session S holds more than half of the trades
    (it reflects the number of trades, not their results). *)
Theorem session_insight_iff_majority (trades : list Trade) (period : string)
  (s : Session) :
  trades <> [] ->
  exists r,
    analyzePerformanceInsights trades period = Ok r /\
    (In (sessionNote s) (Insight.insights r) <->
     (Z.of_nat (List.length trades)
      < 2 * occurrences Session_eqb s (map session trades))%Z).
Proof.
  intro Hne.
  destruct (analyzePerformanceInsights_nonempty trades period Hne)
    as (best & _ & Hlast & ->).
  eexists. split; [reflexivity|]. cbn [Insight.insights].
  assert (Hbest : In best (map session trades)).
  { destruct Hlast as (before & after & Hk & _).
    apply (In_firstSeen Session_eqb Session_eqb_spec). rewrite Hk.
    apply in_or_app. right. now left. }
  pose proof (graded_before_sessions trades) as Hg.
  match goal with
  | |- context [sessionInsight trades best ?F] => set (F5 := F) in *
  end.
  assert (Hins : f_insights (defaultRecommendations (sessionInsight trades best F5))
                 = f_insights (sessionInsight trades best F5)).
  { unfold defaultRecommendations. now destruct (_ =? 0)%nat. }
  rewrite Hins. unfold sessionInsight. fold (sessionNote best).
  split.
  - intro H. destruct (dominates trades best) eqn:D.
    + cbn [pushInsight f_insights] in H. apply in_app_or in H.
      destruct H as [H|[H|[]]].
      * unfold graded in Hg. rewrite Forall_forall in Hg.
        specialize (Hg _ H). cbn in Hg. congruence.
      * apply sessionNote_inj in H. subst s.
        now apply (dominates_spec trades best Hne Hbest).
    + unfold graded in Hg. rewrite Forall_forall in Hg.
      specialize (Hg _ H). cbn in Hg. congruence.
  - intro H.
    assert (best = s).
    { apply (lastMax_majority Session_eqb Session_eqb_spec s best
               (map session trades)); [|exact Hlast].
      now rewrite length_map. }
    subst s.
    apply (dominates_spec trades best Hne Hbest) in H. rewrite H.
    cbn [pushInsight f_insights]. apply in_or_app. right. now left.
Qed.

Lemma session_insight_iff_majority_witness :
  let trades := [trade 1 10 100 2 NY; trade 2 20 (-50) 2 NY; trade 3 30 5 2 ASIA] in
  trades <> [] /\
  exists r, analyzePerformanceInsights trades "MONTH" = Ok r /\
            In (sessionNote NY) (Insight.insights r).
Proof.
  intro trades.
  assert (H0 : trades <> []) by discriminate.
  split; [exact H0|].
  destruct (session_insight_iff_majority trades "MONTH" NY H0) as (r & Hr & Hiff).
  exists r. split; [exact Hr|]. apply Hiff. vm_compute. reflexivity.
Defined.

(* ================================================================== *)
(** * Further properties of the state history *)
(* ================================================================== *)

Lemma adjacent_snoc {A} (R : A -> A -> Prop) (h : list A) (e x : A) :
  adjacent R (h ++ [e]) -> R e x -> adjacent R ((h ++ [e]) ++ [x]).
Proof.
  intros H Hx. induction h as [|a h IH]; cbn in *; [auto|].
  destruct (h ++ [e]) as [|b t] eqn:E.
  - destruct h; discriminate.
  - cbn in *. destruct H as [Hab Ht]. split; [exact Hab | now apply IH].
Qed.

Lemma adjacent_snoc_all {A} (R : A -> A -> Prop) (l : list A) (x : A) :
  adjacent R l -> Forall (fun e => R e x) l -> adjacent R (l ++ [x]).
Proof.
  intros H Hx. destruct l as [|a l] using rev_ind; [exact I|].
  apply adjacent_snoc; [exact H|].
  apply Forall_app in Hx. destruct Hx as [_ Hx]. now inversion Hx.
Qed.

Lemma significant_differs (last st : PsychologicalStateResult) (e e' : History.Entry) :
  significant (Some last) st = true ->
  History.state e = state last -> History.confidence e = confidence last ->
  History.state e' = state st -> History.confidence e' = confidence st ->
  differs e e'.
Proof.
  unfold significant, differs. intros H -> -> -> ->.
  apply orb_true_iff in H. destruct H as [H|H].
  - left. intro E. rewrite E in H.
    assert (PsyState_eqb (state st) (state st) = true) by now apply PsyState_eqb_spec.
    rewrite H0 in H. discriminate.
  - right. now apply Z.ltb_lt.
Qed.

Lemma replayStep_differs (now : Timestamp) (sorted : list Trade) (i : nat)
  (trade : Trade) (r : Replay) :
  tracked r -> adjacent differs (r_history r) ->
  tracked (replayStep now sorted i trade r)
  /\ adjacent differs (r_history (replayStep now sorted i trade r)).
Proof.
  intros Ht Ha. unfold replayStep.
  destruct (significant _ _) eqn:S; [|auto].
  split.
  - unfold tracked. cbn [r_lastState r_history]. eexists _, _. split; [reflexivity|].
    cbn. auto.
  - cbn [r_history]. unfold tracked in Ht.
    destruct (r_lastState r) as [last|].
    + destruct Ht as (h & e & Hh & Hs & Hc). rewrite Hh in *.
      apply adjacent_snoc; [exact Ha|].
      eapply significant_differs; eauto.
    + rewrite Ht. exact I.
Qed.

Lemma replayFrom_differs (now : Timestamp) (sorted : list Trade) (limit : Z)
  (fuel i : nat) (r : Replay) :
  tracked r -> adjacent differs (r_history r) ->
  adjacent differs (r_history (replayFrom now sorted limit fuel i r)).
Proof.
  revert i r. induction fuel as [|fuel IH]; intros i r Ht Ha; cbn [replayFrom];
    [exact Ha|].
  destruct (nth_error sorted i) as [trade|]; [|exact Ha].
  destruct (_ <? limit)%Z; [|exact Ha].
  destruct (replayStep_differs now sorted i trade r Ht Ha) as [Ht' Ha'].
  now apply IH.
Qed.

(** X11.  No two consecutive entries of the history repeat each other: each
    entry differs from the one before in state, or by more than 15 in
    confidence. *)
Theorem history_entries_differ (now : Timestamp) (trades : list Trade)
  (limit : Z) (r : History.t) :
  analyzeStateHistory now trades limit = Ok r ->
  adjacent differs (History.history r).
Proof.
  intro Hr. destruct trades as [|t ts].
  - cbn in Hr. injection Hr as <-. exact I.
  - destruct (Z_le_gt_dec 1 limit) as [Hl|Hl].
    + destruct (analyzeStateHistory_ok now (t :: ts) limit) as (m & _ & Hm);
        [discriminate | exact Hl|].
      rewrite Hm in Hr. injection Hr as <-. cbn [History.history].
      apply replayFrom_differs; [reflexivity | exact I].
    + rewrite analyzeStateHistory_throws in Hr by (try discriminate; lia).
      discriminate.
Qed.

Lemma history_entries_differ_witness :
  exists r, analyzeStateHistory 0 swingTrades 50 = Ok r /\
            adjacent differs (History.history r).
Proof.
  destruct (analyzeStateHistory 0 swingTrades 50) as [r|e] eqn:E.
  - exists r. split; [reflexivity|].
    exact (history_entries_differ 0%Z swingTrades 50%Z r E).
  - vm_compute in E. discriminate.
Defined.

(* ------------------------------------------------------------------ *)
(** ** Chronology and provenance of the entries *)

Lemma chronological_trans (a b c : Trade) :
  chronological a b -> chronological b c -> chronological a c.
Proof. unfold chronological. lia. Qed.

Lemma sort_strongly_sorted (trades : list Trade) :
  StronglySorted chronological (sort byEntryTime trades).
Proof.
  apply Sorted_StronglySorted; [|apply sort_sorted].
  intros a b c. apply chronological_trans.
Qed.

Lemma StronglySorted_nth {A} (R : A -> A -> Prop) (l : list A) (i j : nat) (a b : A) :
  StronglySorted R l -> (i < j)%nat ->
  nth_error l i = Some a -> nth_error l j = Some b -> R a b.
Proof.
  intro H. revert i j. induction H as [|x l Hs IH Hx]; intros i j Hij Ha Hb.
  - destruct i; discriminate.
  - destruct j as [|j]; [lia|]. cbn in Hb. destruct i as [|i]; cbn in Ha.
    + injection Ha as <-. rewrite Forall_forall in Hx. apply Hx.
      eapply nth_error_In; eauto.
    + apply (IH i j); auto. lia.
Qed.

Lemma replayStep_ordered (now : Timestamp) (sorted : list Trade) (i : nat)
  (trade : Trade) (r : Replay) :
  StronglySorted chronological sorted ->
  nth_error sorted i = Some trade ->
  ordered sorted i r -> ordered sorted (S i) (replayStep now sorted i trade r).
Proof.
  intros Hs Hi [Ha Hb Hf]. unfold replayStep.
  destruct (significant _ _).
  - split; cbn [r_history].
    + apply adjacent_snoc_all; [exact Ha|].
      eapply Forall_impl; [|exact Hb]. intros e He. unfold notAfter. cbn.
      apply (He i trade); [lia | exact Hi].
    + apply Forall_app. split.
      * eapply Forall_impl; [|exact Hb]. intros e He j t Hj Ht.
        apply (He j t); [lia | exact Ht].
      * constructor; [|constructor]. intros j t Hj Ht. cbn.
        apply (StronglySorted_nth chronological sorted i j trade t Hs); auto.
    + apply Forall_app. split; [exact Hf|]. constructor; [|constructor].
      exists trade. split; [eapply nth_error_In; eauto|]. cbn. auto 10.
  - split; auto.
    eapply Forall_impl; [|exact Hb]. intros e He j t Hj Ht.
    apply (He j t); [lia | exact Ht].
Qed.

Lemma replayFrom_ordered (now : Timestamp) (sorted : list Trade) (limit : Z)
  (fuel i : nat) (r : Replay) :
  StronglySorted chronological sorted ->
  ordered sorted i r ->
  exists i', ordered sorted i' (replayFrom now sorted limit fuel i r).
Proof.
  intro Hs. revert i r. induction fuel as [|fuel IH]; intros i r H; cbn [replayFrom];
    [eauto|].
  destruct (nth_error sorted i) as [trade|] eqn:E; [|eauto].
  destruct (_ <? limit)%Z; [|eauto].
  apply (IH (S i)). now apply replayStep_ordered.
Qed.

Lemma fromTrade_perm (a b : list Trade) (e : History.Entry) :
  Permutation a b -> fromTrade a e -> fromTrade b e.
Proof.
  intros Hp (t & Hin & H). exists t. split; [|exact H].
  eapply Permutation_in; eauto.
Qed.

Lemma analyzeStateHistory_fromTrade (now : Timestamp) (trades : list Trade)
  (limit : Z) (r : History.t) :
  analyzeStateHistory now trades limit = Ok r ->
  Forall (fromTrade trades) (History.history r).
Proof.
  intro Hr. destruct trades as [|t ts].
  - cbn in Hr. injection Hr as <-. constructor.
  - destruct (Z_le_gt_dec 1 limit) as [Hl|Hl].
    + destruct (analyzeStateHistory_ok now (t :: ts) limit) as (m & _ & Hm);
        [discriminate | exact Hl|].
      rewrite Hm in Hr. injection Hr as <-. cbn [History.history].
      destruct (replayFrom_ordered now (sort byEntryTime (t :: ts)) limit
                  (List.length (sort byEntryTime (t :: ts))) 0 replayStart
                  (sort_strongly_sorted (t :: ts)))
        as (i' & [_ _ Hf]).
      { split; constructor. }
      eapply Forall_impl; [|exact Hf]. intros e He.
      eapply fromTrade_perm; [|exact He].
      apply Permutation_sym, sort_perm.
    + rewrite analyzeStateHistory_throws in Hr by (try discriminate; lia).
      discriminate.
Qed.

(** X12.  Trades handed over in any order come out in time order: the
    timestamps of the history never decrease, and every entry carries
    the entry time, identifier, profit or loss, risk and trigger of one
    of the trades handed over. *)
Theorem history_is_chronological (now : Timestamp) (trades : list Trade)
  (limit : Z) (r : History.t) :
  analyzeStateHistory now trades limit = Ok r ->
  adjacent notAfter (History.history r) /\
  Forall (fromTrade trades) (History.history r).
Proof.
  intro Hr. destruct trades as [|t ts].
  - cbn in Hr. injection Hr as <-. cbn. auto.
  - destruct (Z_le_gt_dec 1 limit) as [Hl|Hl].
    + destruct (analyzeStateHistory_ok now (t :: ts) limit) as (m & _ & Hm);
        [discriminate | exact Hl|].
      rewrite Hm in Hr. injection Hr as <-. cbn [History.history].
      destruct (replayFrom_ordered now (sort byEntryTime (t :: ts)) limit
                  (List.length (sort byEntryTime (t :: ts))) 0 replayStart
                  (sort_strongly_sorted (t :: ts)))
        as (i' & [Ha _ Hf]).
      { split; constructor. }
      split; [exact Ha|].
      eapply Forall_impl; [|exact Hf]. intros e He.
      eapply fromTrade_perm; [|exact He].
      apply Permutation_sym, sort_perm.
    + rewrite analyzeStateHistory_throws in Hr by (try discriminate; lia).
      discriminate.
Qed.

Lemma history_is_chronological_witness :
  exists r, analyzeStateHistory 0 zigzagTrades 50 = Ok r /\
            adjacent notAfter (History.history r).
Proof.
  destruct (analyzeStateHistory 0 zigzagTrades 50) as [r|e] eqn:E.
  - exists r. split; [reflexivity|].
    exact (proj1 (history_is_chronological 0%Z zigzagTrades 50%Z r E)).
  - vm_compute in E. discriminate.
Defined.

(* ------------------------------------------------------------------ *)
(** ** The limit only cuts the history short *)

Lemma replayFrom_limit_prefix (now : Timestamp) (sorted : list Trade)
  (small large : Z) (fuel i : nat) (r : Replay) :
  (small <= large)%Z ->
  exists more,
    r_history (replayFrom now sorted large fuel i r)
    = r_history (replayFrom now sorted small fuel i r) ++ more.
Proof.
  intro Hl. revert i r. induction fuel as [|fuel IH]; intros i r; cbn [replayFrom].
  - exists []. now rewrite app_nil_r.
  - destruct (nth_error sorted i) as [trade|]; [|exists []; now rewrite app_nil_r].
    destruct (_ <? small)%Z eqn:Es.
    + apply Z.ltb_lt in Es.
      assert (El : (Z.of_nat (List.length (r_history r)) <? large)%Z = true)
        by (apply Z.ltb_lt; lia).
      rewrite El. apply IH.
    + destruct (_ <? large)%Z.
      * destruct (replayFrom_appends now sorted large fuel (S i)
                    (replayStep now sorted i trade r)) as [more Hm].
        rewrite Hm. unfold replayStep.
        destruct (significant _ _); cbn [r_history]; [|eauto].
        rewrite <- app_assoc. eauto.
      * exists []. now rewrite app_nil_r.
Qed.

(** X13.  Raising the limit never changes the entries already returned: the
    history for a limit is the beginning of the history for any larger
    limit. *)
Theorem history_grows_with_limit (now : Timestamp) (trades : list Trade)
  (small large : Z) :
  (1 <= small)%Z -> (small <= large)%Z ->
  exists r r' more,
    analyzeStateHistory now trades small = Ok r /\
    analyzeStateHistory now trades large = Ok r' /\
    History.history r' = History.history r ++ more.
Proof.
  intros H1 H2. destruct trades as [|t ts].
  - do 2 eexists. exists []. cbn. auto.
  - destruct (analyzeStateHistory_ok now (t :: ts) small) as (m & _ & Hm);
      [discriminate | exact H1|].
    destruct (analyzeStateHistory_ok now (t :: ts) large) as (m' & _ & Hm');
      [discriminate | lia|].
    destruct (replayFrom_limit_prefix now (sort byEntryTime (t :: ts)) small large
                (List.length (sort byEntryTime (t :: ts))) 0 replayStart H2)
      as [more Hmore].
    do 2 eexists. exists more.
    split; [exact Hm|]. split; [exact Hm'|]. exact Hmore.
Qed.

Lemma history_grows_with_limit_witness :
  (1 <= 2)%Z /\ (2 <= 5)%Z /\
  exists r r' more,
    analyzeStateHistory 0 swingTrades 2 = Ok r /\
    analyzeStateHistory 0 swingTrades 5 = Ok r' /\
    History.history r' = History.history r ++ more.
Proof.
  assert (H1 : (1 <= 2)%Z) by lia.
  assert (H2 : (2 <= 5)%Z) by lia.
  split; [exact H1|]. split; [exact H2|].
  exact (history_grows_with_limit 0%Z swingTrades 2%Z 5%Z H1 H2).
Defined.

(* ------------------------------------------------------------------ *)
(** ** Ranges of the summary *)

Lemma confidence_range (now : Timestamp) (trades : list Trade) :
  (20 <= confidence (analyzePsychologicalState now trades) <= 95)%Z.
Proof.
  destruct trades as [|t ts]; [cbn; lia|].
  rewrite analyze_nonempty by discriminate. cbn zeta. cbn [confidence].
  destruct (verdict_bounded (t :: ts)) as [[Hc0 Hc1] _].
  apply Math_round_between; unfold inject_Z; lra.
Qed.

Lemma replayFrom_confidences (now : Timestamp) (sorted : list Trade) (limit : Z)
  (fuel i : nat) (r : Replay) :
  Forall inRange (r_confidences r) ->
  Forall inRange (r_confidences (replayFrom now sorted limit fuel i r)).
Proof.
  revert i r. induction fuel as [|fuel IH]; intros i r H; cbn [replayFrom]; [exact H|].
  destruct (nth_error sorted i) as [trade|]; [|exact H].
  destruct (_ <? limit)%Z; [|exact H].
  apply IH. unfold replayStep. destruct (significant _ _); [|exact H].
  cbn [r_confidences]. apply Forall_app. split; [exact H|].
  constructor; [apply confidence_range | constructor].
Qed.

Lemma sumZ_cons (f : Z -> Q) (c : Z) (cs : list Z) :
  sumZ f (c :: cs) == f c + sumZ f cs.
Proof. unfold sumZ. apply sum_by_cons. Qed.

Lemma sumZ_bounds (f : Z -> Q) (lo hi : Q) (cs : list Z) :
  Forall (fun c => lo <= f c /\ f c <= hi) cs ->
  lo * len cs <= sumZ f cs /\ sumZ f cs <= hi * len cs.
Proof.
  induction 1 as [|c cs [H0 H1] _ [IH0 IH1]].
  - change (len (@nil Z)) with 0. change (sumZ f []) with 0. lra.
  - rewrite sumZ_cons.
    assert (E : len (c :: cs) == 1 + len cs).
    { unfold len. cbn [List.length]. rewrite Nat2Z.inj_succ, <- Z.add_1_l.
      rewrite inject_Z_plus. reflexivity. }
    rewrite E. lra.
Qed.

Lemma mean_bounds (f : Z -> Q) (lo hi : Q) (cs : list Z) :
  cs <> [] ->
  Forall (fun c => lo <= f c /\ f c <= hi) cs ->
  lo <= sumZ f cs / len cs /\ sumZ f cs / len cs <= hi.
Proof.
  intros Hne H. destruct (sumZ_bounds f lo hi cs H) as [H0 H1].
  pose proof (len_pos cs Hne) as Hn.
  split; [apply Qle_shift_div_l | apply Qle_shift_div_r]; lra.
Qed.

Lemma averageConfidenceOf_range (cs : list Z) :
  Forall inRange cs -> inRange (averageConfidenceOf cs).
Proof.
  intro H. unfold averageConfidenceOf, inRange.
  destruct cs as [|c cs]; [cbn; lia|]. cbn [List.length Nat.ltb Nat.leb].
  destruct (mean_bounds inject_Z 20 95 (c :: cs)) as [H0 H1]; [discriminate| |].
  - eapply Forall_impl; [|exact H]. intros x [Hx0 Hx1].
    split; [change 20 with (inject_Z 20) | change 95 with (inject_Z 95)];
      now rewrite <- Zle_Qle.
  - apply Math_round_between;
      [change (inject_Z 20) with 20 | change (inject_Z 95) with 95]; lra.
Qed.

Lemma round_sqrt_mono (u v : Q) : u <= v -> (round_sqrt u <= round_sqrt v)%Z.
Proof.
  intro H. unfold round_sqrt. apply Z.div_le_mono; [lia|].
  apply Z.add_le_mono_r, Z.sqrt_le_mono, Qfloor_resp_le. lra.
Qed.

Lemma varianceOf_range (cs : list Z) :
  Forall inRange cs -> 0 <= varianceOf cs /\ varianceOf cs <= 5625.
Proof.
  intro H. unfold varianceOf.
  pose proof (averageConfidenceOf_range cs H) as Ha. unfold inRange in Ha.
  destruct cs as [|c cs]; [cbn; lra|]. cbn [List.length Nat.ltb Nat.leb].
  apply mean_bounds; [discriminate|].
  eapply Forall_impl; [|exact H]. intros x [Hx0 Hx1].
  set (a := averageConfidenceOf (c :: cs)) in *.
  split; [change 0 with (inject_Z 0) | change 5625 with (inject_Z 5625)];
    rewrite <- Zle_Qle; nia.
Qed.

(** X14.  The summary stays within fixed ranges whenever the analysis
    returns: every recorded confidence and their rounded average lie
    between 20 and 95, and the volatility between 0 and 0.75. *)
Theorem summary_within_ranges (now : Timestamp) (trades : list Trade)
  (limit : Z) (r : History.t) :
  analyzeStateHistory now trades limit = Ok r ->
  Forall (fun e => (20 <= History.confidence e <= 95)%Z) (History.history r) /\
  (20 <= History.averageConfidence (History.summary r) <= 95)%Z /\
  0 <= History.volatility (History.summary r) /\
  History.volatility (History.summary r) <= 0.75.
Proof.
  intro Hr.
  assert (Hcase : trades = [] \/ trades <> [])
    by (destruct trades; [left | right]; congruence).
  destruct Hcase as [->|Hne].
  - cbn in Hr. injection Hr as <-.
    cbn [History.history History.summary History.averageConfidence
         History.volatility].
    split; [constructor|]. split; [lia|]. split; [apply Qle_refl|].
    vm_compute. discriminate.
  - destruct (Z_le_gt_dec 1 limit) as [Hl|Hl].
    2: { rewrite analyzeStateHistory_throws in Hr by (auto; lia). discriminate. }
    destruct (analyzeStateHistory_ok now trades limit Hne Hl) as (m & _ & Hm).
    rewrite Hm in Hr. injection Hr as <-.
    cbn [History.history History.summary History.averageConfidence
         History.volatility].
    set (rp := replay now (sort byEntryTime trades) limit).
    assert (Hc : Forall inRange (r_confidences rp))
      by (apply replayFrom_confidences; constructor).
    destruct (replay_consistent now (sort byEntryTime trades) limit)
      as [_ Hcs _ _]. fold rp in Hcs.
    split; [|split].
    + rewrite Hcs in Hc. rewrite Forall_map in Hc. exact Hc.
    + apply averageConfidenceOf_range, Hc.
    + destruct (varianceOf_range (r_confidences rp) Hc) as [V0 V1].
      unfold volatilityOf.
      assert (K : (0 <= round_sqrt (varianceOf (r_confidences rp)) <= 75)%Z).
      { split; [apply (round_sqrt_mono 0 _ V0) | apply (round_sqrt_mono _ 5625 V1)]. }
      set (k := round_sqrt (varianceOf (r_confidences rp))) in *.
      destruct K as [K0 K1]. rewrite Zle_Qle in K0, K1.
      change (inject_Z 0) with 0 in K0. change (inject_Z 75) with 75 in K1.
      split; [apply Qle_shift_div_l | apply Qle_shift_div_r]; lra.
Qed.

Lemma summary_within_ranges_witness :
  exists r, analyzeStateHistory 0 swingTrades 50 = Ok r /\
            History.volatility (History.summary r) <= 0.75.
Proof.
  destruct (analyzeStateHistory 0 swingTrades 50) as [r|e] eqn:E.
  - exists r. split; [reflexivity|].
    exact (proj2 (proj2 (proj2 (summary_within_ranges 0%Z swingTrades 50%Z r E)))).
  - vm_compute in E. discriminate.
Defined.

(* ------------------------------------------------------------------ *)
(** ** The order in which the trades are handed over *)

Lemma sorted_perm_unique (l1 l2 : list Trade) :
  Permutation l1 l2 ->
  StronglySorted chronological l1 -> StronglySorted chronological l2 ->
  (forall x y, In x l1 -> In y l1 -> entryTime x = entryTime y -> x = y) ->
  l1 = l2.
Proof.
  revert l2. induction l1 as [|x l1 IH]; intros l2 Hp H1 H2 Hinj.
  - now apply Permutation_nil in Hp.
  - destruct l2 as [|y l2].
    + apply Permutation_sym, Permutation_nil in Hp. discriminate.
    + inversion H1 as [|? ? Hs1 Hx]; subst.
      inversion H2 as [|? ? Hs2 Hy]; subst.
      rewrite Forall_forall in Hx, Hy.
      assert (Exy : x = y).
      { assert (Hxin : In x (y :: l2))
          by (eapply Permutation_in; [exact Hp | now left]).
        assert (Hyin : In y (x :: l1))
          by (eapply Permutation_in; [apply Permutation_sym; exact Hp | now left]).
        destruct Hxin as [E|Hxin]; [now symmetry|].
        destruct Hyin as [E|Hyin]; [exact E|].
        specialize (Hx _ Hyin). specialize (Hy _ Hxin).
        unfold chronological in *.
        apply Hinj; [now left | now right | lia]. }
      subst y. f_equal.
      apply IH; auto.
      * eapply Permutation_cons_inv; eauto.
      * intros a b Ha Hb. apply Hinj; now right.
Qed.

Lemma NoDup_map_inj {A B} (f : A -> B) (l : list A) :
  NoDup (map f l) -> forall x y, In x l -> In y l -> f x = f y -> x = y.
Proof.
  induction l as [|a l IH]; intros Hn x y Hx Hy E; [destruct Hx|].
  cbn in Hn. inversion Hn as [|? ? Hnot Hn']; subst.
  destruct Hx as [->|Hx], Hy as [->|Hy]; auto.
  - exfalso. apply Hnot. rewrite E. now apply in_map.
  - exfalso. apply Hnot. rewrite <- E. now apply in_map.
Qed.

Lemma sort_canonical (a b : list Trade) :
  Permutation a b -> NoDup (map entryTime a) ->
  sort byEntryTime a = sort byEntryTime b.
Proof.
  intros Hp Hn. apply sorted_perm_unique.
  - rewrite <- (sort_perm byEntryTime a), <- (sort_perm byEntryTime b). exact Hp.
  - apply sort_strongly_sorted.
  - apply sort_strongly_sorted.
  - intros x y Hx Hy. apply (NoDup_map_inj entryTime a Hn).
    + eapply Permutation_in; [apply Permutation_sym, sort_perm | exact Hx].
    + eapply Permutation_in; [apply Permutation_sym, sort_perm | exact Hy].
Qed.

(** X15.  The order in which the trades are handed over does not matter when
    no two of them share an entry time: the analysis of a rearranged
    list is the same. *)
Theorem history_ignores_input_order (now : Timestamp) (a b : list Trade)
  (limit : Z) :
  Permutation a b -> NoDup (map entryTime a) ->
  analyzeStateHistory now a limit = analyzeStateHistory now b limit.
Proof.
  intros Hp Hn. unfold analyzeStateHistory.
  rewrite (Permutation_length Hp), (sort_canonical a b Hp Hn). reflexivity.
Qed.

Lemma history_ignores_input_order_witness :
  Permutation zigzagTrades (rev zigzagTrades) /\
  NoDup (map entryTime zigzagTrades) /\
  analyzeStateHistory 0 zigzagTrades 50
  = analyzeStateHistory 0 (rev zigzagTrades) 50.
Proof.
  assert (H1 : Permutation zigzagTrades (rev zigzagTrades))
    by apply Permutation_rev.
  assert (H2 : NoDup (map entryTime zigzagTrades)).
  { cbn. repeat (constructor; [cbn [In]; intuition discriminate|]). constructor. }
  split; [exact H1|]. split; [exact H2|].
  exact (history_ignores_input_order 0%Z zigzagTrades (rev zigzagTrades) 50%Z H1 H2).
Defined.

(* ================================================================== *)
(** * Further properties of the risk metrics *)
(* ================================================================== *)

Lemma round2_mono (x y : Q) : x <= y -> round2 x <= round2 y.
Proof.
  intro H. unfold round2.
  assert (M : (Math_round (x * 100) <= Math_round (y * 100))%Z)
    by (apply Math_round_mono; lra).
  rewrite Zle_Qle in M.
  apply Qle_shift_div_l; [lra|].
  unfold Qdiv. rewrite <- Qmult_assoc.
  setoid_replace (/ 100 * 100) with 1 by reflexivity. lra.
Qed.

Lemma drawdownStep_grows (d : Drawdown) (t : Trade) :
  maxDrawdown d <= maxDrawdown (drawdownStep d t).
Proof.
  unfold drawdownStep. cbn [maxDrawdown].
  match goal with |- context [gt ?x ?y] => destruct (gt x y) eqn:E end.
  - apply gt_true in E. lra.
  - lra.
Qed.

Lemma drawdownFold_grows (trades : list Trade) (d : Drawdown) :
  maxDrawdown d <= maxDrawdown (fold_left drawdownStep trades d).
Proof.
  revert d. induction trades as [|t ts IH]; intro d; cbn [fold_left]; [lra|].
  apply Qle_trans with (maxDrawdown (drawdownStep d t));
    [apply drawdownStep_grows | apply IH].
Qed.

(** While no trade loses, the peak follows the running total and no
    drawdown is ever seen. *)
Lemma drawdownFold_without_losses (trades : list Trade) (d : Drawdown) :
  Forall (fun t => 0 <= profitLoss t) trades ->
  peak d == runningPnL d -> maxDrawdown d == 0 ->
  peak (fold_left drawdownStep trades d)
  == runningPnL (fold_left drawdownStep trades d)
  /\ maxDrawdown (fold_left drawdownStep trades d) == 0.
Proof.
  intro H. revert d. induction H as [|t ts Ht _ IH]; intros d Hp Hm.
  - cbn [fold_left]. split; assumption.
  - cbn [fold_left]. apply IH.
    + unfold drawdownStep. cbn [peak runningPnL]. cmp_cases; lra.
    + unfold drawdownStep. cbn [peak runningPnL maxDrawdown].
      destruct (gt (runningPnL d + profitLoss t) (peak d)) eqn:E1;
        [apply gt_true in E1 | apply gt_false in E1]; cmp_cases; lra.
Qed.

(** X16.  The maximum drawdown is never negative, in the loop and as
    reported.  While no trade loses, the peak follows the running
    total and the maximum drawdown is 0.  A list that opens with a
    losing trade has a maximum drawdown of at least that loss: the
    peak it is measured from is the initial 0. *)
Theorem maxDrawdown_zero_without_losses (Math_sqrt : Q -> Q) (trades : list Trade) :
  0 <= maxDrawdown (drawdownLoop trades) /\
  0 <= Risk.maxDrawdown (calculateRiskMetrics Math_sqrt trades) /\
  (Forall (fun t => 0 <= profitLoss t) trades ->
   peak (drawdownLoop trades) == runningPnL (drawdownLoop trades) /\
   maxDrawdown (drawdownLoop trades) == 0 /\
   Risk.maxDrawdown (calculateRiskMetrics Math_sqrt trades) == 0) /\
  (forall t ts, trades = t :: ts -> profitLoss t < 0 ->
                - profitLoss t <= maxDrawdown (drawdownLoop trades)).
Proof.
  assert (H0 : 0 <= maxDrawdown (drawdownLoop trades)).
  { unfold drawdownLoop.
    apply Qle_trans with
      (maxDrawdown {| peak := 0; maxDrawdown := 0; runningPnL := 0 |});
      [cbn [maxDrawdown]; lra | apply drawdownFold_grows]. }
  assert (Hrep : forall x, 0 <= x -> 0 <= round2 x).
  { intros x Hx. apply Qle_trans with (round2 0); [vm_compute; discriminate|].
    now apply round2_mono. }
  split; [exact H0|]. split; [|split].
  - unfold calculateRiskMetrics.
    destruct (List.length trades =? 0)%nat; cbn [Risk.maxDrawdown]; [lra|].
    now apply Hrep.
  - intro Hall.
    destruct (drawdownFold_without_losses trades
                {| peak := 0; maxDrawdown := 0; runningPnL := 0 |} Hall)
      as [Hp Hm]; cbn [peak runningPnL maxDrawdown]; try reflexivity.
    fold (drawdownLoop trades) in Hp, Hm.
    split; [exact Hp|]. split; [exact Hm|].
    unfold calculateRiskMetrics.
    destruct (List.length trades =? 0)%nat; cbn [Risk.maxDrawdown]; [reflexivity|].
    rewrite (round2_comp _ _ Hm). vm_compute. reflexivity.
  - intros t ts -> Ht. unfold drawdownLoop. cbn [fold_left].
    apply Qle_trans with
      (maxDrawdown
         (drawdownStep {| peak := 0; maxDrawdown := 0; runningPnL := 0 |} t));
      [|apply drawdownFold_grows].
    unfold drawdownStep. cbn [peak runningPnL maxDrawdown].
    destruct (gt (0 + profitLoss t) 0) eqn:E1;
      [apply gt_true in E1 | apply gt_false in E1]; cmp_cases; lra.
Qed.

Lemma maxDrawdown_zero_without_losses_witness :
  let gains := [trade 1 10 30 2 NY; trade 2 20 0 2 NY] in
  Forall (fun t => 0 <= profitLoss t) gains /\
  Risk.maxDrawdown (calculateRiskMetrics (fun x => x) gains) == 0.
Proof.
  intro gains.
  assert (H : Forall (fun t => 0 <= profitLoss t) gains).
  { repeat constructor; vm_compute; discriminate. }
  split; [exact H|].
  exact (proj2 (proj2 (proj1 (proj2 (proj2
           (maxDrawdown_zero_without_losses (fun x => x) gains))) H))).
Defined.

(** X17.  A single trade.  The variance of one return is 0, so the
    Sharpe ratio is reported as 0 instead of a division by zero; a
    trade that does not lose has a maximum drawdown of 0; and where the
    loss or the risk used is a whole number of hundredths, the reported
    maximum drawdown is the loss and the reported average risk is the
    risk used.  [Math.sqrt] enters through its value at 0 only. *)
Theorem risk_metrics_of_single_trade (Math_sqrt : Q -> Q) (t : Trade) :
  (forall v, v == 0 -> Math_sqrt v == 0) ->
  let m := calculateRiskMetrics Math_sqrt [t] in
  Risk.sharpeRatio m == 0 /\
  (0 <= profitLoss t -> Risk.maxDrawdown m == 0) /\
  (forall cents : Z, profitLoss t * 100 == inject_Z cents -> profitLoss t <= 0 ->
                     Risk.maxDrawdown m == - profitLoss t) /\
  (forall cents : Z, riskPercentUsed t * 100 == inject_Z cents ->
                     Risk.averageRiskPerTrade m == riskPercentUsed t).
Proof.
  intros Hsqrt m. subst m. unfold calculateRiskMetrics.
  cbn [List.length Nat.eqb Risk.sharpeRatio Risk.maxDrawdown
       Risk.averageRiskPerTrade].
  assert (Hloop : maxDrawdown (drawdownLoop [t]) == Math_max (- profitLoss t) 0).
  { unfold drawdownLoop. cbn [fold_left].
    unfold drawdownStep. cbn [peak runningPnL maxDrawdown].
    destruct (gt (0 + profitLoss t) 0) eqn:E1;
      [apply gt_true in E1 | apply gt_false in E1];
      destruct (Math_max_cases (- profitLoss t) 0) as [[M ->]|[M ->]];
      cmp_cases; lra. }
  split; [|split; [|split]].
  - unfold sharpeRatioOf. cbn zeta. cbn [map].
    set (avgReturn := sum_by (fun r => r) [profitLoss t] / len [profitLoss t]).
    set (variance := sum_by (fun r => (r - avgReturn) ^ 2) [profitLoss t]
                     / len [profitLoss t]).
    assert (Ha : avgReturn == profitLoss t).
    { unfold avgReturn, sum_by, len. cbn [fold_left List.length Z.of_nat].
      change (inject_Z (Z.pos (Pos.of_succ_nat 0))) with 1. field. }
    assert (Hv : variance == 0).
    { unfold variance, sum_by, len. cbn [fold_left List.length Z.of_nat].
      change (inject_Z (Z.pos (Pos.of_succ_nat 0))) with 1.
      rewrite Ha. unfold Qpower, Qpower_positive. cbn [pow_pos]. field. }
    pose proof (Hsqrt _ Hv) as Hs.
    assert (G : gt (Math_sqrt variance) 0 = false) by (apply gt_false; lra).
    rewrite G. vm_compute. reflexivity.
  - intro Hp. rewrite (round2_comp _ 0); [vm_compute; reflexivity|].
    rewrite Hloop.
    destruct (Math_max_cases (- profitLoss t) 0) as [[M ->]|[M ->]]; lra.
  - intros cents Hc Hp.
    assert (E : maxDrawdown (drawdownLoop [t]) == - profitLoss t).
    { rewrite Hloop.
      destruct (Math_max_cases (- profitLoss t) 0) as [[M ->]|[M ->]]; lra. }
    rewrite (round2_comp _ _ E).
    apply (round2_hundredths _ (- cents)%Z).
    rewrite inject_Z_opp, <- Hc. ring.
  - intros cents Hc.
    assert (E : sum_by riskPercentUsed [t] / len [t] == riskPercentUsed t).
    { unfold sum_by, len. cbn [fold_left List.length Z.of_nat].
      change (inject_Z (Z.pos (Pos.of_succ_nat 0))) with 1. field. }
    rewrite (round2_comp _ _ E). exact (round2_hundredths _ cents Hc).
Qed.

Lemma risk_metrics_of_single_trade_witness :
  (forall v, v == 0 -> (fun x : Q => x) v == 0) /\
  Risk.sharpeRatio (calculateRiskMetrics (fun x => x) [trade 1 10 25 2 NY]) == 0.
Proof.
  assert (H1 : forall v, v == 0 -> (fun x : Q => x) v == 0) by (intros v Hv; exact Hv).
  split; [exact H1|].
  exact (proj1 (risk_metrics_of_single_trade (fun x => x) (trade 1 10 25 2 NY) H1)).
Defined.

(* ================================================================== *)
(** * Sorting by a key *)
(* ================================================================== *)

Section SortFacts.
Context {A : Type} (key : A -> Z) (cmp : A -> A -> Z).
Hypothesis cmp_key : forall a b, cmp a b = (key a - key b)%Z.

Lemma insertSorted_key_HdRel (a x : A) (xs : list A) :
  (key a <= key x)%Z -> HdRel (fun u v => (key u <= key v)%Z) a xs ->
  HdRel (fun u v => (key u <= key v)%Z) a (insertSorted cmp x xs).
Proof.
  intros Hax Hh. destruct xs as [|y ys]; cbn [insertSorted]; [now constructor|].
  destruct (cmp x y <=? 0)%Z; constructor; [exact Hax|].
  now inversion Hh.
Qed.

Lemma insertSorted_key_sorted (x : A) (xs : list A) :
  Sorted (fun u v => (key u <= key v)%Z) xs ->
  Sorted (fun u v => (key u <= key v)%Z) (insertSorted cmp x xs).
Proof.
  induction 1 as [|y ys Hs IH Hh]; cbn [insertSorted].
  - repeat constructor.
  - destruct (cmp x y <=? 0)%Z eqn:E.
    + apply Z.leb_le in E. rewrite cmp_key in E.
      constructor; [now constructor|]. constructor. lia.
    + apply Z.leb_gt in E. rewrite cmp_key in E.
      constructor; [exact IH|].
      apply insertSorted_key_HdRel; [lia | exact Hh].
Qed.

Lemma sort_key_sorted (xs : list A) :
  StronglySorted (fun u v => (key u <= key v)%Z) (sort cmp xs).
Proof.
  apply Sorted_StronglySorted; [intros a b c Hab Hbc; lia|].
  unfold sort. induction xs as [|x xs IH]; cbn [fold_right]; [constructor|].
  now apply insertSorted_key_sorted.
Qed.

Lemma insertSorted_before_last (x t : A) (s : list A) :
  (key x <= key t)%Z ->
  insertSorted cmp x (s ++ [t]) = insertSorted cmp x s ++ [t].
Proof.
  intro H. induction s as [|y s IH]; cbn [insertSorted app].
  - assert (E : (cmp x t <=? 0)%Z = true) by (apply Z.leb_le; rewrite cmp_key; lia).
    now rewrite E.
  - destruct (cmp x y <=? 0)%Z; [reflexivity|]. now rewrite IH.
Qed.

Lemma insertSorted_after_all (t : A) (s : list A) :
  (forall y, In y s -> (key y < key t)%Z) -> insertSorted cmp t s = s ++ [t].
Proof.
  induction s as [|y s IH]; intro H; cbn [insertSorted app]; [reflexivity|].
  assert (E : (cmp t y <=? 0)%Z = false).
  { apply Z.leb_gt. rewrite cmp_key. specialize (H y (or_introl eq_refl)). lia. }
  rewrite E, IH; [reflexivity|]. intros z Hz. apply H. now right.
Qed.

(** An element that sorts strictly after all others comes last,
    wherever it stood. *)
Lemma sort_with_last (l1 l2 : list A) (t : A) :
  (forall x, In x (l1 ++ l2) -> (key x < key t)%Z) ->
  sort cmp (l1 ++ t :: l2) = sort cmp (l1 ++ l2) ++ [t].
Proof.
  intro H. unfold sort. rewrite !fold_right_app. cbn [fold_right].
  fold (sort cmp l2).
  rewrite insertSorted_after_all.
  2:{ intros y Hy. apply H. apply in_or_app. right.
      eapply Permutation_in; [apply Permutation_sym, sort_perm | exact Hy]. }
  assert (H1 : forall x, In x l1 -> (key x <= key t)%Z).
  { intros x Hx. specialize (H x (in_or_app _ _ _ (or_introl Hx))). lia. }
  clear H. induction l1 as [|x l1 IH]; cbn [fold_right]; [reflexivity|].
  rewrite IH by (intros z Hz; apply H1; now right).
  apply insertSorted_before_last. apply H1. now left.
Qed.

End SortFacts.

Lemma StronglySorted_across {A} (R : A -> A -> Prop) (l1 l2 : list A) :
  StronglySorted R (l1 ++ l2) ->
  forall a b, In a l1 -> In b l2 -> R a b.
Proof.
  induction l1 as [|x l1 IH]; intros H a b Ha Hb; [destruct Ha|].
  cbn [app] in H. inversion H as [|? ? Hs Hall]; subst.
  destruct Ha as [<-|Ha].
  - rewrite Forall_forall in Hall. apply Hall. apply in_or_app. now right.
  - now apply (IH Hs).
Qed.

Lemma newestFirst_key (a b : Trade) :
  newestFirst a b = ((fun t => - entryTime t) a - (fun t => - entryTime t) b)%Z.
Proof. unfold newestFirst. lia. Qed.

(* ================================================================== *)
(** * Summary statistics *)
(* ================================================================== *)

Lemma Math_max_of_spec (x : Q) (rest : list Q) :
  In (Math_max_of x rest) (x :: rest) /\
  forall y, In y (x :: rest) -> y <= Math_max_of x rest.
Proof.
  unfold Math_max_of. revert x.
  induction rest as [|z rest IH]; intro x; cbn [fold_left].
  - split; [now left|]. intros y [<-|[]]. lra.
  - destruct (IH (Math_max x z)) as [Hin Hup]. split.
    + destruct Hin as [E|Hin]; [|right; now right].
      rewrite <- E.
      destruct (Math_max_cases x z) as [[_ ->]|[_ ->]]; [right|]; now left.
    + intros y [<-|[<-|Hy]].
      * apply Qle_trans with (Math_max x z); [|apply Hup; now left].
        destruct (Math_max_cases x z) as [[M ->]|[M ->]]; lra.
      * apply Qle_trans with (Math_max x z); [|apply Hup; now left].
        destruct (Math_max_cases x z) as [[M ->]|[M ->]]; lra.
      * apply Hup. now right.
Qed.

Lemma Math_min_of_spec (x : Q) (rest : list Q) :
  In (Math_min_of x rest) (x :: rest) /\
  forall y, In y (x :: rest) -> Math_min_of x rest <= y.
Proof.
  unfold Math_min_of. revert x.
  induction rest as [|z rest IH]; intro x; cbn [fold_left].
  - split; [now left|]. intros y [<-|[]]. lra.
  - destruct (IH (Math_min x z)) as [Hin Hup]. split.
    + destruct Hin as [E|Hin]; [|right; now right].
      rewrite <- E.
      destruct (Math_min_cases x z) as [[_ ->]|[_ ->]]; [|right]; now left.
    + intros y [<-|[<-|Hy]].
      * apply Qle_trans with (Math_min x z); [apply Hup; now left|].
        destruct (Math_min_cases x z) as [[M ->]|[M ->]]; lra.
      * apply Qle_trans with (Math_min x z); [apply Hup; now left|].
        destruct (Math_min_cases x z) as [[M ->]|[M ->]]; lra.
      * apply Hup. now right.
Qed.

Lemma filter_disjoint_length {A} (p q : A -> bool) (xs : list A) :
  (forall x, p x = true -> q x = false) ->
  (List.length (filter p xs) + List.length (filter q xs) <= List.length xs)%nat.
Proof.
  intro H. induction xs as [|x xs IH]; cbn [filter List.length]; [lia|].
  destruct (p x) eqn:P; [rewrite (H x P)|destruct (q x)]; cbn [List.length]; lia.
Qed.

Lemma calculateSummaryStats_nonempty (trades : list Trade) (t : Trade)
  (ts : list Trade) :
  trades = t :: ts ->
  calculateSummaryStats trades =
    {| Summary.totalTrades := count trades;
       Summary.winningTrades := count (filter (fun t => gt (profitLoss t) 0) trades);
       Summary.losingTrades := count (filter (fun t => lt (profitLoss t) 0) trades);
       Summary.winRate := round2 (winRate trades);
       Summary.totalProfitLoss := round2 (sum_by profitLoss trades);
       Summary.averageRiskReward := round2 (avg riskRewardAchieved trades);
       Summary.bestTrade :=
         round2 (Math_max_of (profitLoss t) (map profitLoss ts));
       Summary.worstTrade :=
         round2 (Math_min_of (profitLoss t) (map profitLoss ts)) |}.
Proof. intros ->. reflexivity. Qed.

(** X18.  The summary of any list of trades.  Winners and losers are
    counted apart and together never exceed the number of trades; the
    win rate is a percentage; [worstTrade] is at most [bestTrade], and
    no trade made a hundredth more than [bestTrade] or a hundredth less
    than [worstTrade].  When every profit or loss is a whole number of
    hundredths, [bestTrade] and [worstTrade] are the largest and the
    smallest of them.  An empty list gives 0 for both. *)
Theorem summary_counts_and_extremes (trades : list Trade) :
  let s := calculateSummaryStats trades in
  Summary.totalTrades s = Z.of_nat (List.length trades) /\
  (0 <= Summary.winningTrades s)%Z /\ (0 <= Summary.losingTrades s)%Z /\
  (Summary.winningTrades s + Summary.losingTrades s <= Summary.totalTrades s)%Z /\
  0 <= Summary.winRate s <= 100 /\
  Summary.worstTrade s <= Summary.bestTrade s /\
  Forall (fun t => Summary.worstTrade s < profitLoss t + 0.01
                   /\ profitLoss t - 0.01 < Summary.bestTrade s) trades /\
  (trades = [] -> Summary.bestTrade s = 0 /\ Summary.worstTrade s = 0) /\
  (Forall (fun t => exists cents : Z, profitLoss t * 100 == inject_Z cents) trades ->
   Forall (fun t => Summary.worstTrade s <= profitLoss t
                    /\ profitLoss t <= Summary.bestTrade s) trades /\
   (trades <> [] ->
    (exists t, In t trades /\ Summary.bestTrade s == profitLoss t) /\
    (exists t, In t trades /\ Summary.worstTrade s == profitLoss t))).
Proof.
  destruct trades as [|t ts].
  - cbn zeta. cbn [calculateSummaryStats map Summary.totalTrades
                     Summary.winningTrades Summary.losingTrades Summary.winRate
                     Summary.bestTrade Summary.worstTrade List.length].
    split; [reflexivity|]. split; [lia|]. split; [lia|]. split; [lia|].
    split; [lra|]. split; [lra|]. split; [constructor|].
    split; [auto|]. intros _. split; [constructor | congruence].
  - cbn zeta. rewrite (calculateSummaryStats_nonempty (t :: ts) t ts eq_refl).
    cbn [Summary.totalTrades Summary.winningTrades Summary.losingTrades
         Summary.winRate Summary.bestTrade Summary.worstTrade].
    set (trades := t :: ts).
    destruct (Math_max_of_spec (profitLoss t) (map profitLoss ts)) as [Bin Bup].
    destruct (Math_min_of_spec (profitLoss t) (map profitLoss ts)) as [Win Wlo].
    change (profitLoss t :: map profitLoss ts) with (map profitLoss trades) in *.
    set (best := Math_max_of (profitLoss t) (map profitLoss ts)) in *.
    set (worst := Math_min_of (profitLoss t) (map profitLoss ts)) in *.
    destruct (round2_near best) as [Bhi Blo].
    destruct (round2_near worst) as [Whi Wl].
    assert (Hwb : worst <= best).
    { apply Qle_trans with (profitLoss t); [apply Wlo | apply Bup]; now left. }
    split; [reflexivity|]. split; [unfold count; lia|]. split; [unfold count; lia|].
    split.
    { unfold count.
      pose proof (filter_disjoint_length (fun t => gt (profitLoss t) 0)
                    (fun t => lt (profitLoss t) 0) trades) as H.
      cbn beta in H. rewrite <- Nat2Z.inj_add. apply inj_le. apply H.
      intros x Hx. apply gt_true in Hx. apply lt_false. lra. }
    split.
    { pose proof (winRate_range trades) as [H0 H1].
      split.
      - apply Qle_trans with (round2 0); [vm_compute; discriminate|].
        now apply round2_mono.
      - apply Qle_trans with (round2 100); [now apply round2_mono|].
        vm_compute. discriminate. }
    split; [now apply round2_mono|].
    split.
    { apply Forall_forall. intros x Hx.
      assert (Hp : In (profitLoss x) (map profitLoss trades)) by now apply in_map.
      pose proof (Wlo _ Hp). pose proof (Bup _ Hp). split; lra. }
    split; [discriminate|].
    intro Hc.
    assert (Hcents : forall p, In p (map profitLoss trades) -> round2 p == p).
    { intros p Hp. apply in_map_iff in Hp. destruct Hp as (x & <- & Hx).
      rewrite Forall_forall in Hc. destruct (Hc x Hx) as [cents Hcents].
      exact (round2_hundredths _ cents Hcents). }
    pose proof (Hcents best Bin) as Eb. pose proof (Hcents worst Win) as Ew.
    split.
    { apply Forall_forall. intros x Hx.
      assert (Hp : In (profitLoss x) (map profitLoss trades)) by now apply in_map.
      pose proof (Wlo _ Hp). pose proof (Bup _ Hp). rewrite Eb, Ew. split; lra. }
    intros _. split.
    + apply in_map_iff in Bin. destruct Bin as (x & Ex & Hx).
      exists x. split; [exact Hx|]. rewrite Eb, Ex. reflexivity.
    + apply in_map_iff in Win. destruct Win as (x & Ex & Hx).
      exists x. split; [exact Hx|]. rewrite Ew, Ex. reflexivity.
Qed.

(* ================================================================== *)
(** * The store queries *)
(* ================================================================== *)

Lemma limitTo_firstn {A} (n : Z) (xs : list A) :
  n <> 0%Z -> limitTo n xs = firstn (Z.abs_nat n) xs.
Proof.
  intro H. unfold limitTo.
  destruct (n =? 0)%Z eqn:E; [apply Z.eqb_eq in E; congruence | reflexivity].
Qed.

Lemma limitTo_In {A} (n : Z) (xs : list A) (x : A) :
  In x (limitTo n xs) -> In x xs.
Proof.
  unfold limitTo. destruct (n =? 0)%Z; [auto|]. intro H.
  rewrite <- (firstn_skipn (Z.abs_nat n) xs). apply in_or_app. now left.
Qed.

Lemma firstn_full_prefix {A} (n : nat) (l1 l2 : list A) :
  (n <= List.length l1)%nat -> firstn n (l1 ++ l2) = firstn n l1.
Proof.
  intro H. rewrite firstn_app.
  replace (n - List.length l1)%nat with 0%nat by lia.
  cbn [firstn]. apply app_nil_r.
Qed.

(** X19.  The current state comes from the ten latest trades of the user:
    a trade of another user, and, once the user has ten trades, a
    trade older than all of them, changes nothing, wherever it stands
    in the store. *)
Theorem current_state_uses_ten_latest (now : Timestamp)
  (before after : list Trade) (t : Trade) (user : Z) :
  userId t <> user \/
  ((10 <= List.length (filter (fun x => (userId x =? user)%Z) (before ++ after)))%nat /\
   forall x, In x (before ++ after) -> userId x = user ->
             (entryTime t < entryTime x)%Z) ->
  getCurrentState now (before ++ t :: after) user
  = getCurrentState now (before ++ after) user.
Proof.
  intro H. unfold getCurrentState. cbn zeta. f_equal.
  rewrite !filter_app. cbn [filter].
  destruct (userId t =? user)%Z eqn:E; [|reflexivity].
  apply Z.eqb_eq in E. destruct H as [H|[Hlen Hold]]; [congruence|].
  rewrite filter_app in Hlen.
  rewrite !limitTo_firstn by discriminate.
  rewrite (sort_with_last (fun t => (- entryTime t)%Z) newestFirst newestFirst_key).
  - apply firstn_full_prefix. rewrite sort_length. exact Hlen.
  - intros x Hx. cbn beta.
    assert (Hx' : In x (filter (fun x => (userId x =? user)%Z) (before ++ after)))
      by now rewrite filter_app.
    apply filter_In in Hx'. destruct Hx' as [Hin Hu]. apply Z.eqb_eq in Hu.
    specialize (Hold x Hin Hu). lia.
Qed.

Lemma current_state_uses_ten_latest_witness :
  let latest := map (fun n => trade (Z.of_nat n) (100 + Z.of_nat n) 10 2 NY) (seq 0 10) in
  let old := trade 99 5 (-500) 9 ASIA in
  getCurrentState 0 (firstn 4 latest ++ old :: skipn 4 latest) 1
  = getCurrentState 0 (firstn 4 latest ++ skipn 4 latest) 1.
Proof.
  intros latest old.
  apply (current_state_uses_ten_latest 0%Z (firstn 4 latest) (skipn 4 latest) old 1%Z).
  right. split.
  - vm_compute. lia.
  - intros x Hx _. vm_compute in Hx.
    repeat (destruct Hx as [<-|Hx]; [vm_compute; reflexivity|]). destruct Hx.
Defined.

Lemma upper_ascii_idempotent (c : ascii) : upper_ascii (upper_ascii c) = upper_ascii c.
Proof. destruct c as [[] [] [] [] [] [] [] []]; reflexivity. Qed.

Lemma toUpperCase_idempotent (s : string) : toUpperCase (toUpperCase s) = toUpperCase s.
Proof.
  induction s as [|c s IH]; cbn [toUpperCase]; [reflexivity|].
  now rewrite upper_ascii_idempotent, IH.
Qed.

Lemma analyzeSessionForecast_upper (trades : list Trade) (s : string) :
  analyzeSessionForecast trades (toUpperCase s) = analyzeSessionForecast trades s.
Proof. unfold analyzeSessionForecast. now rewrite toUpperCase_idempotent. Qed.

(** X20.  For a session named in ASCII characters, where
    [toUpperCase] is the one of the code: the name counts without
    regard to case, and a name that is none of the three sessions finds
    no trade, so that the forecast is the one for no data, NEUTRAL
    at 50. *)
Theorem session_forecast_by_name (store : list Trade) (user : Z) (s : string) :
  isAscii s = true ->
  getSessionForecast store user (Some (toUpperCase s))
  = getSessionForecast store user (Some s) /\
  ((forall x, Session_name x <> toUpperCase s) ->
   let f := getSessionForecast store user (Some s) in
   Forecast.forecast f = Dir.NEUTRAL /\ Forecast.probability f = 50%Z /\
   Forecast.recommendations f
   = ["Start trading this session to build forecast data"%string]).
Proof.
  intros _. split.
  - unfold getSessionForecast. cbn zeta.
    rewrite toUpperCase_idempotent. apply analyzeSessionForecast_upper.
  - intros Hno f. subst f. unfold getSessionForecast. cbn zeta.
    rewrite filter_none.
    + cbn. auto.
    + apply Forall_forall. intros t _. unfold sessionQuery.
      assert (E : String.eqb (Session_name (session t)) (toUpperCase s) = false)
        by (apply String.eqb_neq, Hno).
      rewrite E. apply andb_false_r.
Qed.

Lemma session_forecast_by_name_witness :
  isAscii "tokyo" = true /\
  (forall x, Session_name x <> toUpperCase "tokyo") /\
  Forecast.probability
    (getSessionForecast [trade 1 10 30 2 NY] 1 (Some "tokyo"%string)) = 50%Z.
Proof.
  assert (H0 : isAscii "tokyo" = true) by reflexivity.
  assert (H : forall x, Session_name x <> toUpperCase "tokyo")
    by (intros [] E; vm_compute in E; discriminate E).
  split; [exact H0|]. split; [exact H|].
  exact (proj1 (proj2 (proj2 (session_forecast_by_name [trade 1 10 30 2 NY] 1%Z
                                "tokyo"%string H0) H))).
Defined.

(** X21.  The history of a user under a filter: with a limit of at least 1,
    50 when none is given, a result is returned, the history has at
    most that many entries, and each entry stems from a stored trade
    of this user whose entry time lies within the dates asked for. *)
Theorem state_history_respects_filter (now : Timestamp) (store : list Trade)
  (user : Z) (filter : HistoryFilter.t) :
  let limit :=
    match HistoryFilter.limit filter with Some l => l | None => 50%Z end in
  (1 <= limit)%Z ->
  exists r,
    getStateHistory now store user filter = Ok r /\
    (Z.of_nat (List.length (History.history r)) <= limit)%Z /\
    Forall (fun e => exists t,
              In t store /\ userId t = user /\
              History.timestamp e = entryTime t /\
              History.tradeId (History.context e) = _id t /\
              (forall d, HistoryFilter.startDate filter = Some d ->
                         (d <= entryTime t)%Z) /\
              (forall d, HistoryFilter.endDate filter = Some d ->
                         (entryTime t <= d)%Z))
           (History.history r).
Proof.
  intros limit Hl. unfold getStateHistory. cbn zeta. fold limit.
  set (trades := limitTo (limit * 2)
                   (sort newestFirst (List.filter (historyQuery user filter) store))).
  assert (Hfrom : forall e, fromTrade trades e -> exists t,
              In t store /\ userId t = user /\
              History.timestamp e = entryTime t /\
              History.tradeId (History.context e) = _id t /\
              (forall d, HistoryFilter.startDate filter = Some d ->
                         (d <= entryTime t)%Z) /\
              (forall d, HistoryFilter.endDate filter = Some d ->
                         (entryTime t <= d)%Z)).
  { intros e (t & Hin & Ht & Hid & _). exists t.
    apply limitTo_In in Hin.
    apply (Permutation_in _ (Permutation_sym (sort_perm _ _))) in Hin.
    apply filter_In in Hin. destruct Hin as [Hin Hq].
    unfold historyQuery in Hq.
    apply andb_true_iff in Hq. destruct Hq as [Hq He].
    apply andb_true_iff in Hq. destruct Hq as [Hu Hs].
    apply Z.eqb_eq in Hu.
    repeat split; try assumption.
    - intros d Hd. rewrite Hd in Hs. now apply Z.leb_le.
    - intros d Hd. rewrite Hd in He. now apply Z.leb_le. }
  destruct (analyzeStateHistory now trades limit) as [r|err] eqn:E.
  - exists r. cbn [bind]. split; [reflexivity|].
    pose proof (analyzeStateHistory_fromTrade now trades limit r E) as Hf.
    split.
    + assert (Hcase : trades = [] \/ trades <> [])
        by (destruct trades; [now left | right; discriminate]).
      destruct Hcase as [Hnil|Hne].
      * rewrite Hnil in E. cbn in E. injection E as <-. cbn. lia.
      * destruct (analyzeStateHistory_ok now trades limit Hne Hl) as (m & _ & Hm).
        rewrite Hm in E. injection E as <-. cbn [History.history].
        pose proof (replay_consistent now (sort byEntryTime trades) limit) as [_ _ _ Hlim].
        lia.
    + eapply Forall_impl; [|exact Hf]. exact Hfrom.
  - exfalso.
    assert (Hcase : trades = [] \/ trades <> [])
      by (destruct trades; [now left | right; discriminate]).
    destruct Hcase as [Hnil|Hne].
    + rewrite Hnil in E. cbn in E. discriminate.
    + destruct (analyzeStateHistory_ok now trades limit Hne Hl) as (m & _ & Hm).
      rewrite Hm in E. discriminate.
Qed.

Lemma state_history_respects_filter_witness :
  exists r,
    getStateHistory 0 zigzagTrades 1
      (HistoryFilter.mk (Some 0%Z) None (Some 2%Z)) = Ok r /\
    (Z.of_nat (List.length (History.history r)) <= 2)%Z.
Proof.
  assert (H : (1 <= 2)%Z) by lia.
  destruct (state_history_respects_filter 0%Z zigzagTrades 1%Z
              (HistoryFilter.mk (Some 0%Z) None (Some 2%Z)) H) as (r & Hr & Hlen & _).
  exists r. split; [exact Hr | exact Hlen].
Defined.

(* ================================================================== *)
(** * Session performance *)
(* ================================================================== *)

Section TableFacts.
Context {K V : Type} (eqb : K -> K -> bool).
Hypothesis eqb_spec : forall a b, eqb a b = true <-> a = b.

Lemma existsb_eqb_In (k : K) (ks : list K) : existsb (eqb k) ks = true <-> In k ks.
Proof.
  rewrite existsb_exists. split.
  - intros (x & Hx & E). apply eqb_spec in E. now subst.
  - intro H. exists k. split; [exact H | now apply eqb_spec].
Qed.

Lemma existsb_eqb_notIn (k : K) (ks : list K) :
  existsb (eqb k) ks = false <-> ~ In k ks.
Proof.
  rewrite <- existsb_eqb_In. destruct (existsb (eqb k) ks); split; congruence.
Qed.

Lemma key_eqb_refl (k : K) : eqb k k = true.
Proof. now apply eqb_spec. Qed.

Lemma key_eqb_false (a b : K) : a <> b -> eqb a b = false.
Proof.
  intro H. destruct (eqb a b) eqn:E; [|reflexivity].
  apply eqb_spec in E. congruence.
Qed.

Lemma lookup_keys (g : K -> V) (ks : list K) (k : K) :
  lookup eqb (map (fun x => (x, g x)) ks) k
  = if existsb (eqb k) ks then Some (g k) else None.
Proof.
  induction ks as [|a ks IH]; cbn [map lookup existsb]; [reflexivity|].
  destruct (eqb k a) eqn:E; cbn [orb]; [|exact IH].
  apply eqb_spec in E. now subst.
Qed.

Lemma lookup_new (o : list (K * V)) (k : K) (v : V) :
  ~ In k (map fst o) -> lookup eqb (o ++ [(k, v)]) k = Some v.
Proof.
  induction o as [|[a w] o IH]; cbn [map fst app lookup In]; intro H.
  - now rewrite key_eqb_refl.
  - rewrite key_eqb_false by (intro E; apply H; now left).
    apply IH. intro Hin. apply H. now right.
Qed.

Lemma assign_new (o : list (K * V)) (k : K) (v : V) :
  ~ In k (map fst o) -> assign eqb o k v = o ++ [(k, v)].
Proof.
  induction o as [|[a w] o IH]; cbn [map fst app assign In]; intro H.
  - reflexivity.
  - rewrite key_eqb_false by (intro E; apply H; now left).
    rewrite IH; [reflexivity|]. intro Hin. apply H. now right.
Qed.

Lemma assign_last (o : list (K * V)) (k : K) (v w : V) :
  ~ In k (map fst o) -> assign eqb (o ++ [(k, w)]) k v = o ++ [(k, v)].
Proof.
  induction o as [|[a u] o IH]; cbn [map fst app assign In]; intro H.
  - now rewrite key_eqb_refl.
  - rewrite key_eqb_false by (intro E; apply H; now left).
    rewrite IH; [reflexivity|]. intro Hin. apply H. now right.
Qed.

Lemma assign_keys (g : K -> V) (ks : list K) (k : K) (v : V) :
  NoDup ks -> In k ks ->
  assign eqb (map (fun x => (x, g x)) ks) k v
  = map (fun x => (x, if eqb x k then v else g x)) ks.
Proof.
  induction 1 as [|a ks Ha Hnd IH]; intro Hin; [destruct Hin|].
  cbn [map assign]. destruct (eqb k a) eqn:E.
  - apply eqb_spec in E. subst a. rewrite key_eqb_refl. f_equal.
    apply map_ext_in. intros x Hx.
    rewrite key_eqb_false; [reflexivity|]. intros ->. contradiction.
  - assert (Hne : a <> k) by (intros ->; rewrite key_eqb_refl in E; discriminate).
    rewrite (key_eqb_false a k Hne). f_equal. apply IH.
    destruct Hin as [Hin|Hin]; [congruence | exact Hin].
Qed.

Lemma firstSeen_snoc (xs : list K) (x : K) :
  firstSeen eqb (xs ++ [x]) = see eqb (firstSeen eqb xs) x.
Proof. unfold firstSeen. now rewrite fold_left_app. Qed.

Lemma NoDup_firstSeen (xs : list K) : NoDup (firstSeen eqb xs).
Proof.
  induction xs as [|x xs IH] using rev_ind; [constructor|].
  rewrite firstSeen_snoc. unfold see.
  destruct (existsb (eqb x) (firstSeen eqb xs)) eqn:E; [exact IH|].
  apply existsb_eqb_notIn in E.
  apply NoDup_app; [exact IH | repeat constructor; intros [] |].
  intros y Hy [<-|[]]. contradiction.
Qed.

End TableFacts.

Lemma Session_eqb_sym (a b : Session) : Session_eqb a b = Session_eqb b a.
Proof. now destruct a, b. Qed.

Lemma ofSession_snoc (s : Session) (xs : list Trade) (t : Trade) :
  ofSession s (xs ++ [t])
  = if Session_eqb (session t) s then ofSession s xs ++ [t] else ofSession s xs.
Proof.
  unfold ofSession. rewrite filter_app. cbn [filter].
  destruct (Session_eqb (session t) s); [reflexivity | apply app_nil_r].
Qed.

Lemma ofSession_unseen (s : Session) (xs : list Trade) :
  ~ In s (map session xs) -> ofSession s xs = [].
Proof.
  intro H. unfold ofSession. apply filter_none. apply Forall_forall.
  intros t Ht. destruct (Session_eqb (session t) s) eqn:E; [|reflexivity].
  apply Session_eqb_spec in E. exfalso. apply H. rewrite <- E. now apply in_map.
Qed.

Lemma count_snoc {A} (xs : list A) (x : A) : count (xs ++ [x]) = (count xs + 1)%Z.
Proof. unfold count. rewrite length_app. cbn [List.length]. lia. Qed.

Lemma sum_by_snoc {A} (f : A -> Q) (xs : list A) (x : A) :
  sum_by f (xs ++ [x]) = sum_by f xs + f x.
Proof. unfold sum_by. now rewrite fold_left_app. Qed.

(** What one pass of the loop does to the cell of the trade's session. *)
Lemma sessionStatsOf_snoc (own : list Trade) (t : Trade) :
  sessionStatsOf (own ++ [t])
  = {| st_trades := st_trades (sessionStatsOf own) + 1;
       st_profitLoss := st_profitLoss (sessionStatsOf own) + profitLoss t;
       st_winningTrades :=
         if gt (profitLoss t) 0 then (st_winningTrades (sessionStatsOf own) + 1)%Z
         else st_winningTrades (sessionStatsOf own) |}.
Proof.
  unfold sessionStatsOf. cbn [st_trades st_profitLoss st_winningTrades].
  rewrite count_snoc, sum_by_snoc, filter_app. cbn [filter].
  destruct (gt (profitLoss t) 0); [now rewrite count_snoc | now rewrite app_nil_r].
Qed.

(** The table after the loop: one cell per session in the order of
    first occurrence, holding the statistics of that session's
    trades. *)
Lemma sessionStats_loop (trades : list Trade) :
  fold_left (fun acc trade => bind acc (fun o => tallySession o trade)) trades (Ok [])
  = Ok (map (fun s => (s, sessionStatsOf (ofSession s trades)))
          (firstSeen Session_eqb (map session trades))).
Proof.
  induction trades as [|t xs IH] using rev_ind; [reflexivity|].
  rewrite fold_left_app, IH. cbn [fold_left bind]. clear IH.
  rewrite map_app. cbn [map]. rewrite firstSeen_snoc.
  set (ks := firstSeen Session_eqb (map session xs)).
  assert (Hnd : NoDup ks) by apply (NoDup_firstSeen Session_eqb Session_eqb_spec).
  unfold tallySession. cbn zeta.
  rewrite (lookup_keys Session_eqb Session_eqb_spec). unfold see.
  destruct (existsb (Session_eqb (session t)) ks) eqn:E.
  - rewrite (lookup_keys Session_eqb Session_eqb_spec), E.
    apply (existsb_eqb_In Session_eqb Session_eqb_spec) in E.
    rewrite (assign_keys Session_eqb Session_eqb_spec) by assumption.
    f_equal. apply map_ext. intro s. f_equal.
    rewrite ofSession_snoc, (Session_eqb_sym (session t) s).
    destruct (Session_eqb s (session t)) eqn:Es; [|reflexivity].
    apply Session_eqb_spec in Es. subst s. symmetry. apply sessionStatsOf_snoc.
  - apply (existsb_eqb_notIn Session_eqb Session_eqb_spec) in E.
    assert (Hk : ~ In (session t)
                   (map fst (map (fun s => (s, sessionStatsOf (ofSession s xs))) ks))).
    { rewrite map_map. cbn [fst]. now rewrite map_id. }
    rewrite (assign_new Session_eqb Session_eqb_spec) by exact Hk.
    rewrite (lookup_new Session_eqb Session_eqb_spec) by exact Hk.
    rewrite (assign_last Session_eqb Session_eqb_spec) by exact Hk.
    f_equal. rewrite map_app. cbn [map]. f_equal.
    + apply map_ext_in. intros s Hs. f_equal.
      rewrite ofSession_snoc.
      rewrite (key_eqb_false Session_eqb Session_eqb_spec); [reflexivity|].
      intros <-. contradiction.
    + f_equal. f_equal.
      rewrite ofSession_snoc, (key_eqb_refl Session_eqb Session_eqb_spec).
      assert (Hnone : ofSession (session t) xs = []).
      { apply ofSession_unseen. intro Hin. apply E.
        now apply (In_firstSeen Session_eqb Session_eqb_spec). }
      rewrite Hnone. symmetry. exact (sessionStatsOf_snoc [] t).
Qed.

Lemma partition_by_key (ks : list Session) (trades : list Trade) :
  NoDup ks -> (forall t, In t trades -> In (session t) ks) ->
  fold_right Z.add 0%Z (map (fun s => count (ofSession s trades)) ks) = count trades.
Proof.
  intros Hnd. induction trades as [|t ts IH]; intro Hin.
  - clear Hnd Hin. induction ks as [|k ks IH]; cbn in *; [reflexivity|]. now rewrite IH.
  - assert (Hone : fold_right Z.add 0%Z
                     (map (fun s => if Session_eqb (session t) s then 1%Z else 0%Z) ks) = 1%Z).
    { specialize (Hin t (or_introl eq_refl)). clear IH.
      induction Hnd as [|k ks Hk Hnd IHk]; [destruct Hin|].
      cbn [map fold_right]. destruct (Session_eqb (session t) k) eqn:E.
      - apply Session_eqb_spec in E.
        assert (Hz : fold_right Z.add 0%Z
                       (map (fun s => if Session_eqb (session t) s then 1%Z else 0%Z) ks)
                     = 0%Z).
        { clear IHk Hin Hnd. induction ks as [|k' ks IH']; [reflexivity|].
          cbn [map fold_right].
          rewrite (key_eqb_false Session_eqb Session_eqb_spec).
          - rewrite IH'; [reflexivity|]. intro H. apply Hk. now right.
          - intro H. apply Hk. left. congruence. }
        rewrite Hz. reflexivity.
      - rewrite IHk; [reflexivity|].
        destruct Hin as [Hin|Hin]; [|exact Hin].
        subst k. rewrite (key_eqb_refl Session_eqb Session_eqb_spec) in E. discriminate. }
    specialize (IH (fun x Hx => Hin x (or_intror Hx))).
    assert (Hsplit : forall l,
      fold_right Z.add 0%Z (map (fun s => count (ofSession s (t :: ts))) l)
      = (fold_right Z.add 0%Z
           (map (fun s => if Session_eqb (session t) s then 1%Z else 0%Z) l)
         + fold_right Z.add 0%Z (map (fun s => count (ofSession s ts)) l))%Z).
    { induction l as [|k l IHl]; [reflexivity|].
      cbn [map fold_right]. rewrite IHl.
      unfold ofSession at 1. cbn [filter]. fold (ofSession k ts).
      destruct (Session_eqb (session t) k); unfold count; cbn [List.length]; lia. }
    rewrite Hsplit, Hone, IH. unfold count. cbn [List.length]. lia.
Qed.

Lemma ofSession_seen (s : Session) (trades : list Trade) :
  In s (map session trades) -> ofSession s trades <> [].
Proof.
  intro H. apply in_map_iff in H. destruct H as (t & <- & Ht).
  intro E.
  assert (Hin : In t (ofSession (session t) trades)).
  { unfold ofSession. apply filter_In. split; [exact Ht|].
    now apply Session_eqb_spec. }
  rewrite E in Hin. destruct Hin.
Qed.

(** The win rate of a row: a percentage, 100 when every trade of the
    session won and 0 when none did. *)
Lemma sessionRow_winRate (own : list Trade) (s : Session) :
  own <> [] ->
  let row := sessionRowOf (s, sessionStatsOf own) in
  (0 <= SessionRow.winRate row /\ SessionRow.winRate row <= 100) /\
  (Forall (fun t => 0 < profitLoss t) own -> SessionRow.winRate row == 100) /\
  (Forall (fun t => profitLoss t <= 0) own -> SessionRow.winRate row == 0).
Proof.
  intros Hne row. subst row.
  cbn [sessionRowOf sessionStatsOf SessionRow.winRate st_trades st_winningTrades].
  change (inject_Z (count own)) with (len own).
  change (inject_Z (count (filter (fun t => gt (profitLoss t) 0) own)))
    with (len (filter (fun t => gt (profitLoss t) 0) own)).
  pose proof (len_pos own Hne) as Hn.
  pose proof (len_filter_le (fun t => gt (profitLoss t) 0) own) as Hw.
  pose proof (len_nonneg (filter (fun t => gt (profitLoss t) 0) own)) as Hw0.
  set (w := len (filter (fun t => gt (profitLoss t) 0) own)) in *.
  assert (Hlo : 0 <= w / len own * 100).
  { apply Qmult_le_0_compat; [|lra]. apply Qle_shift_div_l; lra. }
  assert (Hhi : w / len own * 100 <= 100).
  { assert (w / len own <= 1) by (apply Qle_shift_div_r; lra). lra. }
  split; [split|split].
  - apply Qle_trans with (round2 0); [vm_compute; discriminate|].
    now apply round2_mono.
  - apply Qle_trans with (round2 100); [now apply round2_mono|].
    vm_compute. discriminate.
  - intro Hall. unfold w. rewrite filter_all.
    + rewrite (round2_comp _ 100); [vm_compute; reflexivity|]. field. lra.
    + eapply Forall_impl; [|exact Hall]. intros t Ht. now apply gt_true.
  - intro Hall. unfold w. rewrite filter_none.
    + rewrite (round2_comp _ 0); [vm_compute; reflexivity|].
      change (len (@nil Trade)) with 0. field. lra.
    + eapply Forall_impl; [|exact Hall]. intros t Ht. now apply gt_false.
Qed.

(** X22.  The session table of any list of trades.  The call returns;
    there is one row per session that occurs, in the order of first
    occurrence; a row counts the trades of its session, one at least,
    and the counts of the rows add up to the number of trades; its win
    rate is a percentage, 100 when every trade of the session won and
    0 when none did. *)
Theorem session_rows_partition_the_trades (trades : list Trade) :
  exists rows,
    calculateSessionPerformance trades = Ok rows /\
    map SessionRow.session rows = firstSeen Session_eqb (map session trades) /\
    Forall (fun row =>
              let own := ofSession (SessionRow.session row) trades in
              SessionRow.trades row = Z.of_nat (List.length own) /\
              (1 <= SessionRow.trades row)%Z /\
              (0 <= SessionRow.winRate row /\ SessionRow.winRate row <= 100) /\
              (Forall (fun t => 0 < profitLoss t) own ->
               SessionRow.winRate row == 100) /\
              (Forall (fun t => profitLoss t <= 0) own ->
               SessionRow.winRate row == 0))
           rows /\
    fold_right Z.add 0%Z (map SessionRow.trades rows)
    = Z.of_nat (List.length trades).
Proof.
  set (ks := firstSeen Session_eqb (map session trades)).
  exists (map (fun s => sessionRowOf (s, sessionStatsOf (ofSession s trades))) ks).
  split; [|split; [|split]].
  - unfold calculateSessionPerformance. rewrite sessionStats_loop.
    cbn [bind]. fold ks. now rewrite map_map.
  - rewrite map_map. cbn [sessionRowOf SessionRow.session]. apply map_id.
  - apply Forall_forall. intros row Hrow.
    apply in_map_iff in Hrow. destruct Hrow as (s & <- & Hs).
    cbn zeta. cbn [sessionRowOf SessionRow.session].
    change (SessionRow.session
              {| SessionRow.session := s;
                 SessionRow.trades := st_trades (sessionStatsOf (ofSession s trades));
                 SessionRow.profitLoss :=
                   round2 (st_profitLoss (sessionStatsOf (ofSession s trades)));
                 SessionRow.winRate :=
                   round2 (inject_Z (st_winningTrades
                                       (sessionStatsOf (ofSession s trades)))
                           / inject_Z (st_trades (sessionStatsOf (ofSession s trades)))
                           * 100) |}) with s.
    assert (Hne : ofSession s trades <> []).
    { apply ofSession_seen.
      exact (proj1 (In_firstSeen Session_eqb Session_eqb_spec s (map session trades))
               Hs). }
    destruct (sessionRow_winRate (ofSession s trades) s Hne) as (Hr & H100 & H0).
    split; [reflexivity|]. split.
    { cbn [SessionRow.trades sessionStatsOf st_trades]. unfold count.
      destruct (ofSession s trades); [congruence | cbn [List.length]; lia]. }
    split; [exact Hr|]. split; [exact H100 | exact H0].
  - rewrite map_map. cbn [sessionRowOf SessionRow.trades sessionStatsOf st_trades].
    apply (partition_by_key ks trades).
    + apply (NoDup_firstSeen Session_eqb Session_eqb_spec).
    + intros t Ht. apply (In_firstSeen Session_eqb Session_eqb_spec).
      now apply in_map.
Qed.

(* ================================================================== *)
(** * Trends *)
(* ================================================================== *)

Lemma trendOf_flip (x y : Q) : trendOf y x = flipTrend (trendOf x y).
Proof. unfold trendOf. cmp_cases; try reflexivity; lra. Qed.

Lemma calculateTrends_halves (a b : list Trade) :
  a <> [] -> List.length a = List.length b ->
  calculateTrends (a ++ b)
  = {| pnlTrend := trendOf (sum_by profitLoss a) (sum_by profitLoss b);
       winRateTrend := trendOf (winningTrades a / len a) (winningTrades b / len b);
       riskTrend := trendOf (avg riskPercentUsed a) (avg riskPercentUsed b) |}.
Proof.
  intros Hne Hlen. unfold calculateTrends.
  assert (Hpos : (1 <= List.length a)%nat)
    by (destruct a; [congruence | cbn; lia]).
  assert (Hl : List.length (a ++ b) = (List.length a * 2)%nat)
    by (rewrite length_app; lia).
  rewrite Hl.
  assert (E : (List.length a * 2 <? 2)%nat = false) by (apply Nat.ltb_ge; lia).
  rewrite E, Nat.div_mul by discriminate. cbn zeta.
  assert (H1 : slice 0 (List.length a) (a ++ b) = a).
  { unfold slice. rewrite Nat.sub_0_r. cbn [skipn].
    rewrite firstn_app, Nat.sub_diag, firstn_all. cbn [firstn]. apply app_nil_r. }
  assert (H2 : skipn (List.length a) (a ++ b) = b).
  { rewrite skipn_app, Nat.sub_diag, skipn_all. reflexivity. }
  now rewrite H1, H2.
Qed.

(** X23.  The trends compare the second half of the list with the first:
    exchanging two halves of equal length turns every UP into DOWN and
    every DOWN into UP, and a list made of the same half twice is
    STABLE in all three. *)
Theorem trends_flip_when_halves_swap (a b : list Trade) :
  a <> [] -> List.length a = List.length b ->
  pnlTrend (calculateTrends (b ++ a)) = flipTrend (pnlTrend (calculateTrends (a ++ b))) /\
  winRateTrend (calculateTrends (b ++ a))
  = flipTrend (winRateTrend (calculateTrends (a ++ b))) /\
  riskTrend (calculateTrends (b ++ a)) = flipTrend (riskTrend (calculateTrends (a ++ b))) /\
  calculateTrends (a ++ a)
  = {| pnlTrend := Trend.STABLE; winRateTrend := Trend.STABLE;
       riskTrend := Trend.STABLE |}.
Proof.
  intros Hne Hlen.
  assert (Hb : b <> []) by (intros ->; destruct a; [congruence | discriminate]).
  rewrite (calculateTrends_halves a b Hne Hlen).
  rewrite (calculateTrends_halves b a Hb (eq_sym Hlen)).
  rewrite (calculateTrends_halves a a Hne eq_refl).
  cbn [pnlTrend winRateTrend riskTrend].
  split; [apply trendOf_flip|]. split; [apply trendOf_flip|].
  split; [apply trendOf_flip|].
  assert (Hs : forall x, trendOf x x = Trend.STABLE)
    by (intro x; unfold trendOf; cmp_cases; try reflexivity; lra).
  now rewrite !Hs.
Qed.

Lemma trends_flip_when_halves_swap_witness :
  let a := [trade 1 10 (-20) 2 NY; trade 2 20 10 1 NY] in
  let b := [trade 3 30 40 3 NY; trade 4 40 25 3 NY] in
  pnlTrend (calculateTrends (b ++ a)) = flipTrend (pnlTrend (calculateTrends (a ++ b))).
Proof.
  intros a b.
  assert (H1 : a <> []) by discriminate.
  assert (H2 : List.length a = List.length b) by reflexivity.
  exact (proj1 (trends_flip_when_halves_swap a b H1 H2)).
Defined.

(* ================================================================== *)
(** * Alerts *)
(* ================================================================== *)

Lemma lastN_all {A} (n : nat) (xs : list A) :
  (List.length xs <= n)%nat -> lastN n xs = xs.
Proof.
  intro H. unfold lastN.
  replace (List.length xs - n)%nat with 0%nat by lia. reflexivity.
Qed.

Lemma recentAlert_same (fadd fsub : Q -> Q -> Q) (w : Q) (alerts : list Alert.t) :
  w <= fadd w 0.2 -> fsub w 0.2 <= w ->
  recentAlert fadd fsub w w alerts = alerts.
Proof.
  intros H1 H2. unfold recentAlert.
  assert (E1 : gt w (fadd w 0.2) = false) by now apply gt_false.
  assert (E2 : lt w (fsub w 0.2) = false) by now apply lt_false.
  now rewrite E1, E2.
Qed.

Lemma generateAlerts_nonempty (fadd fsub : Q -> Q -> Q) (trades : list Trade)
  (ps : PsychologicalStateResult) :
  trades <> [] ->
  generateAlerts fadd fsub trades ps
  = stateAlert (state ps)
      (recentAlert fadd fsub
         (winningTrades (lastN 5 trades) / len (lastN 5 trades))
         (winningTrades trades / len trades)
         (riskAlert (avg riskPercentUsed trades)
            (winRateAlert (winningTrades trades / len trades) []))).
Proof.
  intro H. unfold generateAlerts. now rewrite length_eqb_nonempty by exact H.
Qed.

(** X24.  With five trades or fewer the recent trades are all the trades, so
    neither alert on recent performance is raised, however the margin
    of 0.2 is rounded, as long as adding it does not lower a number
    and subtracting it does not raise one. *)
Theorem no_recent_alert_up_to_five_trades (fadd fsub : Q -> Q -> Q)
  (trades : list Trade) (ps : PsychologicalStateResult) :
  (forall x, x <= fadd x 0.2) -> (forall x, fsub x 0.2 <= x) ->
  (List.length trades <= 5)%nat ->
  forall a, In a (generateAlerts fadd fsub trades ps) ->
            Alert.message a <> "Recent performance showing improvement"%string /\
            Alert.message a <> "Recent performance declining"%string.
Proof.
  intros Hadd Hsub Hlen a Hin.
  destruct trades as [|t ts]; [destruct Hin|].
  rewrite generateAlerts_nonempty in Hin by discriminate.
  rewrite lastN_all in Hin by exact Hlen.
  rewrite recentAlert_same in Hin by auto.
  unfold stateAlert, riskAlert, winRateAlert in Hin.
  destruct (state ps), (gt (avg riskPercentUsed (t :: ts)) 3),
    (lt (avg riskPercentUsed (t :: ts)) 1),
    (ge (winningTrades (t :: ts) / len (t :: ts)) 0.7),
    (le (winningTrades (t :: ts) / len (t :: ts)) 0.3);
    cbn [app In] in Hin;
    repeat (destruct Hin as [<-|Hin]; [split; discriminate|]);
    destruct Hin.
Qed.

(** X25.  At most four alerts are raised, one per rule at most, and none
    for an empty list of trades. *)
Theorem alerts_shape (fadd fsub : Q -> Q -> Q) (trades : list Trade)
  (ps : PsychologicalStateResult) :
  (List.length (generateAlerts fadd fsub trades ps) <= 4)%nat /\
  NoDup (map Alert.message (generateAlerts fadd fsub trades ps)) /\
  generateAlerts fadd fsub [] ps = [].
Proof.
  split; [|split; [|reflexivity]].
  - destruct trades as [|t ts]; [cbn; lia|].
    rewrite generateAlerts_nonempty by discriminate.
    unfold stateAlert, recentAlert, riskAlert, winRateAlert.
    destruct (state ps); cmp_cases; cbn [app List.length]; lia.
  - destruct trades as [|t ts]; [constructor|].
    rewrite generateAlerts_nonempty by discriminate.
    unfold stateAlert, recentAlert, riskAlert, winRateAlert.
    destruct (state ps); cmp_cases; cbn [app map Alert.message]; nodup_strings.
Qed.

Lemma no_recent_alert_up_to_five_trades_witness :
  Forall (fun a =>
            Alert.message a <> "Recent performance showing improvement"%string /\
            Alert.message a <> "Recent performance declining"%string)
    (generateAlerts Qplus Qminus [trade 1 10 30 2 NY; trade 2 20 (-5) 2 NY]
       (analyzePsychologicalState 0 [trade 1 10 30 2 NY])).
Proof.
  assert (H1 : forall x, x <= Qplus x 0.2) by (intro x; lra).
  assert (H2 : forall x, Qminus x 0.2 <= x) by (intro x; lra).
  assert (H3 : (List.length [trade 1 10 30 2 NY; trade 2 20 (-5) 2 NY] <= 5)%nat)
    by (cbn; lia).
  apply Forall_forall.
  exact (no_recent_alert_up_to_five_trades Qplus Qminus
           [trade 1 10 30 2 NY; trade 2 20 (-5) 2 NY]
           (analyzePsychologicalState 0 [trade 1 10 30 2 NY]) H1 H2 H3).
Defined.

(* ================================================================== *)
(** * The dashboard summary *)
(* ================================================================== *)

Lemma findInPeriod_sorted (store : list Trade) (user : Z) (dateRange : DateRange) :
  StronglySorted (fun a b => (entryTime b <= entryTime a)%Z)
    (findInPeriod store user dateRange).
Proof.
  unfold findInPeriod.
  eapply StronglySorted_ind with
    (P := StronglySorted (fun a b => (entryTime b <= entryTime a)%Z))
    (R := fun a b : Trade => (- entryTime a <= - entryTime b)%Z).
  - constructor.
  - intros a l _ IH Hall. constructor; [exact IH|].
    eapply Forall_impl; [|exact Hall]. cbn beta. intros; lia.
  - apply (sort_key_sorted (fun t => (- entryTime t)%Z)). intros a b. lia.
Qed.

Lemma winRateAlert_other (a : Alert.t) (w : Q) (l : list Alert.t) :
  Alert.message a <> "Excellent win rate achieved"%string ->
  Alert.message a <> "Low win rate - review trading strategy"%string ->
  (In a (winRateAlert w l) <-> In a l).
Proof.
  intros H1 H2. unfold winRateAlert.
  destruct (ge w 0.7); [|destruct (le w 0.3)]; rewrite ?in_app_iff; cbn [In];
    split; intro H; try tauto; destruct H as [H|[<-|[]]]; auto;
    cbn in H1, H2; congruence.
Qed.

Lemma riskAlert_other (a : Alert.t) (r : Q) (l : list Alert.t) :
  Alert.message a <> "Risk per trade above recommended level"%string ->
  Alert.message a <> "Consider increasing position sizes gradually"%string ->
  (In a (riskAlert r l) <-> In a l).
Proof.
  intros H1 H2. unfold riskAlert.
  destruct (gt r 3); [|destruct (lt r 1)]; rewrite ?in_app_iff; cbn [In];
    split; intro H; try tauto; destruct H as [H|[<-|[]]]; auto;
    cbn in H1, H2; congruence.
Qed.

Lemma recentAlert_other (fadd fsub : Q -> Q -> Q) (a : Alert.t) (x w : Q)
  (l : list Alert.t) :
  Alert.message a <> "Recent performance showing improvement"%string ->
  Alert.message a <> "Recent performance declining"%string ->
  (In a (recentAlert fadd fsub x w l) <-> In a l).
Proof.
  intros H1 H2. unfold recentAlert.
  destruct (gt x (fadd w 0.2)); [|destruct (lt x (fsub w 0.2))];
    rewrite ?in_app_iff; cbn [In];
    split; intro H; try tauto; destruct H as [H|[<-|[]]]; auto;
    cbn in H1, H2; congruence.
Qed.

Lemma stateAlert_other (a : Alert.t) (s : PsyState) (l : list Alert.t) :
  Alert.message a <> "High risk tolerance detected - reduce position sizes"%string ->
  Alert.message a <> "Low confidence detected - consider taking a break"%string ->
  (In a (stateAlert s l) <-> In a l).
Proof.
  intros H1 H2. unfold stateAlert.
  destruct s; rewrite ?in_app_iff; cbn [In];
    split; intro H; try tauto; destruct H as [H|[<-|[]]]; auto;
    cbn in H1, H2; congruence.
Qed.

Lemma riskAlert_high (r : Q) (l : list Alert.t) :
  In (Alert.mk Alert.WARNING "Risk per trade above recommended level" Alert.HIGH)
     (riskAlert r l)
  <-> gt r 3 = true
      \/ In (Alert.mk Alert.WARNING "Risk per trade above recommended level"
               Alert.HIGH) l.
Proof.
  unfold riskAlert.
  destruct (gt r 3); [|destruct (lt r 1)]; rewrite ?in_app_iff; cbn [In];
    intuition discriminate.
Qed.

Lemma riskAlert_low (r : Q) (l : list Alert.t) :
  In (Alert.mk Alert.INFO "Consider increasing position sizes gradually" Alert.LOW)
     (riskAlert r l)
  <-> (gt r 3 = false /\ lt r 1 = true)
      \/ In (Alert.mk Alert.INFO "Consider increasing position sizes gradually"
               Alert.LOW) l.
Proof.
  unfold riskAlert.
  destruct (gt r 3); [|destruct (lt r 1)]; rewrite ?in_app_iff; cbn [In];
    intuition discriminate.
Qed.

Lemma stateAlert_greedy (s : PsyState) (l : list Alert.t) :
  In (Alert.mk Alert.WARNING "High risk tolerance detected - reduce position sizes"
        Alert.HIGH) (stateAlert s l)
  <-> s = GREEDY
      \/ In (Alert.mk Alert.WARNING
               "High risk tolerance detected - reduce position sizes" Alert.HIGH) l.
Proof.
  unfold stateAlert. destruct s; rewrite ?in_app_iff; cbn [In];
    intuition discriminate.
Qed.

Lemma stateAlert_fearful (s : PsyState) (l : list Alert.t) :
  In (Alert.mk Alert.INFO "Low confidence detected - consider taking a break"
        Alert.MEDIUM) (stateAlert s l)
  <-> s = FEARFUL
      \/ In (Alert.mk Alert.INFO
               "Low confidence detected - consider taking a break" Alert.MEDIUM) l.
Proof.
  unfold stateAlert. destruct s; rewrite ?in_app_iff; cbn [In];
    intuition discriminate.
Qed.

(** X26.  In the dashboard summary the trades of the period arrive newest
    first, so the five trades the alerts take for recent are the
    oldest of the period: none of them entered after any trade left
    out. *)
Theorem recent_alert_reads_oldest_trades (fadd fsub : Q -> Q -> Q)
  (now : Timestamp) (store : list Trade) (dateRange : DateRange) (user : Z)
  (period : string) (x y : Trade) :
  let trades := findInPeriod store user dateRange in
  In x (lastN 5 trades) ->
  In y (firstn (List.length trades - 5) trades) ->
  Dashboard.alerts (getDashboardSummary fadd fsub now store dateRange user period)
  = generateAlerts fadd fsub trades (getCurrentState now store user) /\
  (entryTime x <= entryTime y)%Z.
Proof.
  intros trades Hx Hy. split; [reflexivity|].
  pose proof (findInPeriod_sorted store user dateRange) as Hs. fold trades in Hs.
  rewrite <- (firstn_skipn (List.length trades - 5) trades) in Hs.
  exact (StronglySorted_across _ _ _ Hs y x Hy Hx).
Qed.

Lemma state_by_risk (now : Timestamp) (trades : list Trade) :
  trades <> [] ->
  exists s, s <> GREEDY /\ s <> FEARFUL /\
    state (analyzePsychologicalState now trades)
    = if gt (avg riskPercentUsed trades) 3 then GREEDY
      else if lt (avg riskPercentUsed trades) 1 then FEARFUL
      else s.
Proof.
  intro Hne. exists (v_state (winRateRule (winRate trades) baseline)).
  split; [|split].
  - unfold winRateRule, baseline. cmp_cases; cbn [v_state]; discriminate.
  - unfold winRateRule, baseline. cmp_cases; cbn [v_state]; discriminate.
  - rewrite (analyze_nonempty now trades Hne). cbn zeta. cbn [state].
    destruct (verdict_extends trades) as [Hs _]. rewrite Hs.
    unfold riskRule, push.
    destruct (gt (avg riskPercentUsed trades) 3); [reflexivity|].
    destruct (lt (avg riskPercentUsed trades) 1); reflexivity.
Qed.

Lemma findInPeriod_all (store : list Trade) (user : Z) (dateRange : DateRange) :
  (forall t, In t store -> userId t = user ->
             (range_start dateRange <= entryTime t <= range_end dateRange)%Z) ->
  findInPeriod store user dateRange
  = sort newestFirst (filter (fun t => (userId t =? user)%Z) store).
Proof.
  intro H. unfold findInPeriod. f_equal. apply filter_ext_in. intros t Ht.
  destruct (userId t =? user)%Z eqn:E; [|reflexivity].
  apply Z.eqb_eq in E. destruct (H t Ht E) as [H1 H2].
  apply Z.leb_le in H1, H2. now rewrite H1, H2.
Qed.

(** X27.  When the period holds all the trades of the user and these are ten
    at most, the alerts and the current state read the same trades:
    the warning on the risk per trade comes exactly with the warning
    on the GREEDY state, and the advice to increase position sizes
    exactly with the note on the FEARFUL state. *)
Theorem risk_warnings_agree (fadd fsub : Q -> Q -> Q) (now : Timestamp)
  (store : list Trade) (dateRange : DateRange) (user : Z) (period : string) :
  (forall t, In t store -> userId t = user ->
             (range_start dateRange <= entryTime t <= range_end dateRange)%Z) ->
  (List.length (filter (fun t => (userId t =? user)%Z) store) <= 10)%nat ->
  let alerts :=
    Dashboard.alerts (getDashboardSummary fadd fsub now store dateRange user period) in
  (In (Alert.mk Alert.WARNING "Risk per trade above recommended level" Alert.HIGH)
      alerts
   <-> In (Alert.mk Alert.WARNING
             "High risk tolerance detected - reduce position sizes" Alert.HIGH)
          alerts) /\
  (In (Alert.mk Alert.INFO "Consider increasing position sizes gradually" Alert.LOW)
      alerts
   <-> In (Alert.mk Alert.INFO
             "Low confidence detected - consider taking a break" Alert.MEDIUM)
          alerts).
Proof.
  intros Hall Hlen alerts. subst alerts.
  unfold getDashboardSummary. cbn zeta. cbn [Dashboard.alerts].
  unfold getCurrentState. cbn zeta.
  rewrite (findInPeriod_all store user dateRange Hall).
  rewrite limitTo_firstn by discriminate.
  rewrite firstn_all2 by (rewrite sort_length; exact Hlen).
  set (trades := sort newestFirst (filter (fun t => (userId t =? user)%Z) store)).
  assert (Hcase : trades = [] \/ trades <> [])
    by (destruct trades; [now left | right; discriminate]).
  destruct Hcase as [Hnil|Hne].
  { rewrite Hnil. cbn. tauto. }
  rewrite (generateAlerts_nonempty fadd fsub trades _ Hne).
  destruct (state_by_risk now trades Hne) as (s & Hg & Hf & Hs).
  set (ps := analyzePsychologicalState now trades) in *.
  split.
  - rewrite stateAlert_greedy, stateAlert_other by (cbn [Alert.message]; congruence).
    do 2 (rewrite recentAlert_other by (cbn [Alert.message]; congruence)).
    rewrite riskAlert_high, riskAlert_other by (cbn [Alert.message]; congruence).
    do 2 (rewrite winRateAlert_other by (cbn [Alert.message]; congruence)).
    rewrite Hs. cbn [In].
    destruct (gt (avg riskPercentUsed trades) 3);
      [|destruct (lt (avg riskPercentUsed trades) 1)]; intuition congruence.
  - rewrite stateAlert_fearful, stateAlert_other by (cbn [Alert.message]; congruence).
    do 2 (rewrite recentAlert_other by (cbn [Alert.message]; congruence)).
    rewrite riskAlert_low, riskAlert_other by (cbn [Alert.message]; congruence).
    do 2 (rewrite winRateAlert_other by (cbn [Alert.message]; congruence)).
    rewrite Hs. cbn [In].
    destruct (gt (avg riskPercentUsed trades) 3);
      [|destruct (lt (avg riskPercentUsed trades) 1)]; intuition congruence.
Qed.

Lemma recent_alert_reads_oldest_trades_witness :
  let store := map (fun n => trade (Z.of_nat n) (100 + Z.of_nat n) 10 2 NY) (seq 0 7) in
  let trades := findInPeriod store 1 (mkRange 0 1000) in
  In (trade 0 100 10 2 NY) (lastN 5 trades) /\
  In (trade 6 106 10 2 NY) (firstn (List.length trades - 5) trades) /\
  (entryTime (trade 0 100 10 2 NY) <= entryTime (trade 6 106 10 2 NY))%Z.
Proof.
  intros store trades.
  assert (Hx : In (trade 0 100 10 2 NY) (lastN 5 trades)).
  { vm_compute. repeat ((left; reflexivity) || right). }
  assert (Hy : In (trade 6 106 10 2 NY) (firstn (List.length trades - 5) trades)).
  { vm_compute. repeat ((left; reflexivity) || right). }
  split; [exact Hx|]. split; [exact Hy|].
  exact (proj2 (recent_alert_reads_oldest_trades Qplus Qminus 0%Z store
                  (mkRange 0 1000) 1%Z "MONTH"%string _ _ Hx Hy)).
Defined.

Lemma risk_warnings_agree_witness :
  let store := [trade 1 10 30 5 NY; trade 2 20 (-5) 4 NY] in
  let alerts :=
    Dashboard.alerts
      (getDashboardSummary Qplus Qminus 0 store (mkRange 0 100) 1 "MONTH") in
  In (Alert.mk Alert.WARNING "Risk per trade above recommended level" Alert.HIGH)
     alerts
  <-> In (Alert.mk Alert.WARNING
            "High risk tolerance detected - reduce position sizes" Alert.HIGH)
         alerts.
Proof.
  intros store alerts.
  assert (H1 : forall t, In t store -> userId t = 1%Z ->
                         (range_start (mkRange 0 100) <= entryTime t
                          <= range_end (mkRange 0 100))%Z).
  { intros t [<-|[<-|[]]] _; cbn; lia. }
  assert (H2 : (List.length (filter (fun t => (userId t =? 1)%Z) store) <= 10)%nat)
    by (cbn; lia).
  exact (proj1 (risk_warnings_agree Qplus Qminus 0%Z store (mkRange 0 100) 1%Z
                  "MONTH"%string H1 H2)).
Defined.

(** X28.  A period without trades: the quick statistics are all zero, the
    trends STABLE and no alert is raised, while the current state
    shown is still the one of the user's ten latest trades, in the
    period or not. *)
Theorem summary_of_empty_period (fadd fsub : Q -> Q -> Q) (now : Timestamp)
  (store : list Trade) (dateRange : DateRange) (user : Z) (period : string) :
  findInPeriod store user dateRange = [] ->
  let d := getDashboardSummary fadd fsub now store dateRange user period in
  Dashboard.totalTrades (Dashboard.quickStats d) = 0%Z /\
  Dashboard.winRate (Dashboard.quickStats d) = 0 /\
  Dashboard.totalPnL (Dashboard.quickStats d) = 0 /\
  Dashboard.avgRiskReward (Dashboard.quickStats d) = 0 /\
  Dashboard.trends d
  = {| pnlTrend := Trend.STABLE; winRateTrend := Trend.STABLE;
       riskTrend := Trend.STABLE |} /\
  Dashboard.alerts d = [] /\
  Dashboard.currentState (Dashboard.quickStats d)
  = state (analyzePsychologicalState now
             (firstn 10 (sort newestFirst
                           (filter (fun t => (userId t =? user)%Z) store)))).
Proof.
  intros H d. subst d. unfold getDashboardSummary. cbn zeta. rewrite H.
  cbn [Dashboard.quickStats Dashboard.totalTrades Dashboard.winRate
       Dashboard.totalPnL Dashboard.avgRiskReward Dashboard.trends
       Dashboard.alerts Dashboard.currentState].
  repeat split.
Qed.

Lemma summary_of_empty_period_witness :
  let store := [trade 1 10 30 5 NY; trade 2 20 10 4 NY] in
  findInPeriod store 1 (mkRange 50 100) = [] /\
  Dashboard.alerts (getDashboardSummary Qplus Qminus 0 store (mkRange 50 100) 1 "WEEK")
  = [] /\
  Dashboard.currentState
    (Dashboard.quickStats
       (getDashboardSummary Qplus Qminus 0 store (mkRange 50 100) 1 "WEEK"))
  = GREEDY.
Proof.
  intro store.
  assert (H : findInPeriod store 1 (mkRange 50 100) = []) by reflexivity.
  split; [exact H|].
  destruct (summary_of_empty_period Qplus Qminus 0%Z store (mkRange 50 100) 1%Z
              "WEEK"%string H) as (_ & _ & _ & _ & _ & Ha & Hs).
  split; [exact Ha|]. rewrite Hs. vm_compute. reflexivity.
Defined.

(** ** Agreement with the square root of the reals

    The same bracketing read in the real numbers: [round_sqrt v] is
    [Math.round(Math.sqrt(v))], the integer nearest to the real square
    root of [v], halves going up. *)
Module SqrtAdequacy.
Import Reals Qreals Lra.

Lemma Q2R_inject_Z (z : Z) : Q2R (inject_Z z) = IZR z.
Proof. unfold Q2R, inject_Z. cbn. lra. Qed.

Lemma round_sqrt_real (v : Q) :
  (0 <= v)%Q ->
  (IZR (round_sqrt v) - / 2 <= sqrt (Q2R v) < IZR (round_sqrt v) + / 2)%R.
Proof.
  intro Hv.
  destruct (round_sqrt_spec v Hv) as (Hk & Hlo & Hhi).
  set (k := round_sqrt v) in *.
  assert (Hx : (0 <= Q2R v)%R).
  { apply Qle_Rle in Hv. now rewrite RMicromega.Q2R_0 in Hv. }
  pose proof (sqrt_pos (Q2R v)) as Hs.
  pose proof (sqrt_sqrt (Q2R v) Hx) as Hss.
  set (s := sqrt (Q2R v)) in *.
  apply Qlt_Rlt in Hhi.
  rewrite Q2R_mult, Q2R_inject_Z, mult_IZR, plus_IZR, mult_IZR in Hhi.
  change (Q2R 4) with (Q2R (inject_Z 4)) in Hhi.
  rewrite Q2R_inject_Z in Hhi.
  apply IZR_le in Hk.
  split.
  - destruct Hlo as [E|Hlo].
    + rewrite E. lra.
    + apply Qle_Rle in Hlo.
      rewrite Q2R_mult, Q2R_inject_Z, mult_IZR, minus_IZR, mult_IZR in Hlo.
      change (Q2R 4) with (Q2R (inject_Z 4)) in Hlo.
      rewrite Q2R_inject_Z in Hlo.
      destruct (Rle_or_lt (IZR k - / 2) s) as [H|H]; [exact H|].
      exfalso. nra.
  - destruct (Rlt_or_le s (IZR k + / 2)) as [H|H]; [exact H|].
    exfalso. nra.
Qed.

End SqrtAdequacy.
